(** * FinPredict: forecasting pipeline and client utilities

    A shallow embedding of the numeric code of the repository:

    - [frontend/src/utils/indicators.ts] ([calculateRSI], [calculateSMA],
      [calculateEMA], [calculateVolatility]),
    - [frontend/src/utils/cache.ts] ([CACHE_KEYS], [loadFromCache],
      [saveToCache]),
    - the trading signal card ([TradingSignalCard]), which calls the
      indicators,
    - [ml/src/sequence_generator.py] and [ml/src/lstm_model.py] as printed
      in the LSTM training guide ([SequenceGenerator], the direction
      accuracy of [LSTMModel.evaluate]),
    - [ml/src/data_preparation.py] and [ml/src/feature_engineering.py] as
      printed in the model development guide ([DataCleaner],
      [FeatureEngineer]).

    Numbers.  JavaScript numbers, NumPy and pandas cells are IEEE doubles.
    They are modelled by [Float.num]: a rational, one of the two infinities
    or NaN.  The special values follow IEEE 754 (0/0 is NaN, x/0 is an
    infinity, NaN compares false with everything); arithmetic on finite
    values is exact, so rounding, overflow and underflow are outside the
    model and zero carries no sign.  The main theorems, those whose
    comment starts with an identifier such as C1 or X1, are worded so that
    they hold of the doubles as well.  Most of them say which rows, windows
    or branches the code takes and depend on no rounded value.  Those that
    bound a computed value assert what rounding to nearest keeps (a sign,
    an order against 0 or 100, an exact 0) or leave a margin wider than
    the accumulated rounding error ([Float.slack]); where an overflow or
    an underflow would break the bound they assume magnitudes that stay
    clear of both ([Float.moderate], [Float.tradable]).  Helper lemmas
    and examples that compute a value give the exact one.  The one place
    where the code's result depends on rounding, the split points
    [int(n * 0.7)], is modelled bit for bit in [Binary64]. *)

From Stdlib Require Import ZArith QArith Qabs Qreduction Lia Lqa.
From Stdlib Require Import DecimalString.
From Stdlib Require Import Sorting.Sorted.
From stdpp Require Import gmap strings list.

Open Scope nat_scope.

(** ** Part I: the program *)

(* ------------------------------------------------------------------ *)
(** *** Doubles with exact finite arithmetic *)

Module Float.

Inductive num : Type :=
  | Fin (q : Q)
  | Inf (negative : bool)
  | NaN.

Definition is_nan (x : num) : bool :=
  match x with NaN => true | _ => false end.

Definition is_fin (x : num) : bool :=
  match x with Fin _ => true | _ => false end.

Definition Qzero (q : Q) : bool := (Qnum q =? 0)%Z.
Definition Qneg (q : Q) : bool := (Qnum q <? 0)%Z.

Definition opp (x : num) : num :=
  match x with
  | Fin a => Fin (Qred (- a))
  | Inf s => Inf (negb s)
  | NaN => NaN
  end.

Definition add (x y : num) : num :=
  match x, y with
  | Fin a, Fin b => Fin (Qred (a + b))
  | Fin _, Inf s | Inf s, Fin _ => Inf s
  | Inf s, Inf t => if Bool.eqb s t then Inf s else NaN
  | _, _ => NaN
  end.

Definition sub (x y : num) : num := add x (opp y).

Definition mul (x y : num) : num :=
  match x, y with
  | Fin a, Fin b => Fin (Qred (a * b))
  | Fin a, Inf s | Inf s, Fin a =>
      if Qzero a then NaN else Inf (xorb s (Qneg a))
  | Inf s, Inf t => Inf (xorb s t)
  | _, _ => NaN
  end.

Definition div (x y : num) : num :=
  match x, y with
  | Fin a, Fin b =>
      if Qzero b then (if Qzero a then NaN else Inf (Qneg a))
      else Fin (Qred (a / b))
  | Fin _, Inf _ => Fin 0
  | Inf s, Fin b => Inf (xorb s (Qneg b))
  | _, _ => NaN
  end.

Definition abs (x : num) : num :=
  match x with
  | Fin a => Fin (Qabs a)
  | Inf _ => Inf false
  | NaN => NaN
  end.

(** [x < y]; false as soon as one side is NaN. *)
Definition ltb (x y : num) : bool :=
  match x, y with
  | Fin a, Fin b => match Qcompare a b with Lt => true | _ => false end
  | Fin _, Inf s => negb s
  | Inf s, Fin _ => s
  | Inf s, Inf t => s && negb t
  | _, _ => false
  end.

(** [x === y] on numbers; NaN is not equal to itself. *)
Definition eqb (x y : num) : bool :=
  match x, y with
  | Fin a, Fin b => Qeq_bool a b
  | Inf s, Inf t => Bool.eqb s t
  | _, _ => false
  end.

Definition of_nat (n : nat) : num := Fin (inject_Z (Z.of_nat n)).

(** A finite number that is not negative. *)
Definition nonneg (x : num) : Prop :=
  match x with Fin q => (0 <= q)%Q | _ => False end.

(** Magnitudes at which the sums, products and quotients of this code
    stay clear of the overflow and underflow of the doubles: a finite
    number of absolute value at most [2 ^ 500], and a positive one that is
    also at least [2 ^ -500]. *)
Definition big : Q := inject_Z (2 ^ 500).
Definition small : Q := / big.

Definition moderate (x : num) : Prop :=
  match x with Fin q => (Qabs q <= big)%Q | _ => False end.

Definition tradable (x : num) : Prop :=
  match x with Fin q => (small <= q <= big)%Q | _ => False end.

(** The margin left for rounding where a bound is computed through many
    roundings: one part in [2 ^ 16]. *)
Definition slack : Q := 1 # 65536.

(** [a.length] of a JavaScript array is below [2 ^ 32]. *)
Definition array_sized {A} (a : list A) : Prop :=
  (Z.of_nat (length a) < 2 ^ 32)%Z.

Definition finite (x : num) : Prop := is_fin x = true.

(** [x <= y] between finite numbers. *)
Definition le (x y : num) : Prop :=
  match x, y with
  | Fin a, Fin b => (a <= b)%Q
  | _, _ => False
  end.

End Float.

Arguments Float.opp : simpl never.
Arguments Float.add : simpl never.
Arguments Float.sub : simpl never.
Arguments Float.mul : simpl never.
Arguments Float.div : simpl never.
Arguments Float.abs : simpl never.
Arguments Float.ltb : simpl never.
Arguments Float.eqb : simpl never.
Arguments Float.of_nat : simpl never.

Declare Scope num_scope.
Delimit Scope num_scope with num.
Bind Scope num_scope with Float.num.
Infix "+" := Float.add : num_scope.
Infix "-" := Float.sub : num_scope.
Infix "*" := Float.mul : num_scope.
Infix "/" := Float.div : num_scope.

(* ------------------------------------------------------------------ *)
(** *** frontend/src/utils/indicators.ts *)

Module Indicators.
Import Float.

(** [data[i]]: reading past the end of an array gives [undefined], which
    turns into NaN in arithmetic. *)
Definition at_ (data : list num) (i : nat) : num := nth i data NaN.

(** Body of the first loop, [for (let i = 1; i <= period; i++)]. *)
Definition first_step (data : list num) (acc : num * num) (i : nat)
  : num * num :=
  let '(gains, losses) := acc in
  let change := (at_ data i - at_ data (i - 1))%num in
  if ltb (Fin 0) change then ((gains + change)%num, losses)
  else (gains, (losses + abs change)%num).

(** Body of the second loop (Wilder's smoothing),
    [for (let i = period + 1; i < data.length; i++)]. *)
Definition smooth_step (data : list num) (period : nat) (acc : num * num)
  (i : nat) : num * num :=
  let '(avgGain, avgLoss) := acc in
  let change := (at_ data i - at_ data (i - 1))%num in
  let gain := if ltb (Fin 0) change then change else Fin 0 in
  let loss := if ltb change (Fin 0) then abs change else Fin 0 in
  (((avgGain * of_nat (period - 1)) + gain) / of_nat period,
   ((avgLoss * of_nat (period - 1)) + loss) / of_nat period)%num.

(** The pair [(avgGain, avgLoss)] when both loops are done.  [prices] is
    newest first; [data] is its reversal. *)
Definition averages (prices : list num) (period : nat) : num * num :=
  let data := reverse prices in
  let '(gains, losses) :=
    fold_left (first_step data) (seq 1 period) (Fin 0, Fin 0) in
  let avgGain := (gains / of_nat period)%num in
  let avgLoss := (losses / of_nat period)%num in
  fold_left (smooth_step data period)
    (seq (period + 1) (length data - (period + 1))) (avgGain, avgLoss).

(** Both running averages are finite and not negative. *)
Definition both_nonneg (acc : num * num) : Prop :=
  nonneg (fst acc) /\ nonneg (snd acc).

(** [calculateRSI(prices, period)]; [None] is [null]. *)
Definition calculateRSI (prices : list num) (period : nat) : option num :=
  if length prices <? period + 1 then None
  else
    let '(avgGain, avgLoss) := averages prices period in
    if eqb avgLoss (Fin 0) then Some (Fin 100)
    else
      let rs := (avgGain / avgLoss)%num in
      Some (Fin 100 - (Fin 100 / (Fin 1 + rs)))%num.

End Indicators.

(* ------------------------------------------------------------------ *)
(** *** frontend/src/utils/cache.ts *)

Module Cache.

(** What evaluating an expression gives: a value, or an exception. *)
Inductive outcome (A : Type) : Type :=
  | Returns (a : A)
  | Throws.
Arguments Returns {A} a.
Arguments Throws {A}.

(** [try { body } catch (error) { handler }] *)
Definition try_catch {A} (body : outcome A) (handler : A) : A :=
  match body with
  | Returns a => a
  | Throws => handler
  end.

(** [window.localStorage].  The browser may refuse access to it (reading
    the property throws), and it refuses a write that would take the
    stored characters above its quota. *)
Inductive storage : Type :=
  | Denied
  | Granted (items : gmap string string) (quota : nat).

(** [typeof window === 'undefined'] holds on the server. *)
Inductive env : Type :=
  | Server
  | Browser (ls : storage).

Definition used (items : gmap string string) : nat :=
  map_fold (fun k v acc => String.length k + String.length v + acc) 0 items.

Definition fits (items : gmap string string) (quota : nat)
  (key val : string) : bool :=
  used (<[key := val]> items) <=? quota.

(** [window.localStorage.getItem(key)]; [None] is [null]. *)
Definition getItem (ls : storage) (key : string) : outcome (option string) :=
  match ls with
  | Denied => Throws
  | Granted items _ => Returns (items !! key)
  end.

(** [window.localStorage.setItem(key, val)] *)
Definition setItem (ls : storage) (key val : string) : outcome storage :=
  match ls with
  | Denied => Throws
  | Granted items quota =>
      if fits items quota key val
      then Returns (Granted (<[key := val]> items) quota)
      else Throws
  end.

(** A string is truthy unless it is empty; [null] is falsy. *)
Definition truthy (item : option string) : bool :=
  match item with
  | Some s => negb (String.eqb s EmptyString)
  | None => false
  end.

(** The page with the wall clock next to it, in milliseconds.  Neither
    function of cache.ts reads the clock. *)
Record world : Type := World { now : Z; host : env }.

Definition elapse (dt : Z) (w : world) : world :=
  World (now w + dt) (host w).

Section WithJSON.

(** The values the callers cache, with [null] among them, and the two
    built-in functions of the [JSON] object. *)
Variable value : Type.
Variable null : value.
Variable JSON_parse : string -> outcome value.
Variable JSON_stringify : value -> outcome string.

(** The body of the [try] block of [loadFromCache]. *)
Definition load_body (ls : storage) (key : string) : outcome value :=
  match getItem ls key with
  | Throws => Throws
  | Returns item =>
      if truthy item
      then match item with
           | Some s => JSON_parse s
           | None => Returns null
           end
      else Returns null
  end.

Definition loadFromCache (w : env) (key : string) : outcome value :=
  match w with
  | Server => Returns null
  | Browser ls =>
      Returns (try_catch (load_body ls key) null)
  end.

(** The body of the [try] block of [saveToCache]. *)
Definition save_body (ls : storage) (key : string) (data : value)
  : outcome storage :=
  match JSON_stringify data with
  | Throws => Throws
  | Returns s => setItem ls key s
  end.

(** [saveToCache] returns nothing; its effect is the new environment. *)
Definition saveToCache (w : env) (key : string) (data : value) : env :=
  match w with
  | Server => Server
  | Browser ls => Browser (try_catch (save_body ls key data) ls)
  end.

Definition save (key : string) (data : value) (w : world) : world :=
  World (now w) (saveToCache (host w) key data).

Definition load (key : string) (w : world) : outcome value :=
  loadFromCache (host w) key.

End WithJSON.

(** The time-to-live of the claim about cached predictions: fifteen
    minutes.  cache.ts has no such constant. *)
Definition claimed_ttl_ms : Z := 15 * 60 * 1000.

(** [CACHE_KEYS.prediction(symbol)] *)
Definition prediction_key (symbol : string) : string :=
  ("fin_pred_" ++ symbol ++ "_v2")%string.

End Cache.

(** A small instance of the [JSON] functions, for documents that are
    [null] or an integer. *)
Module IntegerJSON.
Import Cache.

Inductive value : Type :=
  | Null
  | Number (z : Z).

Definition stringify (v : value) : outcome string :=
  match v with
  | Null => Returns "null"%string
  | Number z => Returns (DecimalString.NilZero.string_of_int (Z.to_int z))
  end.

Definition parse (s : string) : outcome value :=
  if String.eqb s "null" then Returns Null
  else match DecimalString.NilZero.int_of_string s with
       | Some d => Returns (Number (Z.of_int d))
       | None => Throws
       end.

(** A browser page at time 0 with nothing stored. *)
Definition fresh_page : world :=
  World 0 (Browser (Granted ∅ 4096)).

End IntegerJSON.

(* ------------------------------------------------------------------ *)
(** *** Doubles, bit for bit, where the code truncates a product *)

Module Binary64.

(** The integer with at most 53 significant bits nearest to a
    non-negative integer [m], ties going to the even significand. *)
Definition round53 (m : Z) : Z :=
  let sh := Z.max 0 (Z.log2 m - 52) in
  let q := (m / 2 ^ sh)%Z in
  let r := (m mod 2 ^ sh)%Z in
  let up := (2 ^ sh <? 2 * r)%Z || ((2 * r =? 2 ^ sh)%Z && Z.odd q) in
  ((if up then q + 1 else q) * 2 ^ sh)%Z.

(** A non-negative double [sig / 2 ^ scale], away from the subnormal and
    overflow ranges. *)
Record double : Type := Double { sig : Z; scale : Z }.

(** [float(n)] for [n >= 0] *)
Definition of_int (n : Z) : double := Double (round53 n) 0.

Definition fmul (x y : double) : double :=
  Double (round53 (sig x * sig y)) (scale x + scale y).

Definition fadd (x y : double) : double :=
  let k := Z.max (scale x) (scale y) in
  Double (round53 (sig x * 2 ^ (k - scale x) + sig y * 2 ^ (k - scale y))) k.

(** [int(x)] for [x >= 0] *)
Definition trunc (x : double) : Z := (sig x / 2 ^ scale x)%Z.

(** The literals [0.7] and [0.15]: 0x1.6666666666666p-1 and
    0x1.3333333333333p-3. *)
Definition lit_0_7 : double := Double 3152519739159347 52.
Definition lit_0_15 : double := Double 5404319552844595 55.

End Binary64.

(* ------------------------------------------------------------------ *)
(** *** ml/src/sequence_generator.py (LSTM training guide, step 3) *)

Module Sequences.
Import Float.

(** A pandas table of numbers: named columns, rows in time order. *)
Record DataFrame : Type := DF { columns : list string; rows : list (list num) }.

(** [df.columns.get_loc(name)]; [None] is [KeyError]. *)
Fixpoint get_loc (cols : list string) (name : string) : option nat :=
  match cols with
  | [] => None
  | c :: cols' =>
      if String.eqb c name then Some 0 else S <$> get_loc cols' name
  end.

Definition cell (r : list num) (j : nat) : num := nth j r NaN.

(** [df[name]] as a list of cells, given the column's position. *)
Definition column (j : nat) (rs : list (list num)) : list num :=
  map (fun r => cell r j) rs.

(** [series.shift(-h)]: row [i] receives the value of row [i + h]; the
    last [h] rows receive NaN. *)
Definition shift_back (h : nat) (xs : list num) : list num :=
  drop h xs ++ replicate (min h (length xs)) NaN.

(** [df[name] = series]: a new name appends a column, a known one is
    overwritten. *)
Definition assign (df : DataFrame) (name : string) (xs : list num)
  : DataFrame :=
  match get_loc (columns df) name with
  | Some j => DF (columns df) (zip_with (fun r x => <[j := x]> r) (rows df) xs)
  | None => DF (columns df ++ [name])
              (zip_with (fun r x => r ++ [x]) (rows df) xs)
  end.

Definition no_nan (r : list num) : bool := forallb (fun x => negb (is_nan x)) r.

(** [df.dropna()] *)
Definition dropna (df : DataFrame) : DataFrame :=
  DF (columns df) (List.filter no_nan (rows df)).

(** A table as the feature engine delivers it: every row as wide as the
    header, every cell a finite number. *)
Definition clean (df : DataFrame) : Prop :=
  Forall (fun r => length r = length (columns df) /\ Forall finite r)
         (rows df).

(** The first [N - h] rows, each with the cell of column [j] found [h]
    rows later appended. *)
Definition labelled_rows (h j : nat) (rs : list (list num))
  : list (list num) :=
  zip_with (fun r x => r ++ [x]) (take (length rs - h) rs)
           (drop h (column j rs)).

(** **** sklearn.preprocessing.MinMaxScaler(feature_range=(0, 1)) *)

(** The fitted state: per column, the smallest and the largest value seen
    by [fit]. *)
Record MinMaxScaler : Type :=
  Scaler { data_min_ : list num; data_max_ : list num }.

(** [np.nanmin] and [np.nanmax] on two values: NaN is skipped. *)
Definition nanmin (a b : num) : num :=
  match a, b with
  | NaN, _ => b
  | _, NaN => a
  | _, _ => if ltb b a then b else a
  end.

Definition nanmax (a b : num) : num :=
  match a, b with
  | NaN, _ => b
  | _, NaN => a
  | _, _ => if ltb a b then b else a
  end.

Definition col_min (X : list (list num)) (j : nat) : num :=
  fold_left nanmin (column j X) NaN.

Definition col_max (X : list (list num)) (j : nat) : num :=
  fold_left nanmax (column j X) NaN.

Definition has_inf (X : list (list num)) : bool :=
  existsb (existsb (fun x => match x with Inf _ => true | _ => false end)) X.

(** [scaler.fit(X)]; [None] is the [ValueError] of input validation (no
    rows, or an infinite cell). *)
Definition fit (X : list (list num)) : option MinMaxScaler :=
  match X with
  | [] => None
  | r0 :: _ =>
      if has_inf X then None
      else
        let js := seq 0 (length r0) in
        Some (Scaler (map (col_min X) js) (map (col_max X) js))
  end.

(** The scaler that [fit] leaves behind when it accepts [X]. *)
Definition fitted (X : list (list num)) : MinMaxScaler :=
  let js := seq 0 (length (hd [] X)) in
  Scaler (map (col_min X) js) (map (col_max X) js).

(** [_handle_zeros_in_scale]: a range below [10 * eps] counts as constant
    and is replaced by 1. *)
Definition ten_eps : Q := 10 # (2 ^ 52).

Definition handle_zeros (range : num) : num :=
  if ltb range (Fin ten_eps) then Fin 1 else range.

(** [scale_[j]] and [min_[j]] of a fitted scaler. *)
Definition scale_ (sc : MinMaxScaler) (j : nat) : num :=
  (Fin 1 / handle_zeros (cell (data_max_ sc) j - cell (data_min_ sc) j))%num.

Definition min_ (sc : MinMaxScaler) (j : nat) : num :=
  (Fin 0 - cell (data_min_ sc) j * scale_ sc j)%num.

Definition transform_cell (sc : MinMaxScaler) (j : nat) (x : num) : num :=
  (x * scale_ sc j + min_ sc j)%num.

Definition transform_row (sc : MinMaxScaler) (r : list num) : list num :=
  imap (transform_cell sc) r.

(** [scaler.transform(X)] *)
Definition transform (sc : MinMaxScaler) (X : list (list num))
  : list (list num) :=
  map (transform_row sc) X.

(** **** class SequenceGenerator *)

(** The object's fields.  [scaler] is the one MinMaxScaler created by
    [__init__]; [None] while it has not been fitted. *)
Record SequenceGenerator : Type :=
  Generator { sequence_length : nat; scaler : option MinMaxScaler }.

Definition init (sequence_length : nat) : SequenceGenerator :=
  Generator sequence_length None.

(** [scaled_data[i - L:i]] *)
Definition window (L i : nat) (scaled : list (list num)) : list (list num) :=
  take L (drop (i - L) scaled).

(** What [prepare_data] returns: the windows, the targets, and the object
    whose [scaler] field is the returned scaler. *)
Record prepared : Type :=
  Prepared { X_ : list (list (list num)); y_ : list num;
             self_ : SequenceGenerator }.

(** [prepare_data(self, df, target_column)]; [None] is an exception. *)
Definition prepare_data (self : SequenceGenerator) (df : DataFrame)
  (target_column : string) : option prepared :=
  sc ← fit (rows df);
  let scaled_data := transform sc (rows df) in
  let self' := Generator (sequence_length self) (Some sc) in
  let L := sequence_length self in
  let anchors := seq L (length scaled_data - L) in
  match anchors with
  | [] => Some (Prepared [] [] self')
  | _ =>
      target_idx ← get_loc (columns df) target_column;
      Some (Prepared
              (map (fun i => window L i scaled_data) anchors)
              (map (fun i => cell (nth i scaled_data []) target_idx) anchors)
              self')
  end.

(** One pass of the loop of [create_multi_horizon_targets].  The entry
    stored under the horizon holds [X] and [y]; its ['scaler'] is a
    reference to [self.scaler], the same object for every horizon. *)
Definition horizon_table (df : DataFrame) (horizon : nat)
  : option DataFrame :=
  j ← get_loc (columns df) "close";
  Some (dropna (assign df "target" (shift_back horizon (column j (rows df))))).

Definition horizon_step
  (df : DataFrame)
  (acc : option (gmap nat (list (list (list num)) * list num)
                 * SequenceGenerator))
  (horizon : nat)
  : option (gmap nat (list (list (list num)) * list num)
            * SequenceGenerator) :=
  '(results, self) ← acc;
  df_shifted ← horizon_table df horizon;
  p ← prepare_data self df_shifted "target";
  Some (<[horizon := (X_ p, y_ p)]> results, self_ p).

Definition create_multi_horizon_targets (self : SequenceGenerator)
  (df : DataFrame) (horizons : list nat)
  : option (gmap nat (list (list (list num)) * list num)
            * SequenceGenerator) :=
  fold_left (horizon_step df) horizons (Some (∅, self)).

(** [int(n_samples * train_ratio)] and
    [int(n_samples * (train_ratio + val_ratio))] *)
Definition train_end (n : nat) (train_ratio : Binary64.double) : nat :=
  Z.to_nat (Binary64.trunc
              (Binary64.fmul (Binary64.of_int (Z.of_nat n)) train_ratio)).

Definition val_end (n : nat) (train_ratio val_ratio : Binary64.double)
  : nat :=
  Z.to_nat (Binary64.trunc
              (Binary64.fmul (Binary64.of_int (Z.of_nat n))
                 (Binary64.fadd train_ratio val_ratio))).

(** [a[lo:hi]] *)
Definition slice {A} (lo hi : nat) (a : list A) : list A :=
  drop lo (take hi a).

Record split (A B : Type) : Type :=
  Split { X_train : list A; X_val : list A; X_test : list A;
          y_train : list B; y_val : list B; y_test : list B }.
Arguments Split {A B}.
Arguments X_train {A B}.
Arguments X_val {A B}.
Arguments X_test {A B}.
Arguments y_train {A B}.
Arguments y_val {A B}.
Arguments y_test {A B}.

(** [split_data(self, X, y, train_ratio, val_ratio)] *)
Definition split_data {A B} (X : list A) (y : list B)
  (train_ratio val_ratio : Binary64.double) : split A B :=
  let n_samples := length X in
  let te := train_end n_samples train_ratio in
  let ve := val_end n_samples train_ratio val_ratio in
  Split (take te X) (slice te ve X) (drop ve X)
        (take te y) (slice te ve y) (drop ve y).

(** The defaults, [train_ratio=0.7, val_ratio=0.15]. *)
Definition split_default {A B} (X : list A) (y : list B) : split A B :=
  split_data X y Binary64.lit_0_7 Binary64.lit_0_15.

End Sequences.

(* ------------------------------------------------------------------ *)
(** *** ml/src/feature_engineering.py (model development guide, step 2)

    The indicators come from TA-Lib 0.4 and pandas 2.1.  A TA-Lib
    function walks its input arrays from the oldest bar on and writes one
    output per bar once its lookback is filled; the Python wrapper puts
    NaN in front for the lookback.  Each function below follows the loop
    of the C source: a trailing window ([rolling]) or a seed followed by a
    recurrence ([seeded]).  TA-Lib works on the finite prices, so its
    arithmetic is on [Q]; pandas columns hold [num]. *)

Module Features.
Import Float.
Local Open Scope Q_scope.

(** One row of the OHLCV table. *)
Record Bar : Type :=
  mkBar { open : Q; high : Q; low : Q; close : Q; volume : Q }.

(** **** Walking an array *)

(** The windows of [p] consecutive elements, oldest first. *)
Definition windows {A} (p : nat) (xs : list A) : list (list A) :=
  map (fun i => take p (drop i xs)) (seq 0 (length xs + 1 - p)).

(** One output per window of [p] elements. *)
Definition rolling {A B} (p : nat) (g : list A -> B) (xs : list A) : list B :=
  map g (windows p xs).

(** The states of a recurrence, the seed first. *)
Fixpoint scan {A St} (step : St -> A -> St) (s : St) (xs : list A)
  : list St :=
  match xs with
  | [] => [s]
  | x :: xs' => s :: scan step (step s x) xs'
  end.

(** A seed computed from the first [lb + 1] elements, then one step per
    further element; one output per state. *)
Definition seeded {A St B} (lb : nat) (init : list A -> St)
  (step : St -> A -> St) (out : St -> B) (xs : list A) : list B :=
  if (length xs <=? lb)%nat then []
  else map out (scan step (init (take (S lb) xs)) (drop (S lb) xs)).

(** The Python wrapper: NaN for the lookback, then the outputs. *)
Definition talib (lb : nat) (outputs : list Q) (n : nat) : list num :=
  take n (replicate lb NaN ++ map Fin outputs).

(** [series.shift(k)] for [k >= 0] *)
Definition shift (k : nat) (xs : list num) : list num :=
  take (length xs) (replicate k NaN ++ xs).


(** The same for a function that starts writing after [lb] elements. *)
Definition lagged {A B} (lb : nat) (F : list A -> list B) : Prop :=
  (forall xs, length (F xs) = (length xs - lb)%nat) /\
  (forall xs m, F (take m xs) = take (m - lb) (F xs)).

(** **** Arithmetic helpers *)

Definition qsum (w : list Q) : Q := fold_left (fun a x => Qred (a + x)) w 0.

Definition of_len {A} (w : list A) : Q := inject_Z (Z.of_nat (length w)).

Definition mean (w : list Q) : Q := Qred (qsum w / of_len w).

Definition qmax (a b : Q) : Q := if Qle_bool a b then b else a.
Definition qmin (a b : Q) : Q := if Qle_bool a b then a else b.

Definition highest (w : list Q) : Q := fold_left qmax w (hd 0 w).
Definition lowest (w : list Q) : Q := fold_left qmin w (hd 0 w).

(** [TA_IS_ZERO] and [TA_IS_ZERO_OR_NEG] *)
Definition ta_eps : Q := 1 # 100000000.
Definition ta_is_zero (v : Q) : bool :=
  negb (Qle_bool v (- ta_eps)) && negb (Qle_bool ta_eps v).
Definition ta_is_zero_or_neg (v : Q) : bool := negb (Qle_bool ta_eps v).

Definition last_or {A} (d : A) (w : list A) : A := List.last w d.

(** **** TA-Lib functions *)

(** [SMA]: lookback [p - 1]. *)
Definition SMA (p : nat) (xs : list Q) : list Q := rolling p mean xs.

(** [TA_INT_EMA(startIdx, ...)]: the seed is the plain average of the [p]
    elements ending at [max startIdx (p - 1)]. *)
Definition ema_step (k prev x : Q) : Q := Qred ((x - prev) * k + prev).

Definition TA_INT_EMA (start p : nat) (k : Q) (xs : list Q) : list Q :=
  let s := Nat.max start (p - 1) in
  seeded s (fun w => mean (drop (S s - p) w)) (ema_step k) id xs.

Definition per_to_k (p : nat) : Q := 2 / inject_Z (Z.of_nat p + 1).

Definition EMA (p : nat) (xs : list Q) : list Q :=
  TA_INT_EMA 0 p (per_to_k p) xs.

(** [RSI]: lookback [p]. *)
Definition rsi_update (p : nat) (st : Q * Q * Q) (x : Q) (wilder : bool)
  : Q * Q * Q :=
  let '(prev, gain, loss) := st in
  let d := x - prev in
  let n1 := inject_Z (Z.of_nat (p - 1)) in
  let gain := if wilder then gain * n1 else gain in
  let loss := if wilder then loss * n1 else loss in
  let gain := if Qle_bool 0 d then gain + d else gain in
  let loss := if Qle_bool 0 d then loss else loss - d in
  if wilder
  then (x, Qred (gain / inject_Z (Z.of_nat p)),
        Qred (loss / inject_Z (Z.of_nat p)))
  else (x, Qred gain, Qred loss).

Definition rsi_init (p : nat) (w : list Q) : Q * Q * Q :=
  let '(prev, gain, loss) :=
    fold_left (fun st x => rsi_update p st x false) (tl w) (hd 0 w, 0, 0) in
  (prev, Qred (gain / inject_Z (Z.of_nat p)),
   Qred (loss / inject_Z (Z.of_nat p))).

Definition rsi_out (st : Q * Q * Q) : Q :=
  let '(_, gain, loss) := st in
  if ta_is_zero (gain + loss) then 0
  else Qred (100 * (gain / (gain + loss))).

Definition RSI (p : nat) (xs : list Q) : list Q :=
  seeded p (rsi_init p) (fun st x => rsi_update p st x true) rsi_out xs.

(** [MACD(fast, slow, signal)]: both averages start at the lookback of the
    slow one; lookback [(slow - 1) + (signal - 1)].  The three outputs. *)
Definition macd_line (fast slow : nat) (xs : list Q) : list Q :=
  zip_with (fun f s => Qred (f - s))
           (TA_INT_EMA (slow - 1) fast (per_to_k fast) xs)
           (TA_INT_EMA (slow - 1) slow (per_to_k slow) xs).

Definition MACD_signal (fast slow signal : nat) (xs : list Q) : list Q :=
  EMA signal (macd_line fast slow xs).

Definition MACD_macd (fast slow signal : nat) (xs : list Q) : list Q :=
  drop (signal - 1) (macd_line fast slow xs).

Definition MACD_hist (fast slow signal : nat) (xs : list Q) : list Q :=
  zip_with (fun m s => Qred (m - s))
           (MACD_macd fast slow signal xs) (MACD_signal fast slow signal xs).

(** [STOCH(fastk, slowk, slowd)] with simple averages. *)
Definition fastk_of (w : list Bar) : Q :=
  let hh := highest (map high w) in
  let ll := lowest (map low w) in
  let diff := (hh - ll) / 100 in
  if Qeq_bool diff 0 then 0
  else Qred ((close (last_or (mkBar 0 0 0 0 0) w) - ll) / diff).

Definition STOCH_slowk_full (fk sk : nat) (bars : list Bar) : list Q :=
  SMA sk (rolling fk fastk_of bars).

Definition STOCH_slowd (fk sk sd : nat) (bars : list Bar) : list Q :=
  SMA sd (STOCH_slowk_full fk sk bars).

Definition STOCH_slowk (fk sk sd : nat) (bars : list Bar) : list Q :=
  drop (sd - 1) (STOCH_slowk_full fk sk bars).

(** [ROC]: lookback [p]. *)
Definition roc_of (w : list Q) : Q :=
  let prev := hd 0 w in
  if Qeq_bool prev 0 then 0
  else Qred ((last_or 0 w / prev - 1) * 100).

Definition ROC (p : nat) (xs : list Q) : list Q := rolling (S p) roc_of xs.

(** [CCI]: lookback [p - 1]. *)
Definition typical (b : Bar) : Q := (high b + low b + close b) / 3.

Definition cci_of (w : list Bar) : Q :=
  let tps := map typical w in
  let avg := qsum tps / of_len w in
  let dev := qsum (map (fun tp => Qabs (tp - avg)) tps) in
  let num := last_or 0 tps - avg in
  if Qeq_bool num 0 || Qeq_bool dev 0 then 0
  else Qred (num / ((15 # 1000) * (dev / of_len w))).

Definition CCI (p : nat) (bars : list Bar) : list Q := rolling p cci_of bars.

(** [ATR]: lookback [p]. *)
Definition true_range (prev_close : Q) (b : Bar) : Q :=
  qmax (high b - low b)
       (qmax (Qabs (prev_close - high b)) (Qabs (prev_close - low b))).

Definition true_ranges (w : list Bar) : list Q :=
  zip_with (fun prev b => true_range (close prev) b) w (tl w).

Definition atr_init (w : list Bar) : Q * Q :=
  (mean (true_ranges w), close (last_or (mkBar 0 0 0 0 0) w)).

Definition atr_step (p : nat) (st : Q * Q) (b : Bar) : Q * Q :=
  let '(atr, prev_close) := st in
  (Qred ((atr * inject_Z (Z.of_nat (p - 1)) + true_range prev_close b)
         / inject_Z (Z.of_nat p)),
   close b).

Definition ATR (p : nat) (bars : list Bar) : list Q :=
  seeded p atr_init (atr_step p) fst bars.

(** [OBV] and [AD]: no lookback. *)
Definition obv_init (w : list Bar) : Q * Q :=
  let b := hd (mkBar 0 0 0 0 0) w in (volume b, close b).

Definition obv_step (st : Q * Q) (b : Bar) : Q * Q :=
  let '(obv, prev) := st in
  if Qle_bool (close b) prev
  then (if Qle_bool prev (close b) then (obv, close b)
        else (Qred (obv - volume b), close b))
  else (Qred (obv + volume b), close b).

Definition OBV (bars : list Bar) : list Q :=
  seeded 0 obv_init obv_step fst bars.

Definition ad_step (ad : Q) (b : Bar) : Q :=
  let range := high b - low b in
  if Qle_bool range 0 then ad
  else Qred (ad + ((close b - low b) - (high b - close b)) / range * volume b).

Definition AD (bars : list Bar) : list Q :=
  seeded 0 (fun w => ad_step 0 (hd (mkBar 0 0 0 0 0) w)) ad_step id bars.

Section WithSqrt.

(** The square root of the C library. *)
Variable sqrt : Q -> Q.

(** [BBANDS(p, 2, 2)]: the deviation is [STDDEV], zero when the variance
    is below [TA_IS_ZERO_OR_NEG]'s threshold. *)
Definition variance (w : list Q) : Q :=
  qsum (map (fun x => x * x) w) / of_len w - mean w * mean w.

Definition stddev (w : list Q) : Q :=
  if ta_is_zero_or_neg (variance w) then 0 else sqrt (variance w).

Definition BB_upper (p : nat) (xs : list Q) : list Q :=
  rolling p (fun w => Qred (mean w + 2 * stddev w)) xs.

Definition BB_middle (p : nat) (xs : list Q) : list Q := SMA p xs.

Definition BB_lower (p : nat) (xs : list Q) : list Q :=
  rolling p (fun w => Qred (mean w - 2 * stddev w)) xs.

(** **** pandas *)

(** [rolling(p).std()]: the sample deviation of a window of [p] numbers. *)
Definition finite_values (w : list num) : option (list Q) :=
  mapM (fun x => match x with Fin q => Some q | _ => None end) w.

Definition sample_std (w : list num) : num :=
  match finite_values w with
  | Some qs =>
      let m := mean qs in
      Fin (sqrt (qsum (map (fun x => (x - m) * (x - m)) qs)
                 / (of_len qs - 1)))
  | None => NaN
  end.

Definition rolling_std (p : nat) (xs : list num) : list num :=
  take (length xs) (replicate (p - 1) NaN ++ rolling p sample_std xs).

End WithSqrt.

(** [series.pct_change(periods=k)] *)
Definition pct_change (k : nat) (xs : list num) : list num :=
  zip_with (fun x prev => (x / prev - Fin 1)%num) xs (shift k xs).

Definition series (f : Bar -> Q) (bars : list Bar) : list num :=
  map (fun b => Fin (f b)) bars.

(** **** The Python side of TA-Lib: arrays in, arrays of the same length
    out, NaN during the lookback *)

Definition talib_SMA (p : nat) (xs : list Q) : list num :=
  talib (p - 1) (SMA p xs) (length xs).

Definition talib_EMA (p : nat) (xs : list Q) : list num :=
  talib (p - 1) (EMA p xs) (length xs).

Definition talib_RSI (p : nat) (xs : list Q) : list num :=
  talib p (RSI p xs) (length xs).

Definition macd_lookback (slow signal : nat) : nat :=
  (slow - 1) + (signal - 1).

Definition talib_MACD (fast slow signal : nat) (xs : list Q)
  : list num * list num * list num :=
  let lb := macd_lookback slow signal in
  (talib lb (MACD_macd fast slow signal xs) (length xs),
   talib lb (MACD_signal fast slow signal xs) (length xs),
   talib lb (MACD_hist fast slow signal xs) (length xs)).

Definition stoch_lookback (fk sk sd : nat) : nat :=
  (fk - 1) + (sk - 1) + (sd - 1).

Definition talib_STOCH (fk sk sd : nat) (bars : list Bar)
  : list num * list num :=
  let lb := stoch_lookback fk sk sd in
  (talib lb (STOCH_slowk fk sk sd bars) (length bars),
   talib lb (STOCH_slowd fk sk sd bars) (length bars)).

Definition talib_ROC (p : nat) (xs : list Q) : list num :=
  talib p (ROC p xs) (length xs).

Definition talib_CCI (p : nat) (bars : list Bar) : list num :=
  talib (p - 1) (CCI p bars) (length bars).

Definition talib_ATR (p : nat) (bars : list Bar) : list num :=
  talib p (ATR p bars) (length bars).

Definition talib_OBV (bars : list Bar) : list num :=
  talib 0 (OBV bars) (length bars).

Definition talib_AD (bars : list Bar) : list num :=
  talib 0 (AD bars) (length bars).

(** **** class FeatureEngineer *)

Section Engineer.

Variable sqrt : Q -> Q.

Definition talib_BBANDS (p : nat) (xs : list Q)
  : list num * list num * list num :=
  (talib (p - 1) (BB_upper sqrt p xs) (length xs),
   talib (p - 1) (BB_middle p xs) (length xs),
   talib (p - 1) (BB_lower sqrt p xs) (length xs)).

(** [self.df] is the OHLCV table, [self.features] the growing table of
    named columns. *)
Record FeatureEngineer : Type :=
  Engineer { df : list Bar; features : list (string * list num) }.

Definition init (bars : list Bar) : FeatureEngineer :=
  Engineer bars
    [("open"%string, series open bars); ("high"%string, series high bars);
     ("low"%string, series low bars); ("close"%string, series close bars);
     ("volume"%string, series volume bars)].

(** [table[name] = column] *)
Fixpoint set_column (name : string) (c : list num)
  (table : list (string * list num)) : list (string * list num) :=
  match table with
  | [] => [(name, c)]
  | (n, c0) :: rest =>
      if String.eqb n name then (n, c) :: rest
      else (n, c0) :: set_column name c rest
  end.

Definition assign (name : string) (c : list num) (self : FeatureEngineer)
  : FeatureEngineer :=
  Engineer (df self) (set_column name c (features self)).

(** Cell by cell arithmetic on two columns. *)
Definition ratio (xs ys : list num) : list num :=
  zip_with (fun x y => (x / y)%num) xs ys.

Definition minus (xs ys : list num) : list num :=
  zip_with (fun x y => (x - y)%num) xs ys.

Definition add_price_features (self : FeatureEngineer) : FeatureEngineer :=
  let c := series close (df self) in
  let self := assign "price_change" (pct_change 1 c) self in
  let self := assign "price_change_1d" (pct_change 1 c) self in
  let self := assign "price_change_7d" (pct_change 7 c) self in
  let self := assign "price_change_30d" (pct_change 30 c) self in
  let self :=
    assign "hl_spread"
      (ratio (minus (series high (df self)) (series low (df self))) c) self in
  assign "oc_spread"
    (ratio (minus c (series open (df self))) (series open (df self))) self.

Definition add_moving_averages (self : FeatureEngineer) : FeatureEngineer :=
  let c := series close (df self) in
  let cq := map close (df self) in
  let sma_20 := talib_SMA 20 cq in
  let sma_50 := talib_SMA 50 cq in
  let self := assign "sma_5" (talib_SMA 5 cq) self in
  let self := assign "sma_10" (talib_SMA 10 cq) self in
  let self := assign "sma_20" sma_20 self in
  let self := assign "sma_50" sma_50 self in
  let self := assign "sma_200" (talib_SMA 200 cq) self in
  let self := assign "ema_12" (talib_EMA 12 cq) self in
  let self := assign "ema_26" (talib_EMA 26 cq) self in
  let self := assign "ema_50" (talib_EMA 50 cq) self in
  let self := assign "dist_sma_20" (ratio (minus c sma_20) sma_20) self in
  assign "dist_sma_50" (ratio (minus c sma_50) sma_50) self.

Definition add_momentum_indicators (self : FeatureEngineer)
  : FeatureEngineer :=
  let cq := map close (df self) in
  let self := assign "rsi_14" (talib_RSI 14 cq) self in
  let '(macd, macd_signal, macd_hist) := talib_MACD 12 26 9 cq in
  let self := assign "macd" macd self in
  let self := assign "macd_signal" macd_signal self in
  let self := assign "macd_hist" macd_hist self in
  let '(slowk, slowd) := talib_STOCH 14 3 3 (df self) in
  let self := assign "stoch_k" slowk self in
  let self := assign "stoch_d" slowd self in
  let self := assign "roc_10" (talib_ROC 10 cq) self in
  assign "cci_14" (talib_CCI 14 (df self)) self.

Definition add_volatility_indicators (self : FeatureEngineer)
  : FeatureEngineer :=
  let c := series close (df self) in
  let cq := map close (df self) in
  let '(upper, middle, lower) := talib_BBANDS 20 cq in
  let self := assign "bb_upper" upper self in
  let self := assign "bb_middle" middle self in
  let self := assign "bb_lower" lower self in
  let self := assign "bb_width" (ratio (minus upper lower) middle) self in
  let self :=
    assign "bb_position" (ratio (minus c lower) (minus upper lower)) self in
  let self := assign "atr_14" (talib_ATR 14 (df self)) self in
  assign "volatility_20" (rolling_std sqrt 20 (pct_change 1 c)) self.

Definition add_volume_indicators (self : FeatureEngineer)
  : FeatureEngineer :=
  let v := series volume (df self) in
  let volume_sma_20 := talib_SMA 20 (map volume (df self)) in
  let self := assign "volume_sma_20" volume_sma_20 self in
  let self := assign "volume_ratio" (ratio v volume_sma_20) self in
  let self := assign "obv" (talib_OBV (df self)) self in
  assign "ad" (talib_AD (df self)) self.

(** A row of the feature table keeps its index, the position of its bar
    in the input. *)
Definition row_at (table : list (string * list num)) (i : nat) : list num :=
  map (fun nc => nth i (snd nc) NaN) table.

Definition no_nan (r : list num) : bool :=
  forallb (fun x => negb (is_nan x)) r.

(** [self.features.dropna(inplace=True)] *)
Definition dropna (n : nat) (table : list (string * list num))
  : list (nat * list num) :=
  List.filter (fun ir => no_nan (snd ir))
              (map (fun i => (i, row_at table i)) (seq 0 n)).

Definition all_columns (bars : list Bar) : list (string * list num) :=
  features
    (add_volume_indicators
       (add_volatility_indicators
          (add_momentum_indicators
             (add_moving_averages
                (add_price_features (init bars)))))).

(** [add_all_features]: the rows of the result, each with its index. *)
Definition add_all_features (bars : list Bar) : list (nat * list num) :=
  dropna (length bars) (all_columns bars).

(** A bar with positive open, close and volume. *)
Definition positive_bar (b : Bar) : bool :=
  negb (Qle_bool (open b) 0) && negb (Qle_bool (close b) 0)
  && negb (Qle_bool (volume b) 0).

(** The twenty closes ending at bar [i] vary enough for [STDDEV] not to
    return zero. *)
Definition lively (bars : list Bar) (i : nat) : bool :=
  negb (ta_is_zero_or_neg
          (variance (take 20 (drop (i - 19) (map close bars))))).

(** The forty columns of [all_columns], each as a function of the
    OHLCV table, in the order in which the table holds them. *)
Definition closes (bars : list Bar) : list num := series close bars.

Definition bb (bars : list Bar) : list num * list num * list num :=
  talib_BBANDS 20 (map close bars).

Definition column_functions : list (string * (list Bar -> list num)) :=
  [("open", series open); ("high", series high); ("low", series low);
   ("close", series close); ("volume", series volume);
   ("price_change", fun bars => pct_change 1 (closes bars));
   ("price_change_1d", fun bars => pct_change 1 (closes bars));
   ("price_change_7d", fun bars => pct_change 7 (closes bars));
   ("price_change_30d", fun bars => pct_change 30 (closes bars));
   ("hl_spread",
    fun bars => ratio (minus (series high bars) (series low bars))
                      (closes bars));
   ("oc_spread",
    fun bars => ratio (minus (closes bars) (series open bars))
                      (series open bars));
   ("sma_5", fun bars => talib_SMA 5 (map close bars));
   ("sma_10", fun bars => talib_SMA 10 (map close bars));
   ("sma_20", fun bars => talib_SMA 20 (map close bars));
   ("sma_50", fun bars => talib_SMA 50 (map close bars));
   ("sma_200", fun bars => talib_SMA 200 (map close bars));
   ("ema_12", fun bars => talib_EMA 12 (map close bars));
   ("ema_26", fun bars => talib_EMA 26 (map close bars));
   ("ema_50", fun bars => talib_EMA 50 (map close bars));
   ("dist_sma_20",
    fun bars => ratio (minus (closes bars) (talib_SMA 20 (map close bars)))
                      (talib_SMA 20 (map close bars)));
   ("dist_sma_50",
    fun bars => ratio (minus (closes bars) (talib_SMA 50 (map close bars)))
                      (talib_SMA 50 (map close bars)));
   ("rsi_14", fun bars => talib_RSI 14 (map close bars));
   ("macd", fun bars => (talib_MACD 12 26 9 (map close bars)).1.1);
   ("macd_signal", fun bars => (talib_MACD 12 26 9 (map close bars)).1.2);
   ("macd_hist", fun bars => (talib_MACD 12 26 9 (map close bars)).2);
   ("stoch_k", fun bars => (talib_STOCH 14 3 3 bars).1);
   ("stoch_d", fun bars => (talib_STOCH 14 3 3 bars).2);
   ("roc_10", fun bars => talib_ROC 10 (map close bars));
   ("cci_14", fun bars => talib_CCI 14 bars);
   ("bb_upper", fun bars => (bb bars).1.1);
   ("bb_middle", fun bars => (bb bars).1.2);
   ("bb_lower", fun bars => (bb bars).2);
   ("bb_width",
    fun bars => ratio (minus (bb bars).1.1 (bb bars).2) (bb bars).1.2);
   ("bb_position",
    fun bars => ratio (minus (closes bars) (bb bars).2)
                      (minus (bb bars).1.1 (bb bars).2));
   ("atr_14", fun bars => talib_ATR 14 bars);
   ("volatility_20", fun bars => rolling_std sqrt 20 (pct_change 1 (closes bars)));
   ("volume_sma_20", fun bars => talib_SMA 20 (map volume bars));
   ("volume_ratio",
    fun bars => ratio (series volume bars) (talib_SMA 20 (map volume bars)));
   ("obv", talib_OBV); ("ad", talib_AD)]%string.

End Engineer.

End Features.

(** Small tables used as concrete inputs. *)
Module Samples.
Import Float Sequences.

(** A square root to compute with: the root of [x], rounded down to a
    multiple of [1 / (2 ^ 32 * den x)]. *)
Definition sqrt_down (x : Q) : Q :=
  if Qle_bool x 0 then 0
  else Qred (inject_Z (Z.sqrt (Qnum x * Zpos (Qden x) * 2 ^ 64))
             / inject_Z (Zpos (Qden x) * 2 ^ 32)).

(** A bar of a quiet day around [c], and a series of them: the close
    walks through a cycle of seven prices. *)
Definition quiet_bar (c : Q) : Features.Bar :=
  Features.mkBar c (c + 1) (c - 1) c 1000.

Definition wave (n : nat) : list Features.Bar :=
  map (fun i => quiet_bar (inject_Z (100 + Z.of_nat (i * i mod 7))))
      (seq 0 n).



Definition closes (qs : list Q) : DataFrame :=
  DF ["close"%string] (map (fun q => [Fin q]) qs).

(** Ten rising closes, and the same table with a jump in the last row. *)
Definition steady : DataFrame := closes [1; 2; 3; 4; 5; 6; 7; 8; 9; 10]%Q.
Definition jump_at_end : DataFrame :=
  closes [1; 2; 3; 4; 5; 6; 7; 8; 9; 100]%Q.

(** Seven closes, and the same table with another close in row 3. *)
Definition week : DataFrame := closes [10; 20; 12; 14; 13; 11; 15]%Q.
Definition week_changed : DataFrame :=
  closes [10; 20; 12; 13; 13; 11; 15]%Q.

End Samples.

(* ------------------------------------------------------------------ *)
(** *** frontend/src/utils/indicators.ts: the averages and the volatility *)

Module Averages.
Import Float Indicators.

(** [calculateSMA(data, period)]: the mean of the [period] newest prices;
    [None] is [null]. *)
Definition calculateSMA (data : list num) (period : nat) : option num :=
  if length data <? period then None
  else
    let slice := take period data in
    let sum := fold_left add slice (Fin 0) in
    Some (sum / of_nat period)%num.

(** What [calculateEMA] hands back: [null], a number, or [undefined] when
    it reads [reversed[0]] of an empty array. *)
Inductive answer : Type :=
  | Null
  | Undefined
  | Number (x : num).

(** One pass of the loop, [ema = (reversed[i] * k) + (ema * (1 - k))]. *)
Definition ema_next (k ema x : num) : num :=
  (x * k + ema * (Fin 1 - k))%num.

(** [calculateEMA(data, period)]: the loop runs from [reversed[1]] to the
    last element, that is over the tail of [reversed]. *)
Definition calculateEMA (data : list num) (period : nat) : answer :=
  if length data <? period then Null
  else
    let k := (Fin 2 / (of_nat period + Fin 1))%num in
    match reverse data with
    | [] => Undefined
    | first :: rest => Number (fold_left (ema_next k) rest first)
    end.

Section WithMath.

(** [Math.log] and [Math.sqrt]. *)
Variable Math_log : num -> num.
Variable Math_sqrt : num -> num.

(** The log returns pushed by the loop of [calculateVolatility]. *)
Definition log_returns (prices : list num) (period : nat) : list num :=
  map (fun i => Math_log (at_ prices i / at_ prices (i + 1))%num)
      (seq 0 (Nat.min (length prices - 1) period)).

(** [calculateVolatility(prices, period)] *)
Definition calculateVolatility (prices : list num) (period : nat) : num :=
  if length prices <? period + 1 then Fin 0
  else
    let returns := log_returns prices period in
    let mean :=
      (fold_left add returns (Fin 0) / of_nat (length returns))%num in
    let variance :=
      (fold_left (fun a b => a + (b - mean) * (b - mean)) returns (Fin 0)
       / of_nat (length returns))%num in
    (Math_sqrt variance * Math_sqrt (Fin 252))%num.

End WithMath.

(** Every element is a finite number between [lo] and [hi]. *)
Definition within (lo hi : Q) (xs : list num) : Prop :=
  Forall (fun x => exists q, x = Fin q /\ (lo <= q <= hi)%Q) xs.

(** Finite and above zero. *)
Definition positive (x : num) : Prop :=
  match x with Fin q => (0 < q)%Q | _ => False end.

(** Newest first, every price is below the one before it in time. *)
Definition falling (prices : list num) : Prop :=
  forall i, i + 1 < length prices ->
    exists a b,
      at_ prices i = Fin a /\ at_ prices (i + 1) = Fin b /\ (a < b)%Q.

(** The state of the two averages of [calculateRSI] on such prices. *)
Definition no_gain_some_loss (acc : num * num) : Prop :=
  exists g l, acc = (Fin g, Fin l) /\ (g == 0)%Q /\ (0 < l)%Q.

End Averages.

(** Stand-ins for [Math.log] and [Math.sqrt] to compute with. *)
Module MathSamples.
Import Float.

(** The first term of the series of [2 * artanh ((x - 1) / (x + 1))]. *)
Definition log_first_term (x : num) : num :=
  (Fin 2 * ((x - Fin 1) / (x + Fin 1)))%num.

(** [Samples.sqrt_down] on numbers. *)
Definition sqrt_num (x : num) : num :=
  match x with
  | Fin q => if Qneg q then NaN else Fin (Samples.sqrt_down q)
  | Inf false => Inf false
  | _ => NaN
  end.

End MathSamples.

(* ------------------------------------------------------------------ *)
(** *** frontend/src/utils/cache.ts: the other keys *)

Module CacheKeys.

(** The entries of [CACHE_KEYS] next to [prediction], which is
    [Cache.prediction_key]. *)
Definition DASHBOARD_LIST : string := "fin_dashboard_list_v2".

Definition history (symbol : string) : string :=
  ("fin_hist_" ++ symbol ++ "_v2")%string.

Definition watchlist : string := "fin_watchlist_v2".

End CacheKeys.

(* ------------------------------------------------------------------ *)
(** *** Ranges of the feature columns *)

Module FeatureBounds.
Import Features.
Local Open Scope Q_scope.

(** Between 0 and 100. *)
Definition percent (q : Q) : Prop := 0 <= q <= 100.

(** The two running averages of [RSI] are not negative. *)
Definition rsi_state_ok (st : Q * Q * Q) : Prop :=
  0 <= st.1.2 /\ 0 <= st.2.

End FeatureBounds.

(* ------------------------------------------------------------------ *)
(** *** ml/src/data_preparation.py (model development guide, step 1):
    class DataCleaner

    [validate_ohlc], [check_missing_dates] and [remove_outliers] work on
    the table as the loader delivers it, indexed by timestamp.  The pandas
    calls are modelled by what they do to such a table: [reindex] looks
    every label up by equality, [date_range] steps by whole days from its
    start, and [fillna(method='ffill')] fills NaN cells column by column;
    [scipy.stats.zscore] is the distance to the mean in units of the
    population deviation. *)

Module Cleaning.
Import Float.

(** One row of the OHLCV table as the database delivers it; a missing
    cell is NaN. *)
Record Row : Type :=
  mkRow { open : num; high : num; low : num; close : num; volume : num }.

(** The table: the rows under their timestamps (the index), in
    nanoseconds. *)
Definition Table : Type := list (Z * Row).

Definition index (df : Table) : list Z := map fst df.

(** **** validate_ohlc *)

(** [(low > open) | (low > close) | (high < open) | (high < close)] *)
Definition invalid (r : Row) : bool :=
  ltb (open r) (low r) || ltb (close r) (low r)
  || ltb (high r) (open r) || ltb (high r) (close r).

Definition validate_ohlc (df : Table) : Table :=
  let invalid_rows := map (fun tr => invalid tr.2) df in
  let invalid_count := length (List.filter id invalid_rows) in
  if 0 <? invalid_count
  then List.filter (fun tr => negb (invalid tr.2)) df
  else df.

Local Open Scope Z_scope.

(** **** check_missing_dates *)

(** One day ([freq='D']), in nanoseconds. *)
Definition day : Z := 86400000000000.

(** [pd.date_range(start, end, freq='D')]: [start], [start + 1 day], ...
    as long as [end] is not passed. *)
Definition date_range (start stop : Z) : list Z :=
  if stop <? start then []
  else map (fun k => start + Z.of_nat k * day)
           (seq 0 (S (Z.to_nat ((stop - start) / day)))).

(** [df.index.min()] and [df.index.max()]; [None] is [NaT], the answer on
    an empty index. *)
Definition index_min (df : Table) : option Z :=
  match index df with
  | [] => None
  | t :: ts => Some (fold_left Z.min ts t)
  end.

Definition index_max (df : Table) : option Z :=
  match index df with
  | [] => None
  | t :: ts => Some (fold_left Z.max ts t)
  end.

Definition nan_row : Row := mkRow NaN NaN NaN NaN NaN.

(** The row under label [t], if there is one. *)
Definition loc (df : Table) (t : Z) : option Row :=
  snd <$> List.find (fun tr => tr.1 =? t) df.

(** [df.reindex(labels)]: the row of each label, a row of NaN for a label
    the table does not have; [None] is the [ValueError] raised when the
    index of [df] holds a label twice. *)
Definition reindex (df : Table) (labels : list Z) : option Table :=
  if bool_decide (NoDup (index df))
  then Some (map (fun t => (t, default nan_row (loc df t))) labels)
  else None.

(** [fillna(method='ffill')]: a NaN cell takes the last value above it in
    its column; the cells above the first value stay NaN. *)
Definition fill (prev x : num) : num := if is_nan x then prev else x.

Definition fill_row (prev r : Row) : Row :=
  mkRow (fill (open prev) (open r)) (fill (high prev) (high r))
        (fill (low prev) (low r)) (fill (close prev) (close r))
        (fill (volume prev) (volume r)).

Fixpoint ffill_from (prev : Row) (df : Table) : Table :=
  match df with
  | [] => []
  | (t, r) :: rest =>
      let r' := fill_row prev r in (t, r') :: ffill_from r' rest
  end.

Definition ffill (df : Table) : Table := ffill_from nan_row df.

(** [check_missing_dates(df)]; [None] is an exception. *)
Definition check_missing_dates (df : Table) : option Table :=
  start ← index_min df;
  stop ← index_max df;
  df' ← reindex df (date_range start stop);
  Some (ffill df').

(** No cell of the row is missing. *)
Definition whole (r : Row) : bool :=
  negb (is_nan (open r)) && negb (is_nan (high r)) && negb (is_nan (low r))
  && negb (is_nan (close r)) && negb (is_nan (volume r)).

(** [t] is a whole number of days after [start]. *)
Definition on_grid (start t : Z) : Prop := (t - start) mod day = 0.

End Cleaning.

(** **** remove_outliers *)

Module Outliers.
Import Float Features Cleaning.

(** The columns of the table and [df[col]] on one row. *)
Inductive Column : Type := Open | High | Low | Close | Volume.

Definition column (col : Column) (r : Row) : num :=
  match col with
  | Open => open r
  | High => high r
  | Low => low r
  | Close => close r
  | Volume => volume r
  end.

(** [np.var]: the mean of the squared distances to the mean. *)
Definition pop_variance (qs : list Q) : Q :=
  mean (map (fun x => (x - mean qs) * (x - mean qs))%Q qs).

Section WithSqrt.

(** The square root of [np.std]. *)
Variable sqrt : Q -> Q.

(** [scipy.stats.zscore(a)]: the distance to the mean in units of the
    deviation [np.std(a)], with [ddof = 0]; a cell that is not finite
    makes the mean, and with it every score, NaN. *)
Definition zscore (a : list num) : list num :=
  match finite_values a with
  | Some qs =>
      let mn := mean qs in
      let sd := sqrt (pop_variance qs) in
      map (fun x => (Fin (x - mn) / Fin sd)%num) qs
  | None => map (fun _ => NaN) a
  end.

(** [np.abs(stats.zscore(df[col])) > threshold] *)
Definition outliers (threshold : num) (a : list num) : list bool :=
  map (fun z => ltb threshold (abs z)) (zscore a).

(** [remove_outliers(df, [col], threshold)], the call with one column, as
    by default with [close]: the flags are taken on [df] and the rows are
    taken out of its copy, row by row. *)
Definition remove_outliers (df : Table) (col : Column) (threshold : num)
  : Table :=
  let outliers := outliers threshold (map (fun tr => column col tr.2) df) in
  let outlier_count := length (List.filter id outliers) in
  if 0 <? outlier_count
  then map fst (List.filter (fun ro => negb ro.2) (zip df outliers))
  else df.

End WithSqrt.

(** [s] is a root of [v] to within five percent from below. *)
Definition root_within (v s : Q) : Prop :=
  (0 <= s /\ (9 # 10) * v <= s * s)%Q.

End Outliers.

Module CleaningSamples.
Import Float Cleaning.
Local Open Scope Z_scope.

(** A Monday and the Wednesday after it; Tuesday is missing. *)
Definition monday : Row := mkRow (Fin 10) (Fin 12) (Fin 9) (Fin 11) (Fin 500).
Definition wednesday : Row :=
  mkRow (Fin 11) (Fin 15) (Fin 11) (Fin 14) (Fin 700).
Definition two_days : Table := [(0, monday); (2 * day, wednesday)].
End CleaningSamples.

Module OutlierSamples.
Import Float Cleaning CleaningSamples.
Local Open Scope Z_scope.

(** Eleven equal days and a twelfth on which the close jumps. *)
Definition jump : Row :=
  mkRow (Fin 11) (Fin 1000) (Fin 11) (Fin 1000) (Fin 700).
Definition eleven_days : Table :=
  map (fun k => (Z.of_nat k * day, monday)) (seq 0 11).
Definition spike : Table := eleven_days ++ [(11 * day, jump)].

End OutlierSamples.

(* ------------------------------------------------------------------ *)
(** *** The trading signal card (TradingSignalCard), which calls
    [calculateRSI] and [calculateVolatility] *)

Module Signals.
Import Float Indicators Averages.

Inductive Horizon : Type := Day | Swing | Long.
Inductive Bias : Type := Bullish | Bearish | Neutral.
Inductive Conviction : Type := High | Medium | Low.

(** One entry of [prediction.predictions]; [None] is a field left
    [undefined]. *)
Record Pred : Type :=
  mkPred { price : num; change_percent : option num;
           confidence : option num }.

(** [prediction]: the current price and the entries under '1d', '7d' and
    '30d'. *)
Record Prediction : Type :=
  mkPrediction { current_price : num; predictions : gmap string Pred }.

(** What [activeSignal] holds; the text of [reasoning] is left out. *)
Record Signal : Type :=
  mkSignal { bias : Bias; conviction : Conviction; stopLoss : num;
             takeProfit : num; targetPrice : num; expectedReturn : num;
             riskRewardRatio : num }.

(** [x > y] *)
Definition gtb (x y : num) : bool := ltb y x.

(** A number is falsy when it is 0 or NaN. *)
Definition truthy (x : num) : bool := negb (eqb x (Fin 0) || is_nan x).

(** [x || y] for a number [x] that may be [undefined] or [null]. *)
Definition or_else (x : option num) (y : num) : num :=
  match x with
  | Some v => if truthy v then v else y
  | None => y
  end.

(** [Math.max] of two numbers: NaN as soon as one of them is. *)
Definition Math_max (a b : num) : num :=
  if is_nan a || is_nan b then NaN else if ltb a b then b else a.

Definition horizonMap (horizon : Horizon) : string :=
  match horizon with Day => "1d" | Swing => "7d" | Long => "30d" end.

(** [change > a && rawConfidence > 0.7 ? 'High' : 'Medium'] *)
Definition strength (strong : bool) : Conviction :=
  if strong then High else Medium.

(** [recentTrend]; [prices] is oldest first. *)
Definition recentTrend (prices : list num) : num :=
  if length prices <? 5 then Fin 0
  else
    let latestPrice := at_ prices (length prices - 1) in
    let fiveDaysAgo := at_ prices (length prices - 5) in
    ((latestPrice - fiveDaysAgo) / fiveDaysAgo * Fin 100)%num.

(** [rsi]: [calculateRSI] wants the newest price first. *)
Definition rsi (prices : list num) : option num :=
  calculateRSI (reverse prices) 14.

Section WithMath.

Variable Math_log : num -> num.
Variable Math_sqrt : num -> num.

Definition volatility (prices : list num) : num :=
  calculateVolatility Math_log Math_sqrt (reverse prices) 20.

(** The body of the [useMemo] behind [activeSignal]. *)
Definition activeSignal (horizon : Horizon) (pred : option Pred)
  (currentPrice : num) (rsi : option num) (volatility recentTrend : num)
  : Signal :=
  let dailyVol := (volatility / Math_sqrt (Fin 252))%num in
  let volMult := Math_max dailyVol (Fin (1 # 100)) in
  match pred with
  | None =>
      mkSignal Neutral Low currentPrice currentPrice currentPrice
               (Fin 0) (Fin 0)
  | Some pred =>
      let targetPrice := price pred in
      let change :=
        or_else (change_percent pred)
          ((targetPrice - currentPrice) / currentPrice * Fin 100)%num in
      let rawConfidence := or_else (confidence pred) (Fin (1 # 2)) in
      let '(bias, conviction, stopLoss, takeProfit) :=
        match horizon with
        | Day =>
            let trendAligned :=
              (gtb change (Fin 0) && gtb recentTrend (Fin (-1)))
              || (ltb change (Fin 0) && ltb recentTrend (Fin 1)) in
            let '(bias, conviction) :=
              if gtb change (Fin 1) && trendAligned
                 && ltb (or_else rsi (Fin 50)) (Fin 70)
              then (Bullish,
                    strength (gtb change (Fin 2)
                              && gtb rawConfidence (Fin (7 # 10))))
              else if ltb change (Fin (-1)) && trendAligned
                      && gtb (or_else rsi (Fin 50)) (Fin 30)
              then (Bearish,
                    strength (ltb change (Fin (-2))
                              && gtb rawConfidence (Fin (7 # 10))))
              else (Neutral, Low) in
            match bias with
            | Bullish =>
                (bias, conviction,
                 currentPrice * (Fin 1 - volMult * Fin (3 # 2)),
                 targetPrice)%num
            | Bearish =>
                (bias, conviction,
                 currentPrice * (Fin 1 + volMult * Fin (3 # 2)),
                 targetPrice)%num
            | Neutral =>
                (bias, conviction,
                 currentPrice * (Fin 1 - volMult),
                 currentPrice * (Fin 1 + volMult))%num
            end
        | Swing =>
            let trendWeight :=
              if ltb recentTrend (Fin (-3)) then Fin 3 else Fin (3 # 2) in
            let '(bias, conviction) :=
              if gtb change trendWeight
              then (Bullish,
                    strength (gtb change (Fin 4)
                              && gtb rawConfidence (Fin (7 # 10))))
              else if ltb change (Fin (- (3 # 2)))
              then (Bearish,
                    strength (ltb change (Fin (-3))
                              && gtb rawConfidence (Fin (7 # 10))))
              else (Neutral, Low) in
            match bias with
            | Bullish =>
                (bias, conviction,
                 currentPrice * (Fin 1 - volMult * Fin 5), targetPrice)%num
            | Bearish =>
                (bias, conviction,
                 currentPrice * (Fin 1 + volMult * Fin 5), targetPrice)%num
            | Neutral =>
                (bias, conviction,
                 currentPrice * (Fin 1 - volMult * Fin 3),
                 currentPrice * (Fin 1 + volMult * Fin 3))%num
            end
        | Long =>
            let '(bias, conviction) :=
              if gtb change (Fin 3)
              then (Bullish,
                    strength (gtb change (Fin 7)
                              && gtb rawConfidence (Fin (7 # 10))))
              else if ltb change (Fin (-3))
              then (Bearish,
                    strength (ltb change (Fin (-7))
                              && gtb rawConfidence (Fin (7 # 10))))
              else (Neutral, Low) in
            match bias with
            | Bullish =>
                (bias, conviction,
                 currentPrice * (Fin 1 - volMult * Fin 10), targetPrice)%num
            | Bearish =>
                (bias, conviction,
                 currentPrice * (Fin 1 + volMult * Fin 10), targetPrice)%num
            | Neutral =>
                (bias, conviction,
                 currentPrice * (Fin 1 - volMult * Fin 7),
                 currentPrice * (Fin 1 + volMult * Fin 7))%num
            end
        end in
      let risk := abs (currentPrice - stopLoss)%num in
      let reward := abs (takeProfit - currentPrice)%num in
      let riskRewardRatio :=
        if gtb risk (Fin 0) then (reward / risk)%num else Fin 0 in
      mkSignal bias conviction stopLoss takeProfit targetPrice change
               riskRewardRatio
  end.

(** The signal of the card for a horizon, from the props of the
    component; [prices] are the closes of [history], oldest first. *)
Definition card (horizon : Horizon) (prediction : Prediction)
  (prices : list num) : Signal :=
  activeSignal horizon (predictions prediction !! horizonMap horizon)
    (current_price prediction) (rsi prices) (volatility prices)
    (recentTrend prices).

End WithMath.

Definition signalLabel (s : Signal) : string :=
  match bias s with
  | Bullish =>
      match conviction s with High => "STRONG BUY" | _ => "BUY" end
  | Bearish =>
      match conviction s with High => "STRONG SELL" | _ => "SELL" end
  | Neutral => "HOLD"
  end.

End Signals.

(** A history of fifteen closes that fell by one every day, oldest
    first, and a prediction for it. *)
Module SignalSamples.
Import Float Signals.

Definition slide : list num :=
  map (fun k => Fin (inject_Z (Z.of_nat (30 - k)))) (seq 0 15).

Definition gloomy : Pred :=
  mkPred (Fin 14) (Some (Fin (-5))) (Some (Fin (8 # 10))).

Definition rosy : Pred :=
  mkPred (Fin 110) (Some (Fin 10)) (Some (Fin (8 # 10))).

End SignalSamples.

(* ------------------------------------------------------------------ *)
(** *** ml/src/lstm_model.py (LSTM training guide, step 4): the direction
    accuracy of [LSTMModel.evaluate] *)

Module Evaluation.
Import Float.

(** [(y[1:] > y[:-1]).astype(int)]: whether each value is above the one
    before it. *)
Definition directions (y : list num) : list bool :=
  zip_with (fun next prev => ltb prev next) (drop 1 y)
           (take (length y - 1) y).

(** [.mean()] of an array of booleans; 0/0 on an empty array. *)
Definition mean_bool (bs : list bool) : num :=
  (of_nat (length (List.filter id bs)) / of_nat (length bs))%num.

(** The direction accuracy of [LSTMModel.evaluate]; [y_pred] is the
    flattened prediction. *)
Definition direction_accuracy (y_test y_pred : list num) : num :=
  let direction_actual := directions y_test in
  let direction_pred := directions y_pred in
  (mean_bool (zip_with Bool.eqb direction_actual direction_pred)
   * Fin 100)%num.

End Evaluation.

(** ** Part II: properties *)

Section IndicatorFacts.
Import Float Indicators.

Example rsi_rising :
  calculateRSI [Fin 4; Fin 3; Fin 2; Fin 1] 2 = Some (Fin 100).
Proof. reflexivity. Qed.

Example rsi_mixed :
  calculateRSI [Fin 3; Fin 1; Fin 2; Fin 1] 2 = Some (Fin (250 # 3)).
Proof. reflexivity. Qed.

Example rsi_short : calculateRSI [Fin 3; Fin 1] 2 = None.
Proof. reflexivity. Qed.

(** Finite arithmetic stays finite, and keeps signs. *)

Lemma finite_inv x : finite x -> exists q, x = Fin q.
Proof. destruct x; unfold finite; simpl; try discriminate; eauto. Qed.

Lemma nonneg_inv x : nonneg x -> exists q, x = Fin q /\ (0 <= q)%Q.
Proof. destruct x; simpl; try tauto; eauto. Qed.

Lemma Qzero_spec q : Qzero q = true <-> (q == 0)%Q.
Proof.
  unfold Qzero, Qeq. simpl. rewrite Z.eqb_eq. split; lia.
Qed.

Lemma Qzero_pos q : (0 < q)%Q -> Qzero q = false.
Proof.
  intros Hq. destruct (Qzero q) eqn:E; [|done].
  apply Qzero_spec in E. rewrite E in Hq. by apply Qlt_irrefl in Hq.
Qed.

Lemma of_nat_pos n : 1 <= n -> (0 < inject_Z (Z.of_nat n))%Q.
Proof. intros Hn. unfold Qlt. simpl. lia. Qed.

Lemma of_nat_nonneg n : (0 <= inject_Z (Z.of_nat n))%Q.
Proof. unfold Qle. simpl. lia. Qed.

Lemma ltb_fin_true a b : ltb (Fin a) (Fin b) = true -> (a < b)%Q.
Proof.
  unfold ltb. destruct (Qcompare a b) eqn:E; try discriminate.
  intros _. by apply Qlt_alt.
Qed.

Lemma ltb_fin_false a b : ltb (Fin a) (Fin b) = false -> (b <= a)%Q.
Proof.
  unfold ltb. destruct (Qcompare a b) eqn:E; try discriminate; intros _.
  - apply Qeq_alt in E. rewrite E. apply Qle_refl.
  - apply Qgt_alt in E. by apply Qlt_le_weak.
Qed.

Lemma add_fin a b : (Fin a + Fin b)%num = Fin (Qred (a + b)).
Proof. reflexivity. Qed.

Lemma sub_fin a b : (Fin a - Fin b)%num = Fin (Qred (a + Qred (- b))).
Proof. reflexivity. Qed.

Lemma mul_fin a b : (Fin a * Fin b)%num = Fin (Qred (a * b)).
Proof. reflexivity. Qed.

Lemma div_fin a b :
  Qzero b = false -> (Fin a / Fin b)%num = Fin (Qred (a / b)).
Proof. intros Hb. unfold div. by rewrite Hb. Qed.

Lemma add_nonneg x y : nonneg x -> nonneg y -> nonneg (x + y)%num.
Proof.
  intros (a & -> & Ha)%nonneg_inv (b & -> & Hb)%nonneg_inv.
  rewrite add_fin. simpl. rewrite Qred_correct. rewrite <- (Qplus_0_r 0).
  by apply Qplus_le_compat.
Qed.

Lemma abs_nonneg a : nonneg (abs (Fin a)).
Proof. unfold abs. simpl. apply Qabs_nonneg. Qed.

Lemma mul_of_nat_nonneg x n : nonneg x -> nonneg (x * of_nat n)%num.
Proof.
  intros (a & -> & Ha)%nonneg_inv. unfold of_nat. rewrite mul_fin. simpl.
  rewrite Qred_correct.
  apply Qmult_le_0_compat; [done | apply of_nat_nonneg].
Qed.

Lemma div_of_nat_nonneg x n :
  1 <= n -> nonneg x -> nonneg (x / of_nat n)%num.
Proof.
  intros Hn (a & -> & Ha)%nonneg_inv. unfold of_nat.
  rewrite div_fin by (by apply Qzero_pos, of_nat_pos).
  simpl. rewrite Qred_correct.
  apply Qle_shift_div_l; [by apply of_nat_pos |].
  by rewrite Qmult_0_l.
Qed.

(** Inside the array every read is a finite number. *)
Lemma at_finite data i :
  Forall finite data -> i < length data -> exists q, at_ data i = Fin q.
Proof.
  intros Hall Hi. apply finite_inv. unfold at_.
  rewrite Forall_forall in Hall. apply Hall.
  apply list_elem_of_In. by apply nth_In.
Qed.

Lemma fold_left_invariant {A B} (P : A -> Prop) (f : A -> B -> A) l a :
  P a -> (forall a i, i ∈ l -> P a -> P (f a i)) -> P (fold_left f l a).
Proof.
  revert a. induction l as [|i l IH]; intros a Ha Hstep; simpl; [done|].
  apply IH.
  - apply Hstep; [left | done].
  - intros a' j Hj. apply Hstep. by right.
Qed.

Lemma first_step_eq data g l i :
  first_step data (g, l) i =
  if ltb (Fin 0) (at_ data i - at_ data (i - 1))
  then ((g + (at_ data i - at_ data (i - 1)))%num, l)
  else (g, (l + abs (at_ data i - at_ data (i - 1)))%num).
Proof. reflexivity. Qed.

Lemma smooth_step_eq data period g l i :
  smooth_step data period (g, l) i =
  (((g * of_nat (period - 1)) +
    (if ltb (Fin 0) (at_ data i - at_ data (i - 1))
     then (at_ data i - at_ data (i - 1))%num else Fin 0)) / of_nat period,
   ((l * of_nat (period - 1)) +
    (if ltb (at_ data i - at_ data (i - 1)) (Fin 0)
     then abs (at_ data i - at_ data (i - 1)) else Fin 0)) / of_nat period)%num.
Proof. reflexivity. Qed.

Lemma first_step_nonneg data acc i :
  Forall finite data -> 1 <= i < length data ->
  both_nonneg acc -> both_nonneg (first_step data acc i).
Proof.
  intros Hall Hi [Hg Hl]. destruct acc as [g l]. simpl in Hg, Hl.
  rewrite first_step_eq.
  destruct (at_finite data i Hall) as [a ->]; [lia|].
  destruct (at_finite data (i - 1) Hall) as [b ->]; [lia|].
  rewrite sub_fin.
  destruct (ltb (Fin 0) _) eqn:E; split; simpl fst; simpl snd; try done.
  - apply add_nonneg; [done|]. simpl.
    apply ltb_fin_true in E. by apply Qlt_le_weak.
  - apply add_nonneg; [done | apply abs_nonneg].
Qed.

Lemma smooth_step_nonneg data period acc i :
  Forall finite data -> 1 <= period -> 1 <= i < length data ->
  both_nonneg acc -> both_nonneg (smooth_step data period acc i).
Proof.
  intros Hall Hp Hi [Hg Hl]. destruct acc as [g l]. simpl in Hg, Hl.
  rewrite smooth_step_eq.
  destruct (at_finite data i Hall) as [a ->]; [lia|].
  destruct (at_finite data (i - 1) Hall) as [b ->]; [lia|].
  rewrite sub_fin. split; simpl fst; simpl snd.
  - apply div_of_nat_nonneg; [done|]. apply add_nonneg.
    + by apply mul_of_nat_nonneg.
    + destruct (ltb (Fin 0) _) eqn:E; simpl; [|apply Qle_refl].
      apply ltb_fin_true in E. by apply Qlt_le_weak.
  - apply div_of_nat_nonneg; [done|]. apply add_nonneg.
    + by apply mul_of_nat_nonneg.
    + destruct (ltb _ (Fin 0)) eqn:E; [apply abs_nonneg | apply Qle_refl].
Qed.

Lemma averages_nonneg prices period :
  1 <= period -> Forall finite prices -> period + 1 <= length prices ->
  both_nonneg (averages prices period).
Proof.
  intros Hp Hall Hlen. unfold averages.
  assert (Hdata : Forall finite (reverse prices)).
  { rewrite Forall_forall in *. intros x Hx. apply Hall.
    by rewrite elem_of_reverse in Hx. }
  assert (Hdlen : length (reverse prices) = length prices)
    by apply length_reverse.
  destruct (fold_left (first_step _) _ _) as [gains losses] eqn:E1.
  assert (H1 : both_nonneg (gains, losses)).
  { rewrite <- E1. apply fold_left_invariant.
    - split; simpl; apply Qle_refl.
    - intros acc i Hi%elem_of_seq Hacc.
      apply first_step_nonneg; [done | lia | done]. }
  destruct H1 as [Hg Hl]. simpl in Hg, Hl.
  apply fold_left_invariant.
  - split; simpl; by apply div_of_nat_nonneg.
  - intros acc i Hi%elem_of_seq Hacc.
    apply smooth_step_nonneg; [done | done | lia | done].
Qed.

Lemma rsi_value_range g l :
  (0 <= g)%Q -> (0 < l)%Q ->
  (0 <= 100 + - (100 / (1 + g / l)) <= 100)%Q.
Proof.
  intros Hg Hl.
  assert (Hrs : (0 <= g / l)%Q).
  { apply Qle_shift_div_l; [done|]. lra. }
  assert (Hd0 : (0 < 1 + g / l)%Q) by lra.
  assert (Hx1 : (100 / (1 + g / l) <= 100)%Q).
  { apply Qle_shift_div_r; [done|]. lra. }
  assert (Hx0 : (0 <= 100 / (1 + g / l))%Q).
  { apply Qle_shift_div_l; [done|]. lra. }
  lra.
Qed.

Lemma moderate_finite x : moderate x -> finite x.
Proof. by destruct x. Qed.

(** C9 (amended). With a lookback of at least one bar, [calculateRSI]
    answers every array of at least [period + 1] finite prices of magnitude
    at most [2 ^ 500] with a finite number between 0 and 100, and with
    exactly 100 when the smoothed average loss is zero; every shorter array
    is answered with [null].  At such magnitudes no difference, sum or
    product of the two loops leaves the range of the doubles, and the
    bounds 0 and 100 are kept by rounding: [1 + rs] is at least 1, so
    [100 / (1 + rs)] lies between 0 and 100. *)
Theorem calculateRSI_range (prices : list num) (period : nat) :
  (length prices < period + 1 -> calculateRSI prices period = None) /\
  (1 <= period -> array_sized prices -> Forall moderate prices ->
   period + 1 <= length prices ->
   exists r, calculateRSI prices period = Some (Fin r) /\
     (0 <= r <= 100)%Q /\
     (forall l, snd (averages prices period) = Fin l -> (l == 0)%Q ->
                r = 100%Q)).
Proof.
  split.
  - intros Hlen. unfold calculateRSI.
    by destruct (Nat.ltb_spec (length prices) (period + 1)); [|lia].
  - intros Hp _ Hmod Hlen.
    assert (Hall : Forall finite prices).
    { eapply Forall_impl; [exact Hmod|]. apply moderate_finite. }
    destruct (averages_nonneg prices period Hp Hall Hlen) as [Hg Hl].
    unfold calculateRSI.
    destruct (Nat.ltb_spec (length prices) (period + 1)); [lia|].
    destruct (averages prices period) as [avgGain avgLoss].
    simpl in Hg, Hl.
    apply nonneg_inv in Hg as (g & -> & Hg).
    apply nonneg_inv in Hl as (l & -> & Hl).
    unfold eqb. destruct (Qeq_bool l 0) eqn:E.
    + exists 100%Q. repeat split; try done.
    + assert (Hl0 : (0 < l)%Q).
      { apply Qle_lt_or_eq in Hl as [Hl|Hl]; [done|].
        symmetry in Hl. apply Qeq_bool_iff in Hl. congruence. }
      rewrite (div_fin g l) by (by apply Qzero_pos).
      rewrite add_fin.
      assert (Hd : (0 < Qred (1 + Qred (g / l)))%Q).
      { rewrite !Qred_correct.
        assert ((0 <= g / l)%Q); [|lra].
        apply Qle_shift_div_l; [done|]. lra. }
      rewrite div_fin by (by apply Qzero_pos). rewrite sub_fin.
      eexists. split; [reflexivity|]. split.
      * rewrite !Qred_correct. by apply rsi_value_range.
      * intros l' [= <-] Hz. apply Qeq_bool_iff in Hz. congruence.
Qed.

(** C9 (amended) at a four-price array with a two-bar lookback. *)
Lemma calculateRSI_range_witness :
  exists r,
    calculateRSI [Fin 3; Fin 1; Fin 2; Fin 1] 2 = Some (Fin r) /\
    (0 <= r <= 100)%Q.
Proof.
  destruct (calculateRSI_range [Fin 3; Fin 1; Fin 2; Fin 1] 2)
    as [_ H].
  destruct H as (r & Hr & Hb & _).
  - lia.
  - by vm_compute.
  - repeat constructor; by vm_compute.
  - simpl. lia.
  - exists r. split; [exact Hr | exact Hb].
Defined.

(** C9 as stated fails: with a lookback of 0 the first loop does not run,
    both averages start as 0/0, and two finite prices (at least
    [period + 1] of them) are answered with NaN, which is no number
    between 0 and 100. *)
Lemma rsi_nan_without_lookback :
  Forall finite [Fin 3; Fin 1] /\
  0 + 1 <= length [Fin 3; Fin 1] /\
  calculateRSI [Fin 3; Fin 1] 0 = Some NaN.
Proof. split; [repeat constructor|]. split; [simpl; lia | reflexivity]. Qed.

End IndicatorFacts.

Section CacheFacts.
Import Cache.

Variable value : Type.
Variable null : value.
Variable JSON_parse : string -> outcome value.
Variable JSON_stringify : value -> outcome string.

Local Abbreviation loadFromCache := (loadFromCache value null JSON_parse).
Local Abbreviation saveToCache := (saveToCache value JSON_stringify).
Local Abbreviation load := (load value null JSON_parse).
Local Abbreviation save := (save value JSON_stringify).

Lemma truthy_some s : truthy (Some s) = true <-> s <> EmptyString.
Proof.
  simpl. destruct (String.eqb_spec s EmptyString); simpl; split; congruence.
Qed.

(** C10. [loadFromCache] returns for every environment and key, never
    throwing: [null] on the server, when storage access is refused, when
    nothing is stored under the key, when the stored string is empty or is
    rejected by [JSON.parse]; the parsed stored value otherwise. *)
Theorem loadFromCache_total (w : env) (key : string) :
  exists v, loadFromCache w key = Returns v /\
    (w = Server -> v = null) /\
    (w = Browser Denied -> v = null) /\
    (forall items quota, w = Browser (Granted items quota) ->
       (items !! key = None -> v = null) /\
       (forall s, items !! key = Some s ->
          (s = EmptyString -> v = null) /\
          (JSON_parse s = Throws -> v = null) /\
          (forall j, s <> EmptyString -> JSON_parse s = Returns j -> v = j))).
Proof.
  destruct w as [|[|items quota]]; simpl.
  - exists null. repeat split; try done.
  - exists null. repeat split; try done.
  - unfold load_body. simpl.
    destruct (items !! key) as [s|] eqn:Hk; simpl.
    + destruct (String.eqb_spec s EmptyString) as [->|Hne]; simpl.
      * exists null. split; [done|].
        repeat split; intros; simplify_eq; congruence.
      * destruct (JSON_parse s) as [j|] eqn:Hp; simpl.
        -- exists j. split; [done|].
           repeat split; intros; simplify_eq; congruence.
        -- exists null. split; [done|].
           repeat split; intros; simplify_eq; congruence.
    + exists null. split; [done|].
      repeat split; intros; simplify_eq; congruence.
Qed.

(** A write that the store accepts is read back, whatever the clock says. *)
Lemma load_after_save items quota key data s t dt :
  JSON_stringify data = Returns s ->
  fits items quota key s = true ->
  load key (elapse dt (save key data
                (World t (Browser (Granted items quota))))) =
  Returns (try_catch
             (if truthy (Some s) then JSON_parse s else Returns null) null).
Proof.
  intros Hs Hfit. unfold load, elapse, save. simpl.
  unfold save_body. rewrite Hs. simpl. rewrite Hfit. simpl.
  unfold load_body. simpl. rewrite lookup_insert_eq. reflexivity.
Qed.

(** C8 (amended). A cached entry has no time-to-live.  Once the store has
    accepted a value that survives JSON serialisation, a read of the same
    key returns that value exactly as stored after any lapse of time,
    fifteen minutes or more included. *)
Theorem cache_entry_never_expires items quota key data s (t dt : Z) :
  JSON_stringify data = Returns s ->
  s <> EmptyString ->
  JSON_parse s = Returns data ->
  fits items quota key s = true ->
  (0 <= dt)%Z ->
  load key (elapse dt (save key data
                (World t (Browser (Granted items quota))))) =
  Returns data.
Proof.
  intros Hs Hne Hp Hfit _.
  rewrite (load_after_save _ _ _ _ s) by done.
  apply truthy_some in Hne. rewrite Hne, Hp. reflexivity.
Qed.

End CacheFacts.

Section CacheExamples.
Import Cache IntegerJSON.

Example parse_empty : parse "" = Throws.
Proof. reflexivity. Qed.

Example parse_garbage : parse "{oops" = Throws.
Proof. reflexivity. Qed.

(** The amended C8 at a concrete page: a price cached for AAPL is read back
    sixteen minutes later. *)
Lemma cache_entry_never_expires_witness :
  load value Null parse (prediction_key "AAPL")
    (elapse (claimed_ttl_ms + 60000)
       (save value stringify (prediction_key "AAPL") (Number 18530)
          fresh_page)) = Returns (Number 18530).
Proof.
  apply (cache_entry_never_expires value Null parse stringify
           ∅ 4096 (prediction_key "AAPL") (Number 18530) "18530").
  - reflexivity.
  - discriminate.
  - reflexivity.
  - vm_compute. reflexivity.
  - vm_compute. discriminate.
Defined.

(** C8 as stated fails: one minute after the claimed time-to-live has run
    out, the read does not miss; it serves the entry written before. *)
Lemma cache_serves_entry_after_ttl :
  let w := save value stringify (prediction_key "AAPL") (Number 18530)
             fresh_page in
  let later := elapse (claimed_ttl_ms + 60000) w in
  (now later - now w > claimed_ttl_ms)%Z /\
  load value Null parse (prediction_key "AAPL") later
    = Returns (Number 18530) /\
  load value Null parse (prediction_key "AAPL") later <> Returns Null.
Proof.
  vm_compute. repeat split; discriminate.
Qed.

End CacheExamples.

Section CacheTotalExample.
Import Cache IntegerJSON.

(** C10 at a store whose entry is not JSON: the read returns [null]. *)
Lemma loadFromCache_total_witness :
  loadFromCache value Null parse
    (Browser (Granted {[ "fin_watchlist_v2"%string := "{oops"%string ]} 4096))
    "fin_watchlist_v2" = Returns Null.
Proof.
  destruct (loadFromCache_total value Null parse
              (Browser (Granted {[ "fin_watchlist_v2"%string
                                   := "{oops"%string ]} 4096))
              "fin_watchlist_v2") as (v & Hv & _ & _ & H).
  destruct (H _ _ eq_refl) as [_ H2].
  destruct (H2 "{oops"%string) as (_ & H3 & _).
  - vm_compute. reflexivity.
  - rewrite Hv. f_equal. apply H3. reflexivity.
Defined.

End CacheTotalExample.

(* ------------------------------------------------------------------ *)
(** *** The chronological split *)

Section RoundingFacts.
Import Binary64.
Local Open Scope Z_scope.

Lemma round53_shift0 m : Z.log2 m <= 52 -> round53 m = m.
Proof.
  intros Hlog. unfold round53.
  replace (Z.max 0 (Z.log2 m - 52)) with 0 by lia.
  change (2 ^ 0) with 1. rewrite Z.div_1_r, Z.mod_1_r. simpl. lia.
Qed.

Lemma round53_exact m : 0 <= m < 2 ^ 53 -> round53 m = m.
Proof.
  intros [H0 Hm]. apply round53_shift0.
  destruct (Z.eq_dec m 0) as [->|Hne]; [simpl; lia|].
  assert (Z.log2 m < 53); [|lia].
  apply Z.log2_lt_pow2; lia.
Qed.

(** Rounding moves a number by at most half a unit in the last place:
    a relative error of [2 ^ -53]. *)
Lemma round53_close m :
  0 <= m ->
  m * (2 ^ 53 - 1) <= round53 m * 2 ^ 53 <= m * (2 ^ 53 + 1).
Proof.
  intros H0.
  destruct (Z_le_gt_dec (Z.log2 m) 52) as [Hlog|Hlog].
  { rewrite round53_shift0 by done. lia. }
  unfold round53.
  replace (Z.max 0 (Z.log2 m - 52)) with (Z.log2 m - 52) by lia.
  set (sh := Z.log2 m - 52).
  assert (Hm : 0 < m).
  { destruct (Z.eq_dec m 0) as [->|]; [simpl in Hlog|]; lia. }
  assert (HP : 0 < 2 ^ sh) by (apply Z.pow_pos_nonneg; lia).
  assert (Hbig : 2 ^ sh * 2 ^ 52 <= m).
  { rewrite <- Z.pow_add_r by lia.
    replace (sh + 52) with (Z.log2 m) by lia.
    apply Z.log2_spec. lia. }
  pose proof (Z.div_mod m (2 ^ sh) ltac:(lia)) as Hdm.
  pose proof (Z.mod_pos_bound m (2 ^ sh) HP) as Hr.
  set (P := 2 ^ sh) in *. set (q := m / P) in *. set (r := m mod P) in *.
  set (pq := P * q) in *.
  destruct ((P <? 2 * r) || (2 * r =? P) && Z.odd q) eqn:Hup.
  - assert (P <= 2 * r).
    { apply orb_true_iff in Hup as [H|H].
      - apply Z.ltb_lt in H. lia.
      - apply andb_true_iff in H as [H _]. apply Z.eqb_eq in H. lia. }
    replace ((q + 1) * P) with (pq + P) by (unfold pq; ring).
    change (2 ^ 53) with 9007199254740992 in *.
    change (2 ^ 52) with 4503599627370496 in *. lia.
  - assert (2 * r <= P).
    { apply orb_false_iff in Hup as [H _]. apply Z.ltb_ge in H. lia. }
    replace (q * P) with pq by (unfold pq; ring).
    change (2 ^ 53) with 9007199254740992 in *.
    change (2 ^ 52) with 4503599627370496 in *. lia.
Qed.

End RoundingFacts.

Section SplitFacts.
Import Binary64 Sequences.

Example train_end_90 : train_end 90 lit_0_7 = 62.
Proof. reflexivity. Qed.

Example split_sizes_998 :
  (train_end 998 lit_0_7, val_end 998 lit_0_7 lit_0_15) = (698, 848).
Proof. reflexivity. Qed.

Lemma sum_of_ratios : fadd lit_0_7 lit_0_15 = Double 30624477466119372 55.
Proof. reflexivity. Qed.

Lemma train_end_unfold n :
  (Z.of_nat n < 2 ^ 53)%Z ->
  Z.of_nat (train_end n lit_0_7) =
  (round53 (Z.of_nat n * 3152519739159347) / 2 ^ 52)%Z.
Proof.
  intros Hn. unfold train_end, trunc, fmul, of_int. simpl sig. simpl scale.
  rewrite (round53_exact (Z.of_nat n)) by (split; [lia | exact Hn]).
  rewrite Z2Nat.id; [reflexivity|].
  apply Z.div_pos; [|done].
  pose proof (round53_close (Z.of_nat n * 3152519739159347)) as Hr.
  change (2 ^ 53)%Z with 9007199254740992%Z in Hr. lia.
Qed.

Lemma val_end_unfold n :
  (Z.of_nat n < 2 ^ 53)%Z ->
  Z.of_nat (val_end n lit_0_7 lit_0_15) =
  (round53 (Z.of_nat n * 30624477466119372) / 2 ^ 55)%Z.
Proof.
  intros Hn. unfold val_end. rewrite sum_of_ratios.
  unfold trunc, fmul, of_int. simpl sig. simpl scale.
  rewrite (round53_exact (Z.of_nat n)) by (split; [lia | exact Hn]).
  rewrite Z2Nat.id; [reflexivity|].
  apply Z.div_pos; [|done].
  pose proof (round53_close (Z.of_nat n * 30624477466119372)) as Hr.
  change (2 ^ 53)%Z with 9007199254740992%Z in Hr. lia.
Qed.

(** The training part has [0.7 * n] samples rounded down, or one fewer. *)
Lemma train_end_bounds n :
  (Z.of_nat n < 2 ^ 48)%Z ->
  7 * n - 10 <= 10 * train_end n lit_0_7 <= 7 * n.
Proof.
  intros Hn.
  assert (H53 : (Z.of_nat n < 2 ^ 53)%Z).
  { eapply Z.lt_trans; [exact Hn | reflexivity]. }
  pose proof (train_end_unfold n H53) as Ha.
  pose proof (round53_close (Z.of_nat n * 3152519739159347)
                ltac:(lia)) as Hr.
  set (R := round53 _) in *.
  pose proof (Z.div_mod R (2 ^ 52) ltac:(done)) as Hdm.
  pose proof (Z.mod_pos_bound R (2 ^ 52) ltac:(done)) as Hm.
  change (2 ^ 53)%Z with 9007199254740992%Z in *.
  change (2 ^ 52)%Z with 4503599627370496%Z in *.
  change (2 ^ 48)%Z with 281474976710656%Z in *.
  lia.
Qed.

(** Training and validation together have [0.85 * n] samples rounded
    down, or one fewer. *)
Lemma val_end_bounds n :
  (Z.of_nat n < 2 ^ 48)%Z ->
  17 * n - 20 <= 20 * val_end n lit_0_7 lit_0_15 <= 17 * n.
Proof.
  intros Hn.
  assert (H53 : (Z.of_nat n < 2 ^ 53)%Z).
  { eapply Z.lt_trans; [exact Hn | reflexivity]. }
  pose proof (val_end_unfold n H53) as Ha.
  pose proof (round53_close (Z.of_nat n * 30624477466119372)
                ltac:(lia)) as Hr.
  set (R := round53 _) in *.
  pose proof (Z.div_mod R (2 ^ 55) ltac:(done)) as Hdm.
  pose proof (Z.mod_pos_bound R (2 ^ 55) ltac:(done)) as Hm.
  change (2 ^ 53)%Z with 9007199254740992%Z in *.
  change (2 ^ 55)%Z with 36028797018963968%Z in *.
  change (2 ^ 48)%Z with 281474976710656%Z in *.
  lia.
Qed.

Lemma split_points_ordered n :
  (Z.of_nat n < 2 ^ 48)%Z ->
  train_end n lit_0_7 <= val_end n lit_0_7 lit_0_15 <= n.
Proof.
  intros Hn. pose proof (train_end_bounds n Hn).
  pose proof (val_end_bounds n Hn). lia.
Qed.


Lemma length_slice {A} (a : list A) lo hi :
  hi <= length a -> length (slice lo hi a) = hi - lo.
Proof. intros H. unfold slice. rewrite length_drop, length_take. lia. Qed.



End SplitFacts.

(* ------------------------------------------------------------------ *)
(** *** Horizon tables and sequences *)

Section SequenceFacts.
Import Float Sequences.

Lemma get_loc_lt cols name j : get_loc cols name = Some j -> j < length cols.
Proof.
  revert j. induction cols as [|c cols IH]; intros j; simpl; [done|].
  destruct (String.eqb c name).
  - intros [= <-]. lia.
  - destruct (get_loc cols name) as [k|]; simpl; [|done].
    intros [= <-]. specialize (IH k eq_refl). lia.
Qed.

Lemma cell_finite r j : Forall finite r -> j < length r -> finite (cell r j).
Proof.
  intros Hr Hj. unfold cell. rewrite Forall_forall in Hr. apply Hr.
  apply list_elem_of_In. by apply nth_In.
Qed.

Lemma finite_not_nan x : finite x -> is_nan x = false.
Proof. by destruct x. Qed.

Lemma no_nan_finite r : Forall finite r -> no_nan r = true.
Proof.
  intros Hr. unfold no_nan. apply forallb_forall. intros x Hx.
  rewrite Forall_forall in Hr. rewrite finite_not_nan; [done|].
  apply Hr. by apply list_elem_of_In.
Qed.

Lemma no_nan_snoc_nan r : no_nan (r ++ [NaN]) = false.
Proof.
  unfold no_nan. rewrite forallb_app. simpl. by rewrite andb_false_r.
Qed.

Lemma filter_keep_all {A} (f : A -> bool) l :
  Forall (fun x => f x = true) l -> List.filter f l = l.
Proof.
  induction 1 as [|x l Hx _ IH]; simpl; [done|]. by rewrite Hx, IH.
Qed.

Lemma filter_drop_all {A} (f : A -> bool) l :
  Forall (fun x => f x = false) l -> List.filter f l = [].
Proof.
  induction 1 as [|x l Hx _ IH]; simpl; [done|]. by rewrite Hx, IH.
Qed.

Lemma length_column j rs : length (column j rs) = length rs.
Proof. unfold column. apply length_map. Qed.

Lemma column_finite df j :
  clean df -> j < length (columns df) -> Forall finite (column j (rows df)).
Proof.
  intros Hc Hj. unfold column. apply Forall_forall. intros x Hx.
  apply list_elem_of_In, in_map_iff in Hx as (r & <- & Hr).
  apply list_elem_of_In in Hr.
  unfold clean in Hc. rewrite Forall_forall in Hc.
  destruct (Hc r Hr) as [Hlen Hfin]. apply cell_finite; [done | lia].
Qed.

(** The table of one horizon: the last [h] rows have no target and go;
    every other row gains the close price found [h] rows later. *)
Lemma horizon_table_rows df h j :
  clean df ->
  get_loc (columns df) "close" = Some j ->
  get_loc (columns df) "target" = None ->
  horizon_table df h =
  Some (DF (columns df ++ ["target"%string]) (labelled_rows h j (rows df))).
Proof.
  intros Hc Hclose Htarget. unfold horizon_table. rewrite Hclose. simpl.
  unfold assign. rewrite Htarget. unfold dropna. simpl. do 2 f_equal.
  pose proof (get_loc_lt _ _ _ Hclose) as Hj.
  pose proof (column_finite df j Hc Hj) as Hcol.
  set (rs := rows df) in *. set (cl := column j rs) in *.
  assert (Hlen : length cl = length rs) by apply length_column.
  unfold shift_back, labelled_rows. fold cl.
  rewrite <- (take_drop (length rs - h) rs) at 1.
  rewrite zip_with_app
    by (rewrite length_take, length_drop; lia).
  rewrite List.filter_app.
  rewrite filter_keep_all, filter_drop_all; [by rewrite app_nil_r | |].
  - apply Forall_forall. intros r Hr.
    apply elem_of_lookup_zip_with in Hr as (i & r' & x & -> & _ & Hx).
    apply lookup_replicate in Hx as [-> _]. apply no_nan_snoc_nan.
  - apply Forall_forall. intros r Hr.
    apply elem_of_lookup_zip_with in Hr as (i & r' & x & -> & Hr' & Hx).
    apply no_nan_finite. apply Forall_app. split.
    + apply list_elem_of_lookup_2, subseteq_take in Hr'.
      unfold clean in Hc. rewrite Forall_forall in Hc. by apply Hc.
    + apply Forall_singleton.
      apply list_elem_of_lookup_2, subseteq_drop in Hx.
      rewrite Forall_forall in Hcol. by apply Hcol.
Qed.

Lemma length_labelled_rows h j rs :
  length (labelled_rows h j rs) = length rs - h.
Proof.
  unfold labelled_rows.
  rewrite length_zip_with, length_take, length_drop, length_column. lia.
Qed.

Lemma lookup_labelled_rows h j rs i r r' :
  rs !! i = Some r -> rs !! (i + h) = Some r' ->
  labelled_rows h j rs !! i = Some (r ++ [cell r' j]).
Proof.
  intros Hr Hr'. unfold labelled_rows. rewrite lookup_zip_with.
  apply lookup_lt_Some in Hr' as Hlt.
  rewrite lookup_take_lt by lia. rewrite Hr. simpl.
  rewrite lookup_drop. unfold column. rewrite list_lookup_fmap.
  replace (h + i) with (i + h) by lia. by rewrite Hr'.
Qed.

Lemma labelled_rows_clean df h j :
  clean df -> j < length (columns df) ->
  clean (DF (columns df ++ ["target"%string]) (labelled_rows h j (rows df))).
Proof.
  intros Hc Hj. pose proof (column_finite df j Hc Hj) as Hcol.
  unfold clean in *. simpl. rewrite Forall_forall in *.
  intros r Hr. unfold labelled_rows in Hr.
  apply elem_of_lookup_zip_with in Hr as (i & r' & x & -> & Hr' & Hx).
  apply list_elem_of_lookup_2, subseteq_take in Hr'.
  apply list_elem_of_lookup_2, subseteq_drop in Hx.
  destruct (Hc r' Hr') as [Hlen Hfin]. split.
  - rewrite !length_app. simpl. lia.
  - apply Forall_app. split; [done|]. apply Forall_singleton.
    rewrite Forall_forall in Hcol. by apply Hcol.
Qed.

Lemma has_inf_finite X : Forall (Forall finite) X -> has_inf X = false.
Proof.
  intros HX. unfold has_inf.
  induction HX as [|r X Hr _ IH]; simpl; [done|]. rewrite IH.
  rewrite orb_false_r.
  induction Hr as [|x r Hx _ IHr]; simpl; [done|]. rewrite IHr.
  by destruct x.
Qed.

Lemma clean_rows_finite df : clean df -> Forall (Forall finite) (rows df).
Proof.
  unfold clean. intros Hc. eapply Forall_impl; [exact Hc|].
  by intros r [_ Hr].
Qed.

Lemma fit_clean df :
  clean df -> rows df <> [] -> fit (rows df) = Some (fitted (rows df)).
Proof.
  intros Hc Hne. unfold fit.
  rewrite (has_inf_finite _ (clean_rows_finite df Hc)).
  by destruct (rows df).
Qed.

Lemma length_transform sc X : length (transform sc X) = length X.
Proof. unfold transform. apply length_map. Qed.

(** On a clean table with at least one row [prepare_data] returns: the
    scaler is fitted on every row of the table, and sample [k] is the
    window of the [L] scaled rows before row [L + k], labelled with the
    scaled target cell of row [L + k]. *)
Lemma prepare_data_spec self df target_column t :
  clean df -> rows df <> [] ->
  get_loc (columns df) target_column = Some t ->
  prepare_data self df target_column =
  let L := sequence_length self in
  let sc := fitted (rows df) in
  let scaled_data := transform sc (rows df) in
  let anchors := seq L (length (rows df) - L) in
  Some (Prepared
          (map (fun i => window L i scaled_data) anchors)
          (map (fun i => cell (nth i scaled_data []) t) anchors)
          (Generator L (Some sc))).
Proof.
  intros Hc Hne Ht. unfold prepare_data.
  rewrite (fit_clean df Hc Hne). cbn [mbind option_bind]. cbv zeta.
  rewrite length_transform.
  destruct (seq _ _) eqn:Hseq; [reflexivity|].
  rewrite Ht. reflexivity.
Qed.

(** **** The fitted bounds *)

Lemma le_refl_fin x : finite x -> le x x.
Proof. intros [q ->]%finite_inv. simpl. apply Qle_refl. Qed.

Lemma le_trans x y z : le x y -> le y z -> le x z.
Proof.
  destruct x, y, z; simpl; try tauto. apply Qle_trans.
Qed.

Lemma nanmin_nan x : nanmin NaN x = x.
Proof. reflexivity. Qed.

Lemma nanmin_fin a b :
  nanmin (Fin a) (Fin b) = if ltb (Fin b) (Fin a) then Fin b else Fin a.
Proof. reflexivity. Qed.

Lemma nanmax_fin a b :
  nanmax (Fin a) (Fin b) = if ltb (Fin a) (Fin b) then Fin b else Fin a.
Proof. reflexivity. Qed.

(** Folding [nanmin] over finite values from a finite start gives a lower
    bound that is one of the values folded. *)
Lemma fold_nanmin_fin xs a :
  Forall finite xs -> finite a ->
  let m := fold_left nanmin xs a in
  finite m /\ le m a /\ (forall x, x ∈ xs -> le m x) /\ (m = a \/ m ∈ xs).
Proof.
  intros Hxs. revert a. induction Hxs as [|x xs Hx _ IH]; intros a Ha; simpl.
  - repeat split; [done | by apply le_refl_fin | | by left].
    intros x Hx. by apply elem_of_nil in Hx.
  - assert (Hstep : finite (nanmin a x) /\ le (nanmin a x) a /\
                    le (nanmin a x) x /\
                    (nanmin a x = a \/ nanmin a x = x)).
    { apply finite_inv in Ha as [p ->]. apply finite_inv in Hx as [q ->].
      rewrite nanmin_fin. destruct (ltb (Fin q) (Fin p)) eqn:E.
      - apply ltb_fin_true in E. repeat split; simpl; try lra. by right.
      - apply ltb_fin_false in E. repeat split; simpl; try lra. by left. }
    destruct Hstep as (Hf & Hla & Hlx & Hor).
    destruct (IH _ Hf) as (Hm & Hle & Hall & Hin).
    repeat split; [done | by eapply le_trans | |].
    + intros y [->|Hy]%elem_of_cons; [by eapply le_trans | by apply Hall].
    + destruct Hin as [->|Hin]; [|right; by right].
      destruct Hor as [->| ->]; [by left | right; by left].
Qed.

Lemma fold_nanmax_fin xs a :
  Forall finite xs -> finite a ->
  let m := fold_left nanmax xs a in
  finite m /\ le a m /\ (forall x, x ∈ xs -> le x m) /\ (m = a \/ m ∈ xs).
Proof.
  intros Hxs. revert a. induction Hxs as [|x xs Hx _ IH]; intros a Ha; simpl.
  - repeat split; [done | by apply le_refl_fin | | by left].
    intros x Hx. by apply elem_of_nil in Hx.
  - assert (Hstep : finite (nanmax a x) /\ le a (nanmax a x) /\
                    le x (nanmax a x) /\
                    (nanmax a x = a \/ nanmax a x = x)).
    { apply finite_inv in Ha as [p ->]. apply finite_inv in Hx as [q ->].
      rewrite nanmax_fin. destruct (ltb (Fin p) (Fin q)) eqn:E.
      - apply ltb_fin_true in E. repeat split; simpl; try lra. by right.
      - apply ltb_fin_false in E. repeat split; simpl; try lra. by left. }
    destruct Hstep as (Hf & Hla & Hlx & Hor).
    destruct (IH _ Hf) as (Hm & Hle & Hall & Hin).
    repeat split; [done | by eapply le_trans | |].
    + intros y [->|Hy]%elem_of_cons; [by eapply le_trans | by apply Hall].
    + destruct Hin as [->|Hin]; [|right; by right].
      destruct Hor as [->| ->]; [by left | right; by left].
Qed.

(** The minimum [fit] records for a column bounds every cell of the
    column, first row to last, and is one of them. *)
Lemma col_min_spec xs :
  Forall finite xs -> xs <> [] ->
  let m := fold_left nanmin xs NaN in
  finite m /\ (forall x, x ∈ xs -> le m x) /\ m ∈ xs.
Proof.
  intros Hxs Hne. destruct xs as [|x xs]; [done|]. simpl.
  apply Forall_cons in Hxs as [Hx Hxs].
  destruct (fold_nanmin_fin xs x Hxs Hx) as (Hm & Hle & Hall & Hin).
  repeat split; [done | |].
  - intros y [->|Hy]%elem_of_cons; [done | by apply Hall].
  - destruct Hin as [->|Hin]; [by left | by right].
Qed.

Lemma col_max_spec xs :
  Forall finite xs -> xs <> [] ->
  let m := fold_left nanmax xs NaN in
  finite m /\ (forall x, x ∈ xs -> le x m) /\ m ∈ xs.
Proof.
  intros Hxs Hne. destruct xs as [|x xs]; [done|]. simpl.
  apply Forall_cons in Hxs as [Hx Hxs].
  destruct (fold_nanmax_fin xs x Hxs Hx) as (Hm & Hle & Hall & Hin).
  repeat split; [done | |].
  - intros y [->|Hy]%elem_of_cons; [done | by apply Hall].
  - destruct Hin as [->|Hin]; [by left | by right].
Qed.

Lemma cell_map_seq (f : nat -> num) w j :
  j < w -> cell (map f (seq 0 w)) j = f j.
Proof.
  intros Hj. unfold cell. rewrite nth_lookup, list_lookup_fmap.
  by rewrite lookup_seq_lt.
Qed.

Lemma elem_of_column j rs x :
  x ∈ column j rs <-> exists r, r ∈ rs /\ x = cell r j.
Proof.
  unfold column. rewrite list_elem_of_In, in_map_iff. split.
  - intros (r & <- & Hr). exists r. by rewrite list_elem_of_In.
  - intros (r & Hr & ->). exists r. by rewrite <- list_elem_of_In.
Qed.

Lemma fitted_bounds df j :
  clean df -> rows df <> [] -> j < length (columns df) ->
  let sc := fitted (rows df) in
  finite (cell (data_min_ sc) j) /\ finite (cell (data_max_ sc) j) /\
  (forall r, r ∈ rows df ->
     le (cell (data_min_ sc) j) (cell r j) /\
     le (cell r j) (cell (data_max_ sc) j)) /\
  (exists r, r ∈ rows df /\ cell (data_min_ sc) j = cell r j) /\
  (exists r, r ∈ rows df /\ cell (data_max_ sc) j = cell r j).
Proof.
  intros Hc Hne Hj sc.
  assert (Hw : length (hd [] (rows df)) = length (columns df)).
  { unfold clean in Hc. destruct (rows df) as [|r0 rs]; [done|].
    apply Forall_cons in Hc as [[Hlen _] _]. exact Hlen. }
  assert (Hmin : cell (data_min_ sc) j = col_min (rows df) j).
  { unfold sc, fitted. simpl. rewrite Hw. by apply cell_map_seq. }
  assert (Hmax : cell (data_max_ sc) j = col_max (rows df) j).
  { unfold sc, fitted. simpl. rewrite Hw. by apply cell_map_seq. }
  rewrite Hmin, Hmax. unfold col_min, col_max.
  pose proof (column_finite df j Hc Hj) as Hcol.
  assert (Hcne : column j (rows df) <> []).
  { intros Heq. apply (f_equal length) in Heq.
    rewrite length_column in Heq. by destruct (rows df). }
  destruct (col_min_spec _ Hcol Hcne) as (Hf1 & Hlo & Hin1).
  destruct (col_max_spec _ Hcol Hcne) as (Hf2 & Hhi & Hin2).
  repeat split; try done.
  - apply Hlo, elem_of_column. by exists r.
  - apply Hhi, elem_of_column. by exists r.
  - apply elem_of_column in Hin1 as (r & Hr & Heq). by exists r.
  - apply elem_of_column in Hin2 as (r & Hr & Heq). by exists r.
Qed.

(** C1 (amended). [prepare_data] fits the scaler on the whole table it is
    given, before any window or split exists: for every column the fitted
    bounds are the smallest and the largest cell over all rows, those that
    end up in validation and test windows included.  The windows and
    targets of the three parts of the split are all cut from the one table
    scaled with these bounds. *)
Theorem scaler_fit_on_whole_table self df target_column t :
  clean df -> rows df <> [] ->
  get_loc (columns df) target_column = Some t ->
  exists p sc,
    prepare_data self df target_column = Some p /\
    scaler (self_ p) = Some sc /\
    (forall j r, j < length (columns df) -> r ∈ rows df ->
       le (cell (data_min_ sc) j) (cell r j) /\
       le (cell r j) (cell (data_max_ sc) j)) /\
    (forall j, j < length (columns df) ->
       (exists r, r ∈ rows df /\ cell (data_min_ sc) j = cell r j) /\
       (exists r, r ∈ rows df /\ cell (data_max_ sc) j = cell r j)) /\
    let L := sequence_length self in
    let scaled := transform sc (rows df) in
    let anchors := seq L (length (rows df) - L) in
    let s := split_default (X_ p) (y_ p) in
    let te := train_end (length (X_ p)) Binary64.lit_0_7 in
    let ve := val_end (length (X_ p)) Binary64.lit_0_7 Binary64.lit_0_15 in
    X_train s = take te (map (fun i => window L i scaled) anchors) /\
    X_val s = slice te ve (map (fun i => window L i scaled) anchors) /\
    X_test s = drop ve (map (fun i => window L i scaled) anchors) /\
    y_train s = take te (map (fun i => cell (nth i scaled []) t) anchors) /\
    y_val s = slice te ve (map (fun i => cell (nth i scaled []) t) anchors) /\
    y_test s = drop ve (map (fun i => cell (nth i scaled []) t) anchors).
Proof.
  intros Hc Hne Ht.
  eexists. exists (fitted (rows df)).
  split; [by apply prepare_data_spec|].
  split; [reflexivity|].
  split; [|split].
  - intros j r Hj Hr.
    destruct (fitted_bounds df j Hc Hne Hj) as (_ & _ & Hb & _).
    by apply Hb.
  - intros j Hj.
    destruct (fitted_bounds df j Hc Hne Hj) as (_ & _ & _ & Hlo & Hhi).
    by split.
  - cbv zeta. cbn [X_ y_]. unfold split_default, split_data.
    cbn [X_train X_val X_test y_train y_val y_test].
    repeat split; reflexivity.
Qed.

(** C1 (amended) at a ten-row table: the last row, which only the test
    part uses, lies within the fitted bounds like every other row. *)
Lemma scaler_fit_on_whole_table_witness :
  exists p sc,
    prepare_data (init 1) Samples.steady "close" = Some p /\
    scaler (self_ p) = Some sc /\
    le (cell (data_min_ sc) 0) (Fin 10) /\
    le (Fin 10) (cell (data_max_ sc) 0).
Proof.
  destruct (scaler_fit_on_whole_table (init 1) Samples.steady "close" 0)
    as (p & sc & Hp & Hsc & Hb & _).
  - repeat constructor.
  - discriminate.
  - reflexivity.
  - exists p, sc. split; [exact Hp|]. split; [exact Hsc|].
    apply (Hb 0 [Fin 10]); [simpl; lia|].
    apply list_elem_of_In. vm_compute. tauto.
Defined.

(** C1 as stated fails.  The two tables share their first nine rows; with
    windows of one row the training part reads rows 0 to 6 only.  The
    fitted bounds differ all the same, and so does the scaled training
    data. *)
Lemma scaler_bounds_follow_test_rows :
  take 9 (rows Samples.steady) = take 9 (rows Samples.jump_at_end) /\
  exists pA pB,
    prepare_data (init 1) Samples.steady "close" = Some pA /\
    prepare_data (init 1) Samples.jump_at_end "close" = Some pB /\
    scaler (self_ pA) = Some (Scaler [Fin 1] [Fin 10]) /\
    scaler (self_ pB) = Some (Scaler [Fin 1] [Fin 100]) /\
    length (X_train (split_default (X_ pA) (y_ pA))) = 6 /\
    X_train (split_default (X_ pA) (y_ pA)) <>
    X_train (split_default (X_ pB) (y_ pB)).
Proof.
  split; [reflexivity|].
  eexists. eexists.
  split; [vm_compute; reflexivity|].
  split; [vm_compute; reflexivity|].
  split; [reflexivity|]. split; [reflexivity|].
  split; [reflexivity|]. vm_compute. discriminate.
Qed.

(** **** The scaled table *)

Lemma get_loc_new cols name :
  get_loc cols name = None ->
  get_loc (cols ++ [name]) name = Some (length cols).
Proof.
  induction cols as [|c cols IH]; simpl.
  - by rewrite String.eqb_refl.
  - destruct (String.eqb c name); [done|].
    destruct (get_loc cols name); [done|]. intros _. by rewrite IH.
Qed.

Lemma nth_transform sc X i :
  i < length X -> nth i (transform sc X) [] = transform_row sc (nth i X []).
Proof.
  intros Hi. unfold transform.
  rewrite !nth_lookup, list_lookup_fmap.
  destruct (lookup_lt_is_Some_2 X i Hi) as [r ->]. reflexivity.
Qed.

Lemma cell_transform_row sc r j :
  j < length r -> cell (transform_row sc r) j = transform_cell sc j (cell r j).
Proof.
  intros Hj. unfold cell, transform_row.
  rewrite !nth_lookup, list_lookup_imap.
  destruct (lookup_lt_is_Some_2 r j Hj) as [x ->]. reflexivity.
Qed.

Lemma window_transform sc L i X :
  window L i (transform sc X) = transform sc (window L i X).
Proof.
  unfold window, transform. by rewrite <- fmap_drop, <- fmap_take.
Qed.

Lemma nth_labelled_rows h j rs i :
  i + h < length rs ->
  nth i (labelled_rows h j rs) [] =
  nth i rs [] ++ [cell (nth (i + h) rs []) j].
Proof.
  intros Hi.
  destruct (lookup_lt_is_Some_2 rs i ltac:(lia)) as [r Hr].
  destruct (lookup_lt_is_Some_2 rs (i + h) Hi) as [r' Hr'].
  rewrite !nth_lookup, (lookup_labelled_rows h j rs i r r' Hr Hr').
  by rewrite Hr, Hr'.
Qed.

Lemma nth_map_seq {A} (f : nat -> A) d L n k :
  k < n -> nth k (map f (seq L n)) d = f (L + k).
Proof.
  intros Hk. rewrite nth_lookup, list_lookup_fmap.
  by rewrite lookup_seq_lt.
Qed.

Lemma clean_nth df i :
  clean df -> i < length (rows df) ->
  length (nth i (rows df) []) = length (columns df) /\
  Forall finite (nth i (rows df) []).
Proof.
  intros Hc Hi. unfold clean in Hc. rewrite Forall_forall in Hc.
  apply Hc. apply list_elem_of_In. by apply nth_In.
Qed.

Lemma cell_snoc r x : cell (r ++ [x]) (length r) = x.
Proof. unfold cell. rewrite app_nth2 by lia. by rewrite Nat.sub_diag. Qed.

(** The label of the sample anchored at row [i] of a horizon table is the
    scaled close price of row [i + h] of the feature table. *)
Lemma label_of_anchor df h j sc i :
  clean df -> j < length (columns df) -> i + h < length (rows df) ->
  cell (nth i (transform sc (labelled_rows h j (rows df))) [])
       (length (columns df)) =
  transform_cell sc (length (columns df))
                 (cell (nth (i + h) (rows df) []) j).
Proof.
  intros Hc Hj Hi.
  rewrite nth_transform by (rewrite length_labelled_rows; lia).
  rewrite nth_labelled_rows by done.
  destruct (clean_nth df i Hc ltac:(lia)) as [Hlen _].
  rewrite cell_transform_row by (rewrite length_app, Hlen; simpl; lia).
  by rewrite <- Hlen, cell_snoc.
Qed.

Lemma take_drop_nth {A} (l : list A) d k L :
  k + L <= length l ->
  take L (drop k l) = map (fun i => nth i l d) (seq k L).
Proof.
  intros Hlen. apply list_eq. intros i.
  rewrite list_lookup_fmap.
  destruct (decide (i < L)) as [Hi|Hi].
  - rewrite lookup_take_lt, lookup_drop, lookup_seq_lt by done. simpl.
    destruct (lookup_lt_is_Some_2 l (k + i) ltac:(lia)) as [x Hx].
    by rewrite nth_lookup, Hx.
  - rewrite lookup_take_ge, lookup_seq_ge by lia. reflexivity.
Qed.

(** C2 (amended). The input window of the sample anchored at row
    [i = L + k] of the horizon table is made of the [L] rows before the
    anchor, rows [i - L] to [i - 1], scaled; each of them holds its
    FeatureRow values followed by its own target, the close price [h] rows
    later.  The label of the sample is the target of row [i] itself, a cell
    outside the window. *)
Theorem window_of_anchor df h L j :
  clean df ->
  get_loc (columns df) "close" = Some j ->
  get_loc (columns df) "target" = None ->
  h < length (rows df) ->
  let N := length (rows df) in
  let t := length (columns df) in
  let close i := cell (nth i (rows df) []) j in
  exists dfs p sc,
    horizon_table df h = Some dfs /\
    prepare_data (init L) dfs "target" = Some p /\
    scaler (self_ p) = Some sc /\
    forall k, k < N - h - L ->
      nth k (X_ p) [] =
        transform sc (map (fun i => nth i (rows df) [] ++ [close (i + h)])
                          (seq k L)) /\
      nth k (y_ p) NaN = transform_cell sc t (close (L + k + h)).
Proof.
  intros Hc Hclose Htarget Hh N t close.
  pose proof (get_loc_lt _ _ _ Hclose) as Hj.
  set (dfs := DF (columns df ++ ["target"%string])
                 (labelled_rows h j (rows df))).
  assert (Hcs : clean dfs) by (by apply labelled_rows_clean).
  assert (Hlen : length (rows dfs) = N - h)
    by apply length_labelled_rows.
  assert (Hne : rows dfs <> []).
  { intros Heq. rewrite Heq in Hlen. simpl in Hlen. unfold N in Hlen. lia. }
  assert (Ht : get_loc (columns dfs) "target" = Some t)
    by (by apply get_loc_new).
  exists dfs. eexists. exists (fitted (rows dfs)).
  split; [by apply horizon_table_rows|].
  split; [by apply (prepare_data_spec (init L) dfs "target" t)|].
  cbv zeta. cbn [self_ scaler X_ y_ sequence_length init].
  split; [reflexivity|].
  intros k Hk. rewrite Hlen. split.
  - rewrite nth_map_seq by done. rewrite window_transform. f_equal.
    unfold window. replace (L + k - L) with k by lia.
    rewrite (take_drop_nth _ []) by (rewrite Hlen; lia).
    apply map_ext_in. intros i Hi%in_seq.
    apply nth_labelled_rows. fold N. lia.
  - rewrite nth_map_seq by done.
    apply (label_of_anchor df h j); [done | done | fold N; lia].
Qed.

(** C2 (amended) at a seven-row table, horizon 2, windows of one row:
    the window of the sample anchored at row 2 is row 1 with its target,
    the close of row 3. *)
Lemma window_of_anchor_witness :
  exists dfs p sc,
    horizon_table Samples.week 2 = Some dfs /\
    prepare_data (init 1) dfs "target" = Some p /\
    scaler (self_ p) = Some sc /\
    nth 1 (X_ p) [] = transform sc [[Fin 20; Fin 14]].
Proof.
  destruct (window_of_anchor Samples.week 2 1 0)
    as (dfs & p & sc & Hd & Hp & Hsc & Hw).
  - repeat constructor.
  - reflexivity.
  - reflexivity.
  - simpl. lia.
  - exists dfs, p, sc.
    destruct (Hw 1) as [HX _]; [simpl; lia|].
    exact (conj Hd (conj Hp (conj Hsc HX))).
Defined.

(** C2 as stated fails.  The two feature tables agree on rows 0 to 2 and
    give the same fitted scaler, yet the input window of the sample
    anchored at row 2 differs: it holds the target of row 1, the close
    price of row 3.  A window row is one cell wider than a FeatureRow. *)
Lemma window_holds_later_closes :
  take 3 (rows Samples.week) = take 3 (rows Samples.week_changed) /\
  exists dA pA dB pB,
    horizon_table Samples.week 2 = Some dA /\
    prepare_data (init 1) dA "target" = Some pA /\
    horizon_table Samples.week_changed 2 = Some dB /\
    prepare_data (init 1) dB "target" = Some pB /\
    scaler (self_ pA) = scaler (self_ pB) /\
    nth 1 (X_ pA) [] <> nth 1 (X_ pB) [] /\
    Forall (fun r => length r = 2) (nth 1 (X_ pA) []) /\
    length (columns Samples.week) = 1.
Proof.
  split; [reflexivity|].
  do 4 eexists.
  split; [vm_compute; reflexivity|].
  split; [vm_compute; reflexivity|].
  split; [vm_compute; reflexivity|].
  split; [vm_compute; reflexivity|].
  split; [reflexivity|].
  split; [vm_compute; discriminate|].
  split; [|reflexivity]. vm_compute. repeat constructor.
Qed.

End SequenceFacts.

Section HorizonPairs.
Import Float Sequences.

Variable df : DataFrame.
Variable j : nat.
Hypothesis Hclean : clean df.
Hypothesis Hclose : get_loc (columns df) "close" = Some j.
Hypothesis Htarget : get_loc (columns df) "target" = None.

Local Abbreviation N := (length (rows df)).
Local Abbreviation t := (length (columns df)).
Local Abbreviation close := (fun i => cell (nth i (rows df) []) j).
Local Abbreviation samples :=
  (gmap nat (list (list (list num)) * list num)).

(** What one pass stores under its horizon. *)
Local Abbreviation stored L h :=
  (map (fun i => window L i
                   (transform (fitted (labelled_rows h j (rows df)))
                      (labelled_rows h j (rows df))))
       (seq L (N - h - L)),
   map (fun i => cell (nth i (transform
                              (fitted (labelled_rows h j (rows df)))
                              (labelled_rows h j (rows df))) []) t)
       (seq L (N - h - L))).




End HorizonPairs.

Section HorizonPairExamples.
Import Float Sequences.



End HorizonPairExamples.

Section SharedScaler.
Import Float Sequences.

(** [create_multi_horizon_targets] refits the one scaler object for every
    horizon, so when the loop is over the scaler that each entry refers to
    holds the bounds of the last horizon only.  With horizons 1 and 2 the
    target column of horizon 1 reaches up to 20, but the scaler kept says
    15, the largest target of horizon 2. *)
Example shared_scaler_keeps_last_fit :
  exists results self',
    create_multi_horizon_targets (init 1) Samples.week [1; 2]
      = Some (results, self') /\
    scaler self' = Some (Scaler [Fin 10; Fin 11] [Fin 20; Fin 15]) /\
    (dfs ← horizon_table Samples.week 1; fit (rows dfs))
      = Some (Scaler [Fin 10; Fin 11] [Fin 20; Fin 20]).
Proof.
  do 2 eexists. split; [vm_compute; reflexivity|].
  split; reflexivity.
Qed.

End SharedScaler.

(* ------------------------------------------------------------------ *)
(** *** The feature engine reads the past only *)

Section WalkFacts.
Import Float Features.

Lemma lagged_conv {A B} a b (F : list A -> list B) :
  lagged a F -> a = b -> lagged b F.
Proof. by intros H <-. Qed.

Lemma windows_take {A} p (xs : list A) m :
  1 <= p -> windows p (take m xs) = take (m - (p - 1)) (windows p xs).
Proof.
  intros Hp. unfold windows. rewrite <- fmap_take, take_seq, length_take.
  replace ((m - (p - 1)) `min` (length xs + 1 - p))
    with (m `min` length xs + 1 - p) by lia.
  apply map_ext_in. intros i Hi%in_seq.
  rewrite !take_drop_commute, take_take. do 2 f_equal. lia.
Qed.

Lemma length_windows {A} p (xs : list A) :
  length (windows p xs) = length xs + 1 - p.
Proof. unfold windows. by rewrite length_map, length_seq. Qed.

Lemma lagged_rolling {A B} p (g : list A -> B) :
  1 <= p -> lagged (p - 1) (rolling p g).
Proof.
  intros Hp. split; intros xs.
  - unfold rolling. rewrite length_map, length_windows. lia.
  - intros m. unfold rolling. rewrite windows_take by done.
    by rewrite fmap_take.
Qed.

Lemma length_scan {A St} (step : St -> A -> St) s xs :
  length (scan step s xs) = S (length xs).
Proof. revert s. induction xs as [|x xs IH]; intros s; simpl; by rewrite ?IH. Qed.

Lemma scan_take {A St} (step : St -> A -> St) s xs m :
  scan step s (take m xs) = take (S m) (scan step s xs).
Proof.
  revert s m. induction xs as [|x xs IH]; intros s m.
  - by destruct m.
  - destruct m as [|m]; [done|]. simpl. by rewrite IH.
Qed.

Lemma lagged_seeded {A St B} lb (init : list A -> St) step (out : St -> B) :
  lagged lb (seeded lb init step out).
Proof.
  split; intros xs.
  - unfold seeded. destruct (Nat.leb_spec (length xs) lb); simpl; [lia|].
    rewrite length_map, length_scan, length_drop. lia.
  - intros m. unfold seeded. rewrite length_take.
    destruct (Nat.leb_spec (length xs) lb) as [Hle|Hgt].
    + destruct (Nat.leb_spec (m `min` length xs) lb); [|lia].
      by rewrite take_nil.
    + destruct (Nat.leb_spec (m `min` length xs) lb) as [Hle'|Hgt'].
      * replace (m - lb) with 0 by lia. by rewrite take_0.
      * rewrite take_take. replace (S lb `min` m) with (S lb) by lia.
        rewrite <- fmap_take. f_equal.
        replace (m - lb) with (S (m - S lb)) by lia.
        rewrite <- scan_take. f_equal.
        rewrite take_drop_commute. f_equal. f_equal. lia.
Qed.

Lemma lagged_compose {A B C} a b (F : list A -> list B) (G : list B -> list C) :
  lagged a F -> lagged b G -> lagged (a + b) (fun xs => G (F xs)).
Proof.
  intros [HlF HtF] [HlG HtG]. split; intros xs.
  - rewrite HlG, HlF. lia.
  - intros m. rewrite HtF, HtG. f_equal. lia.
Qed.

Lemma lagged_drop {A B} a k (F : list A -> list B) :
  lagged a F -> lagged (a + k) (fun xs => drop k (F xs)).
Proof.
  intros [HlF HtF]. split; intros xs.
  - rewrite length_drop, HlF. lia.
  - intros m. rewrite HtF, take_drop_commute.
    destruct (decide (k <= m - a)) as [Hk|Hk].
    + do 2 f_equal. lia.
    + rewrite !drop_ge; [done | |]; rewrite length_take; lia.
Qed.

Lemma lagged_zip_with {A B C D} a (f : B -> C -> D)
  (F : list A -> list B) (G : list A -> list C) :
  lagged a F -> lagged a G -> lagged a (fun xs => zip_with f (F xs) (G xs)).
Proof.
  intros [HlF HtF] [HlG HtG]. split; intros xs.
  - rewrite length_zip_with, HlF, HlG. lia.
  - intros m. by rewrite HtF, HtG, zip_with_take.
Qed.

Lemma lagged_premap {A A' B} a (f : A' -> A) (F : list A -> list B) :
  lagged a F -> lagged a (fun xs => F (map f xs)).
Proof.
  intros [HlF HtF]. split; intros xs.
  - by rewrite HlF, length_map.
  - intros m. by rewrite <- HtF, fmap_take.
Qed.






End WalkFacts.

Section IndicatorLags.
Import Float Features.

Lemma lagged_map0 {A B} (f : A -> B) : lagged 0 (map f).
Proof.
  split; intros xs.
  - rewrite length_map. lia.
  - intros m. by rewrite fmap_take, Nat.sub_0_r.
Qed.

Lemma lagged_SMA p : 1 <= p -> lagged (p - 1) (SMA p).
Proof. apply lagged_rolling. Qed.

Lemma lagged_TA_INT_EMA start p k :
  lagged (Nat.max start (p - 1)) (TA_INT_EMA start p k).
Proof. apply lagged_seeded. Qed.

Lemma lagged_EMA p : lagged (p - 1) (EMA p).
Proof. apply (lagged_TA_INT_EMA 0 p). Qed.

Lemma lagged_RSI p : lagged p (RSI p).
Proof. apply lagged_seeded. Qed.

Lemma lagged_macd_line : lagged 25 (macd_line 12 26).
Proof.
  apply (lagged_zip_with 25 _ (TA_INT_EMA 25 12 _) (TA_INT_EMA 25 26 _)).
  - apply (lagged_TA_INT_EMA 25 12).
  - apply (lagged_TA_INT_EMA 25 26).
Qed.

Lemma lagged_MACD_macd : lagged 33 (MACD_macd 12 26 9).
Proof. apply (lagged_drop 25 8 _ lagged_macd_line). Qed.

Lemma lagged_MACD_signal : lagged 33 (MACD_signal 12 26 9).
Proof.
  apply (lagged_compose 25 8 (macd_line 12 26) (EMA 9) lagged_macd_line).
  apply (lagged_EMA 9).
Qed.

Lemma lagged_MACD_hist : lagged 33 (MACD_hist 12 26 9).
Proof.
  apply (lagged_zip_with 33 _ (MACD_macd 12 26 9) (MACD_signal 12 26 9)).
  - apply lagged_MACD_macd.
  - apply lagged_MACD_signal.
Qed.

Lemma lagged_slowk_full : lagged 15 (STOCH_slowk_full 14 3).
Proof.
  apply (lagged_compose 13 2 (rolling 14 fastk_of) (SMA 3)).
  - apply (lagged_rolling 14). lia.
  - apply (lagged_SMA 3). lia.
Qed.

Lemma lagged_STOCH_slowd : lagged 17 (STOCH_slowd 14 3 3).
Proof.
  apply (lagged_compose 15 2 (STOCH_slowk_full 14 3) (SMA 3)
           lagged_slowk_full).
  apply (lagged_SMA 3). lia.
Qed.

Lemma lagged_STOCH_slowk : lagged 17 (STOCH_slowk 14 3 3).
Proof. apply (lagged_drop 15 2 _ lagged_slowk_full). Qed.

Lemma lagged_ROC p : lagged p (ROC p).
Proof.
  apply (lagged_conv (S p - 1)); [|lia].
  apply (lagged_rolling (S p)). lia.
Qed.

Lemma lagged_CCI p : 1 <= p -> lagged (p - 1) (CCI p).
Proof. apply lagged_rolling. Qed.

Lemma lagged_ATR p : lagged p (ATR p).
Proof. apply lagged_seeded. Qed.

Lemma lagged_OBV : lagged 0 OBV.
Proof. apply lagged_seeded. Qed.

Lemma lagged_AD : lagged 0 AD.
Proof. apply lagged_seeded. Qed.

Lemma lagged_BB_upper sqrt p : 1 <= p -> lagged (p - 1) (BB_upper sqrt p).
Proof. apply lagged_rolling. Qed.

Lemma lagged_BB_lower sqrt p : 1 <= p -> lagged (p - 1) (BB_lower sqrt p).
Proof. apply lagged_rolling. Qed.

End IndicatorLags.

Ltac lagged_indicator :=
  first
    [ apply lagged_SMA; lia
    | apply lagged_EMA
    | apply lagged_RSI
    | apply lagged_MACD_macd
    | apply lagged_MACD_signal
    | apply lagged_MACD_hist
    | apply lagged_STOCH_slowk
    | apply lagged_STOCH_slowd
    | apply lagged_ROC
    | apply lagged_CCI; lia
    | apply lagged_ATR
    | apply lagged_OBV
    | apply lagged_AD
    | apply lagged_BB_upper; lia
    | apply lagged_BB_lower; lia ].

Ltac unfold_wrappers :=
  cbn [fst snd];
  unfold Features.closes, Features.bb, Features.talib_SMA,
    Features.talib_EMA, Features.talib_RSI, Features.talib_MACD,
    Features.talib_STOCH, Features.talib_ROC, Features.talib_CCI,
    Features.talib_ATR, Features.talib_OBV, Features.talib_AD,
    Features.talib_BBANDS, Features.BB_middle;
  cbn [fst snd].

Section ColumnFacts.
Import Float Features.

Variable sqrt : Q -> Q.

Lemma all_columns_eq bars :
  all_columns sqrt bars =
  map (fun nf => (nf.1, nf.2 bars)) (column_functions sqrt).
Proof. reflexivity. Qed.











End ColumnFacts.

(* ------------------------------------------------------------------ *)
(** *** Which rows survive [dropna] *)

Section CellFacts.
Import Float Features.

Lemma length_talib {A} lb (F : list A -> list Q) xs :
  lagged lb F -> length (talib lb (F xs) (length xs)) = length xs.
Proof.
  intros [HlF _]. unfold talib.
  rewrite length_take, length_app, length_replicate, length_map, HlF. lia.
Qed.

Lemma nth_talib {A} lb (F : list A -> list Q) xs i :
  lagged lb F -> lb <= i < length xs ->
  nth i (talib lb (F xs) (length xs)) NaN = Fin (nth (i - lb) (F xs) 0%Q).
Proof.
  intros [HlF _] Hi. unfold talib.
  rewrite !nth_lookup, lookup_take_lt by lia.
  rewrite lookup_app_r; rewrite length_replicate; [|lia].
  rewrite list_lookup_fmap.
  destruct (lookup_lt_is_Some_2 (F xs) (i - lb)) as [q ->]; [|done].
  rewrite HlF. lia.
Qed.

Lemma nth_talib_warmup lb outputs n i :
  i < lb -> nth i (talib lb outputs n) NaN = NaN.
Proof.
  intros Hi. unfold talib. rewrite nth_lookup.
  destruct (decide (i < n)) as [Hn|Hn].
  - rewrite lookup_take_lt by done.
    rewrite lookup_app_l by (rewrite length_replicate; lia).
    by rewrite lookup_replicate_2.
  - by rewrite lookup_take_ge by lia.
Qed.

Lemma nth_rolling {A B} p (g : list A -> B) xs d j :
  j < length xs + 1 - p ->
  nth j (rolling p g xs) d = g (take p (drop j xs)).
Proof.
  intros Hj. unfold rolling, windows.
  rewrite nth_lookup, !list_lookup_fmap, lookup_seq_lt by done.
  reflexivity.
Qed.

Lemma nth_series f bars i d :
  i < length bars -> nth i (series f bars) NaN = Fin (f (nth i bars d)).
Proof.
  intros Hi. unfold series. rewrite !nth_lookup, list_lookup_fmap.
  by destruct (lookup_lt_is_Some_2 bars i Hi) as [b ->].
Qed.

Lemma nth_zip_num (f : num -> num -> num) xs ys i :
  i < length xs -> i < length ys ->
  nth i (zip_with f xs ys) NaN = f (nth i xs NaN) (nth i ys NaN).
Proof.
  intros Hx Hy. rewrite !nth_lookup, lookup_zip_with.
  destruct (lookup_lt_is_Some_2 xs i Hx) as [x ->].
  by destruct (lookup_lt_is_Some_2 ys i Hy) as [y ->].
Qed.

Lemma length_shift k xs : length (shift k xs) = length xs.
Proof.
  unfold shift. rewrite length_take, length_app, length_replicate. lia.
Qed.

Lemma nth_shift k xs i :
  k <= i < length xs -> nth i (shift k xs) NaN = nth (i - k) xs NaN.
Proof.
  intros Hi. unfold shift.
  rewrite !nth_lookup, lookup_take_lt by lia.
  by rewrite lookup_app_r; rewrite length_replicate; [|lia].
Qed.

Lemma length_series f bars : length (series f bars) = length bars.
Proof. unfold series. apply length_map. Qed.

End CellFacts.

Section MeanFacts.
Import Float Features.

Lemma qsum_from_pos w a :
  Forall (fun x => 0 < x)%Q w -> (0 <= a)%Q ->
  (a <= fold_left (fun a x => Qred (a + x)) w a)%Q /\
  (w <> [] -> a < fold_left (fun a x => Qred (a + x)) w a)%Q.
Proof.
  intros Hw. revert a. induction Hw as [|x w Hx _ IH]; intros a Ha; simpl.
  - split; [apply Qle_refl | done].
  - assert (Hstep : (a < Qred (a + x))%Q) by (rewrite Qred_correct; lra).
    destruct (IH (Qred (a + x)) ltac:(lra)) as [Hle _].
    split; [lra | intros _; lra].
Qed.

Lemma of_len_pos {A} (w : list A) : w <> [] -> (0 < of_len w)%Q.
Proof.
  intros Hw. unfold of_len. destruct w; [done|].
  unfold Qlt. simpl. lia.
Qed.

Lemma mean_pos w :
  w <> [] -> Forall (fun x => 0 < x)%Q w -> (0 < mean w)%Q.
Proof.
  intros Hne Hw. unfold mean, qsum. rewrite Qred_correct.
  destruct (qsum_from_pos w 0 Hw ltac:(lra)) as [_ Hlt].
  apply Qlt_shift_div_l; [by apply of_len_pos|].
  rewrite Qmult_0_l. by apply Hlt.
Qed.

Lemma positive_bar_spec b :
  positive_bar b = true ->
  (0 < open b)%Q /\ (0 < close b)%Q /\ (0 < volume b)%Q.
Proof.
  unfold positive_bar. rewrite !andb_true_iff, !negb_true_iff.
  intros [[Ho Hc] Hv].
  repeat split; apply Qnot_le_lt; intros Hle%Qle_bool_iff; congruence.
Qed.

Lemma window_nonempty {A} (xs : list A) p j :
  1 <= p -> j + p <= length xs -> take p (drop j xs) <> [].
Proof.
  intros Hp Hj Heq. apply (f_equal length) in Heq.
  rewrite length_take, length_drop in Heq. simpl in Heq. lia.
Qed.

Lemma window_forall {A} (P : A -> Prop) (xs : list A) p j :
  Forall P xs -> Forall P (take p (drop j xs)).
Proof. intros H. by apply Forall_take, Forall_drop. Qed.

End MeanFacts.

Section RowFacts.
Import Float Features.

Variable sqrt : Q -> Q.
Hypothesis sqrt_pos : forall x, (0 < x)%Q -> (0 < sqrt x)%Q.
Variable bars : list Bar.
Hypothesis Hpos : forallb positive_bar bars = true.

Local Abbreviation bar j := (nth j bars (mkBar 0 0 0 0 0)).

Lemma bar_positive j :
  j < length bars ->
  (0 < open (bar j))%Q /\ (0 < close (bar j))%Q /\ (0 < volume (bar j))%Q.
Proof.
  intros Hj. apply positive_bar_spec.
  rewrite forallb_forall in Hpos. apply Hpos. by apply nth_In.
Qed.

Lemma field_positive (f : Bar -> Q) :
  (forall b, positive_bar b = true -> (0 < f b)%Q) ->
  Forall (fun x => 0 < x)%Q (map f bars).
Proof.
  intros Hf. apply Forall_forall. intros x Hx.
  apply list_elem_of_In, in_map_iff in Hx as (b & <- & Hb).
  apply Hf. rewrite forallb_forall in Hpos. by apply Hpos.
Qed.

Lemma nth_fin_lt (xs : list num) j q : nth j xs NaN = Fin q -> j < length xs.
Proof.
  intros H. destruct (decide (j < length xs)); [done|].
  rewrite nth_overflow in H by lia. done.
Qed.

Lemma series_cell f j :
  j < length bars -> nth j (series f bars) NaN = Fin (f (bar j)).
Proof. apply nth_series. Qed.

Lemma talib_of_cell {A} (f : Bar -> A) lb (F : list A -> list Q) j :
  lagged lb F -> lb <= j < length bars ->
  exists q, nth j (talib lb (F (map f bars)) (length (map f bars))) NaN
            = Fin q.
Proof.
  intros HF Hj. rewrite nth_talib by (rewrite ?length_map; done). eauto.
Qed.

Lemma talib_bars_cell lb (F : list Bar -> list Q) j :
  lagged lb F -> lb <= j < length bars ->
  exists q, nth j (talib lb (F bars) (length bars)) NaN = Fin q.
Proof. intros HF Hj. rewrite nth_talib by done. eauto. Qed.

Lemma sma_cell (f : Bar -> Q) p j :
  1 <= p -> p - 1 <= j < length bars ->
  (forall b, positive_bar b = true -> (0 < f b)%Q) ->
  exists q, nth j (talib_SMA p (map f bars)) NaN = Fin q /\ (0 < q)%Q.
Proof.
  intros Hp Hj Hf. unfold talib_SMA.
  rewrite nth_talib; [|by apply lagged_SMA | by rewrite length_map].
  unfold SMA. rewrite nth_rolling by (rewrite length_map; lia).
  eexists. split; [reflexivity|]. apply mean_pos.
  - apply window_nonempty; [done | rewrite length_map; lia].
  - apply window_forall. by apply field_positive.
Qed.

Lemma minus_cell xs ys j a b :
  nth j xs NaN = Fin a -> nth j ys NaN = Fin b ->
  nth j (minus xs ys) NaN = Fin (Qred (a + Qred (- b))).
Proof.
  intros Hx Hy. unfold minus.
  rewrite nth_zip_num by (eapply nth_fin_lt; eauto).
  by rewrite Hx, Hy.
Qed.

Lemma ratio_cell xs ys j a b :
  nth j xs NaN = Fin a -> nth j ys NaN = Fin b -> ~ (b == 0)%Q ->
  nth j (ratio xs ys) NaN = Fin (Qred (a / b)).
Proof.
  intros Hx Hy Hb. unfold ratio.
  rewrite nth_zip_num by (eapply nth_fin_lt; eauto).
  rewrite Hx, Hy. apply div_fin.
  destruct (Qzero b) eqn:E; [|done]. by apply Qzero_spec in E.
Qed.

Lemma pct_cell k j :
  k <= j < length bars ->
  exists q, nth j (pct_change k (closes bars)) NaN = Fin q.
Proof.
  intros Hj. unfold pct_change, closes.
  rewrite nth_zip_num by (rewrite ?length_shift, length_series; lia).
  rewrite nth_shift by (rewrite length_series; lia).
  rewrite !series_cell by lia.
  destruct (bar_positive (j - k)) as (_ & Hc & _); [lia|].
  rewrite div_fin by (by apply Qzero_pos). rewrite sub_fin. eauto.
Qed.

Lemma bb_cells j :
  19 <= j < length bars ->
  let w := take 20 (drop (j - 19) (map close bars)) in
  nth j (bb sqrt bars).1.1 NaN = Fin (Qred (mean w + 2 * stddev sqrt w)) /\
  nth j (bb sqrt bars).1.2 NaN = Fin (mean w) /\
  nth j (bb sqrt bars).2 NaN = Fin (Qred (mean w - 2 * stddev sqrt w)).
Proof.
  intros Hj w. unfold bb, talib_BBANDS, BB_middle. cbn [fst snd].
  rewrite !nth_talib
    by first [lagged_indicator | rewrite length_map; simpl; lia].
  unfold BB_upper, BB_lower, SMA.
  rewrite !nth_rolling by (rewrite length_map; lia).
  done.
Qed.

Lemma stddev_pos j :
  lively bars j = true ->
  (0 < stddev sqrt (take 20 (drop (j - 19) (map close bars))))%Q.
Proof.
  unfold lively, stddev. intros Hl%negb_true_iff. rewrite Hl.
  apply sqrt_pos. unfold ta_is_zero_or_neg in Hl.
  apply negb_false_iff, Qle_bool_iff in Hl.
  eapply Qlt_le_trans; [|exact Hl]. reflexivity.
Qed.

Lemma window_mean_pos j :
  19 <= j < length bars ->
  (0 < mean (take 20 (drop (j - 19) (map close bars))))%Q.
Proof.
  intros Hj. apply mean_pos.
  - apply window_nonempty; [lia | rewrite length_map; lia].
  - apply window_forall, field_positive.
    intros b Hb. by apply positive_bar_spec in Hb as (_ & Hc & _).
Qed.

Lemma bb_width_cell j :
  19 <= j < length bars ->
  exists q,
    nth j (ratio (minus (bb sqrt bars).1.1 (bb sqrt bars).2)
                 (bb sqrt bars).1.2) NaN = Fin q.
Proof.
  intros Hj. destruct (bb_cells j Hj) as (Hu & Hm & Hl).
  eexists. eapply ratio_cell; [by eapply minus_cell | exact Hm |].
  pose proof (window_mean_pos j Hj). lra.
Qed.

Lemma bb_position_cell j :
  19 <= j < length bars -> lively bars j = true ->
  exists q,
    nth j (ratio (minus (closes bars) (bb sqrt bars).2)
                 (minus (bb sqrt bars).1.1 (bb sqrt bars).2)) NaN = Fin q.
Proof.
  intros Hj Hlive. destruct (bb_cells j Hj) as (Hu & Hm & Hl).
  eexists. eapply ratio_cell.
  - eapply minus_cell; [apply series_cell; lia | exact Hl].
  - by eapply minus_cell.
  - pose proof (stddev_pos j Hlive). rewrite !Qred_correct. lra.
Qed.

Lemma hl_spread_cell j :
  j < length bars ->
  exists q,
    nth j (ratio (minus (series high bars) (series low bars))
                 (closes bars)) NaN = Fin q.
Proof.
  intros Hj. eexists. eapply ratio_cell.
  - eapply minus_cell; by apply series_cell.
  - by apply series_cell.
  - destruct (bar_positive j Hj) as (_ & Hc & _). lra.
Qed.

Lemma oc_spread_cell j :
  j < length bars ->
  exists q,
    nth j (ratio (minus (closes bars) (series open bars))
                 (series open bars)) NaN = Fin q.
Proof.
  intros Hj. eexists. eapply ratio_cell.
  - eapply minus_cell; by apply series_cell.
  - by apply series_cell.
  - destruct (bar_positive j Hj) as (Ho & _ & _). lra.
Qed.

Lemma dist_sma_cell p j :
  1 <= p -> p - 1 <= j < length bars ->
  exists q,
    nth j (ratio (minus (closes bars) (talib_SMA p (map close bars)))
                 (talib_SMA p (map close bars))) NaN = Fin q.
Proof.
  intros Hp Hj.
  destruct (sma_cell close p j Hp Hj) as (m & Hm & Hm0).
  { intros b Hb. by apply positive_bar_spec in Hb as (_ & Hc & _). }
  eexists. eapply ratio_cell; [|exact Hm | lra].
  eapply minus_cell; [apply series_cell; lia | exact Hm].
Qed.

Lemma volume_ratio_cell j :
  19 <= j < length bars ->
  exists q,
    nth j (ratio (series volume bars) (talib_SMA 20 (map volume bars))) NaN
    = Fin q.
Proof.
  intros Hj.
  destruct (sma_cell volume 20 j ltac:(lia) ltac:(lia)) as (m & Hm & Hm0).
  { intros b Hb. by apply positive_bar_spec in Hb as (_ & _ & Hv). }
  eexists. eapply ratio_cell; [apply series_cell; lia | exact Hm | lra].
Qed.

Lemma finite_values_some w :
  Forall finite w -> exists qs, finite_values w = Some qs.
Proof.
  unfold finite_values.
  induction 1 as [|x w Hx _ [qs IH]]; [by exists []|].
  apply finite_inv in Hx as [q ->]. exists (q :: qs).
  cbn. by rewrite IH.
Qed.

Lemma volatility_cell j :
  20 <= j < length bars ->
  exists q,
    nth j (rolling_std sqrt 20 (pct_change 1 (closes bars))) NaN = Fin q.
Proof.
  intros Hj. set (pc := pct_change 1 (closes bars)).
  assert (Hlen : length pc = length bars).
  { unfold pc, pct_change, closes.
    rewrite length_zip_with, length_shift, length_series. lia. }
  unfold rolling_std.
  rewrite nth_lookup, lookup_take_lt by lia.
  rewrite lookup_app_r; rewrite length_replicate; [|lia].
  rewrite <- nth_lookup. rewrite nth_rolling by lia.
  unfold sample_std.
  destruct (finite_values_some (take 20 (drop (j - (20 - 1)) pc)))
    as [qs ->]; [|eauto].
  apply Forall_forall. intros x Hx.
  apply elem_of_take in Hx as (t & Hx & Ht).
  rewrite lookup_drop in Hx.
  destruct (pct_cell 1 (j - (20 - 1) + t) ltac:(lia)) as [q Hq].
  fold pc in Hq. rewrite nth_lookup, Hx in Hq. simpl in Hq.
  by rewrite Hq.
Qed.

Lemma cell_defined x : (exists q, x = Fin q) -> is_nan x = false.
Proof. by intros [q ->]. Qed.

(** After the 199 bars of warm-up, a row of a series with positive prices
    and volumes has a number in every column as soon as its twenty closes
    are not flat. *)
Lemma row_defined i :
  199 <= i < length bars -> lively bars i = true ->
  Forall (fun nf => is_nan (nth i (nf.2 bars) NaN) = false)
         (column_functions sqrt).
Proof.
  intros Hi Hlive. unfold column_functions.
  repeat (apply Forall_cons; split;
          [ cbn [fst snd]; apply cell_defined;
            first
              [ by (eexists; apply series_cell; lia)
              | by (apply pct_cell; lia)
              | by (apply hl_spread_cell; lia)
              | by (apply oc_spread_cell; lia)
              | by (apply dist_sma_cell; lia)
              | by (apply bb_width_cell; lia)
              | by (apply bb_position_cell; [lia | done])
              | by (apply volatility_cell; lia)
              | by (apply volume_ratio_cell; lia)
              | by (destruct (bb_cells i ltac:(lia)) as (Hu & Hm & Hl);
                    eauto)
              | (unfold_wrappers;
                 first
                   [ apply talib_of_cell;
                       [lagged_indicator
                       | unfold macd_lookback, stoch_lookback; lia]
                   | apply talib_bars_cell;
                       [lagged_indicator
                       | unfold macd_lookback, stoch_lookback; lia] ]) ]
          |]).
  by apply Forall_nil.
Qed.

(** During the warm-up the 200-bar average is NaN. *)
Lemma sma_200_warmup i :
  i < 199 -> nth i (talib_SMA 200 (map close bars)) NaN = NaN.
Proof. intros Hi. unfold talib_SMA. by apply nth_talib_warmup. Qed.

End RowFacts.

Section TableFacts.
Import Float Features.

Variable sqrt : Q -> Q.

Lemma row_at_columns bars i :
  row_at (all_columns sqrt bars) i =
  map (fun nf => nth i (nf.2 bars) NaN) (column_functions sqrt).
Proof. reflexivity. Qed.

Lemma no_nan_row bars i :
  Forall (fun nf => is_nan (nth i (nf.2 bars) NaN) = false)
         (column_functions sqrt) ->
  no_nan (row_at (all_columns sqrt bars) i) = true.
Proof.
  intros H. rewrite row_at_columns. unfold no_nan.
  apply forallb_forall. intros x Hx.
  apply in_map_iff in Hx as (nf & <- & Hnf).
  rewrite Forall_forall in H. rewrite H; [done|].
  by apply list_elem_of_In.
Qed.

(** A row of the warm-up has NaN in the column of the 200-bar average. *)
Lemma warmup_row_has_nan bars i :
  i < 199 -> no_nan (row_at (all_columns sqrt bars) i) = false.
Proof.
  intros Hi. rewrite row_at_columns. unfold no_nan.
  destruct (forallb _ _) eqn:E; [|done].
  rewrite forallb_forall in E.
  specialize (E (nth i (talib_SMA 200 (map close bars)) NaN)).
  rewrite sma_200_warmup in E by done.
  assert (Hin : In NaN (map (fun nf : string * (list Bar -> list num) =>
                               nth i (nf.2 bars) NaN)
                            (column_functions sqrt))).
  { apply in_map_iff.
    exists ("sma_200"%string, fun bars => talib_SMA 200 (map close bars)).
    split; [cbn [snd]; by apply sma_200_warmup|].
    unfold column_functions. do 15 right. by left. }
  specialize (E Hin). discriminate.
Qed.





Lemma add_all_features_after_warmup bars :
  add_all_features sqrt bars =
  List.filter (fun ir => no_nan ir.2)
    (map (fun i => (i, row_at (all_columns sqrt bars) i))
         (seq 199 (length bars - 199))).
Proof.
  unfold add_all_features, dropna.
  destruct (decide (199 <= length bars)) as [Hle|Hgt].
  - replace (length bars) with (199 + (length bars - 199)) at 1 by lia.
    rewrite seq_app, map_app, List.filter_app.
    rewrite filter_drop_all; [done|].
    apply Forall_forall. intros ir Hir.
    apply list_elem_of_In, in_map_iff in Hir as (i & <- & Hi%in_seq).
    apply warmup_row_has_nan. lia.
  - replace (length bars - 199) with 0 by lia. simpl.
    apply filter_drop_all.
    apply Forall_forall. intros ir Hir.
    apply list_elem_of_In, in_map_iff in Hir as (i & <- & Hi%in_seq).
    apply warmup_row_has_nan. lia.
Qed.

(** A row past the warm-up is kept when its twenty closes are not flat. *)
Lemma row_kept bars i :
  (forall x, (0 < x)%Q -> (0 < sqrt x)%Q) ->
  forallb positive_bar bars = true ->
  199 <= i < length bars -> lively bars i = true ->
  In (i, row_at (all_columns sqrt bars) i) (add_all_features sqrt bars).
Proof.
  intros Hsqrt Hpos Hi Hlive. unfold add_all_features, dropna.
  apply filter_In. split.
  - apply in_map_iff. exists i. split; [done|]. apply in_seq. lia.
  - cbn [snd]. apply no_nan_row.
    by apply (row_defined sqrt Hsqrt bars Hpos).
Qed.


End TableFacts.

Section SampleFacts.
Import Float Features.

Lemma sqrt_down_pos x : (0 < x)%Q -> (0 < Samples.sqrt_down x)%Q.
Proof.
  intros Hx. unfold Samples.sqrt_down.
  destruct (Qle_bool x 0) eqn:E.
  { apply Qle_bool_iff in E. lra. }
  rewrite Qred_correct.
  assert (Hnum : (0 < Qnum x)%Z) by (unfold Qlt in Hx; simpl in Hx; lia).
  apply Qlt_shift_div_l.
  - unfold Qlt. simpl. lia.
  - rewrite Qmult_0_l. unfold Qlt. simpl.
    rewrite (Z.mul_1_r (Z.sqrt _)). apply Z.sqrt_pos.
    repeat apply Z.mul_pos_pos; done.
Qed.

End SampleFacts.

(* ------------------------------------------------------------------ *)
(** *** The feature table: no look-ahead, and its row count *)

Section FeatureTheorems.
Import Float Features.






End FeatureTheorems.

(* ------------------------------------------------------------------ *)
(** *** indicators.ts: moving averages, falling prices, volatility *)

Section AverageFacts.
Import Float Indicators Averages.

(** The running sum of numbers between [lo] and [hi]. *)
Lemma sum_within lo hi xs a :
  within lo hi xs ->
  exists s, fold_left add xs (Fin a) = Fin s /\
    (a + inject_Z (Z.of_nat (length xs)) * lo <= s
     <= a + inject_Z (Z.of_nat (length xs)) * hi)%Q.
Proof.
  revert a. induction xs as [|x xs IH]; intros a Hxs.
  - exists a. split; [done|]. cbn [length].
    change (inject_Z (Z.of_nat 0)) with 0%Q. lra.
  - apply Forall_cons in Hxs as [(q & -> & Hq) Hxs].
    cbn [fold_left]. rewrite add_fin.
    destruct (IH (Qred (a + q)) Hxs) as (s & Hs & Hb).
    exists s. split; [done|].
    rewrite Qred_correct in Hb.
    cbn [length]. rewrite Nat2Z.inj_succ, <- Z.add_1_r, inject_Z_plus.
    change (inject_Z 1) with 1%Q. lra.
Qed.

Lemma small_pos : (0 < small)%Q.
Proof. reflexivity. Qed.

Lemma tradable_positive x : tradable x -> positive x.
Proof.
  destruct x as [q| |]; try done. simpl. intros [Hq _].
  pose proof small_pos. lra.
Qed.

(** The margin around a positive range. *)
Lemma slack_around lo hi q :
  (0 < lo)%Q -> (lo <= q <= hi)%Q ->
  (lo * (1 - slack) <= q <= hi * (1 + slack))%Q.
Proof. intros Hlo Hq. unfold slack. lra. Qed.

(** X1. [calculateSMA] answers [null] exactly when
    there are fewer than [period] prices.  Otherwise it reads the [period]
    newest prices only, whatever older prices follow.  When these lie
    between [lo] and [hi], both positive and of moderate size, the answer
    lies between [lo] and [hi] up to the margin [slack]: the sum is
    rounded once for every price and the quotient once more, less than
    [2 ^ 32] roundings of one part in [2 ^ 53] each. *)
Theorem calculateSMA_between (data : list num) (period : nat) (lo hi : Q) :
  (length data < period -> calculateSMA data period = None) /\
  (1 <= period <= length data -> array_sized data ->
   (small <= lo)%Q -> (hi <= big)%Q ->
   within lo hi (take period data) ->
   exists q, calculateSMA data period = Some (Fin q) /\
     (lo * (1 - slack) <= q <= hi * (1 + slack))%Q) /\
  (forall older, period <= length data ->
     calculateSMA (data ++ older) period = calculateSMA data period).
Proof.
  split; [|split].
  - intros Hlen. unfold calculateSMA.
    by destruct (Nat.ltb_spec (length data) period); [|lia].
  - intros [Hp Hlen] _ Hlo _ Hin. unfold calculateSMA.
    destruct (Nat.ltb_spec (length data) period); [lia|].
    destruct (sum_within lo hi _ 0 Hin) as (s & -> & Hs).
    rewrite length_take, Nat.min_l in Hs by lia.
    unfold of_nat. rewrite div_fin by (by apply Qzero_pos, of_nat_pos).
    eexists. split; [reflexivity|]. rewrite Qred_correct.
    pose proof (of_nat_pos period Hp) as Hpos.
    pose proof small_pos as Hsm.
    apply slack_around; [lra|]. split.
    + apply Qle_shift_div_l; [done|]. lra.
    + apply Qle_shift_div_r; [done|]. lra.
  - intros older Hlen. unfold calculateSMA.
    rewrite length_app.
    destruct (Nat.ltb_spec (length data) period); [lia|].
    destruct (Nat.ltb_spec (length data + length older) period); [lia|].
    by rewrite take_app_le.
Qed.

(** The average of the two newest of three prices. *)
Lemma calculateSMA_between_witness :
  exists q, calculateSMA [Fin 4; Fin 2; Fin 9] 2 = Some (Fin q) /\
            (2 * (1 - slack) <= q <= 4 * (1 + slack))%Q.
Proof.
  destruct (calculateSMA_between [Fin 4; Fin 2; Fin 9] 2 2 4) as (_ & H & _).
  apply H; [simpl; lia | by vm_compute | by vm_compute | by vm_compute |].
  repeat (apply List.Forall_cons || apply List.Forall_nil);
    eexists; (split; [reflexivity | lra]).
Defined.

Example sma_of_three : calculateSMA [Fin 4; Fin 2; Fin 9] 2 = Some (Fin 3).
Proof. reflexivity. Qed.

Lemma smoothing_factor period :
  1 <= period ->
  exists k, (Fin 2 / (of_nat period + Fin 1))%num = Fin k /\ (0 < k <= 1)%Q.
Proof.
  intros Hp. unfold of_nat. rewrite add_fin.
  pose proof (of_nat_pos period Hp) as Hpos.
  assert (H1 : (1 <= inject_Z (Z.of_nat period))%Q).
  { rewrite <- (Z2Nat.id 1) by lia. unfold Qle. simpl. lia. }
  rewrite div_fin by (apply Qzero_pos; rewrite Qred_correct; lra).
  eexists. split; [reflexivity|]. rewrite !Qred_correct. split.
  - apply Qlt_shift_div_l; lra.
  - apply Qle_shift_div_r; lra.
Qed.

Lemma ema_next_between lo hi k e x :
  (0 <= k <= 1)%Q -> (lo <= e <= hi)%Q -> (lo <= x <= hi)%Q ->
  exists q, ema_next (Fin k) (Fin e) (Fin x) = Fin q /\ (lo <= q <= hi)%Q.
Proof.
  intros Hk He Hx. unfold ema_next.
  rewrite sub_fin, !mul_fin, add_fin.
  eexists. split; [reflexivity|]. rewrite !Qred_correct.
  assert (H1 : (0 <= (x - lo) * k)%Q) by (apply Qmult_le_0_compat; lra).
  assert (H2 : (0 <= (e - lo) * (1 - k))%Q) by (apply Qmult_le_0_compat; lra).
  assert (H3 : (0 <= (hi - x) * k)%Q) by (apply Qmult_le_0_compat; lra).
  assert (H4 : (0 <= (hi - e) * (1 - k))%Q) by (apply Qmult_le_0_compat; lra).
  split; lra.
Qed.

Lemma ema_fold_between lo hi k xs e :
  (0 <= k <= 1)%Q -> (lo <= e <= hi)%Q -> within lo hi xs ->
  exists q, fold_left (ema_next (Fin k)) xs (Fin e) = Fin q /\
            (lo <= q <= hi)%Q.
Proof.
  intros Hk. revert e. induction xs as [|x xs IH]; intros e He Hxs.
  - by exists e.
  - apply Forall_cons in Hxs as [(q & -> & Hq) Hxs]. cbn [fold_left].
    destruct (ema_next_between lo hi k e q Hk He Hq) as (e' & -> & He').
    by apply IH.
Qed.

(** X2. [calculateEMA] answers [null] when there are
    fewer than [period] prices.  Otherwise, for a period of at least one,
    it smooths the whole array from the oldest price on; when the prices
    lie between [lo] and [hi], both positive and of moderate size, the
    answer lies between [lo] and [hi] up to the margin [slack], which
    covers the three roundings of every pass of the loop.  On an empty
    array with period 0 it answers [undefined]. *)
Theorem calculateEMA_between (data : list num) (period : nat) (lo hi : Q) :
  (length data < period -> calculateEMA data period = Null) /\
  (1 <= period <= length data -> array_sized data ->
   (small <= lo)%Q -> (hi <= big)%Q -> within lo hi data ->
   exists q, calculateEMA data period = Number (Fin q) /\
             (lo * (1 - slack) <= q <= hi * (1 + slack))%Q) /\
  calculateEMA [] 0 = Undefined.
Proof.
  split; [|split]; [| |reflexivity].
  - intros Hlen. unfold calculateEMA.
    by destruct (Nat.ltb_spec (length data) period); [|lia].
  - intros [Hp Hlen] _ Hlo _ Hin. unfold calculateEMA.
    destruct (Nat.ltb_spec (length data) period); [lia|].
    destruct (smoothing_factor period Hp) as (k & -> & Hk).
    assert (Hrev : within lo hi (reverse data)).
    { unfold within in *. rewrite Forall_forall in *. intros x Hx.
      apply Hin. by rewrite elem_of_reverse in Hx. }
    destruct (reverse data) as [|first rest] eqn:Hr.
    { apply (f_equal length) in Hr. rewrite length_reverse in Hr.
      simpl in Hr. lia. }
    apply Forall_cons in Hrev as [(e & -> & He) Hrest].
    destruct (ema_fold_between lo hi k rest e) as (q & -> & Hq);
      [lra | done | done |].
    exists q. split; [done|].
    pose proof small_pos as Hsm. apply slack_around; [lra | done].
Qed.

Lemma calculateEMA_between_witness :
  exists q, calculateEMA [Fin 4; Fin 2; Fin 9] 2 = Number (Fin q) /\
            (2 * (1 - slack) <= q <= 9 * (1 + slack))%Q.
Proof.
  destruct (calculateEMA_between [Fin 4; Fin 2; Fin 9] 2 2 9) as (_ & H & _).
  apply H; [simpl; lia | by vm_compute | by vm_compute | by vm_compute |].
  repeat (apply List.Forall_cons || apply List.Forall_nil);
    eexists; (split; [reflexivity | lra]).
Defined.

(** The oldest price weighs on the answer, however long the array is: with
    period 2 the factor is 2/3. *)
Example ema_of_three :
  calculateEMA [Fin 4; Fin 2; Fin 9] 2 = Number (Fin (37 # 9)).
Proof. reflexivity. Qed.

End AverageFacts.

Section RsiFalling.
Import Float Indicators Averages.

Lemma at_reverse prices i :
  i < length prices ->
  at_ (reverse prices) i = at_ prices (length prices - S i).
Proof.
  intros Hi. unfold at_. rewrite !nth_lookup.
  by rewrite reverse_lookup.
Qed.

(** In time order a falling series loses at every step. *)
Lemma falling_change prices i :
  falling prices -> 1 <= i < length prices ->
  exists c,
    (at_ (reverse prices) i - at_ (reverse prices) (i - 1))%num = Fin c /\
    (c < 0)%Q.
Proof.
  intros Hf Hi. rewrite !at_reverse by lia.
  destruct (Hf (length prices - S i)) as (a & b & Ha & Hb & Hab); [lia|].
  replace (length prices - S (i - 1)) with (length prices - S i + 1) by lia.
  rewrite Ha, Hb, sub_fin. eexists. split; [reflexivity|].
  rewrite !Qred_correct. lra.
Qed.

Lemma first_step_falling prices g l i :
  falling prices -> 1 <= i < length prices ->
  (g == 0)%Q -> (0 <= l)%Q ->
  no_gain_some_loss (first_step (reverse prices) (Fin g, Fin l) i).
Proof.
  intros Hf Hi Hg Hl. rewrite first_step_eq.
  destruct (falling_change prices i Hf Hi) as (c & -> & Hc).
  destruct (ltb (Fin 0) (Fin c)) eqn:E.
  { apply ltb_fin_true in E. lra. }
  exists g. eexists. split; [unfold abs; rewrite add_fin; reflexivity|].
  split; [done|]. rewrite Qred_correct.
  assert (0 < Qabs c)%Q; [|lra].
  rewrite Qabs_neg by lra. lra.
Qed.

Lemma smooth_step_falling prices period acc i :
  falling prices -> 1 <= period -> 1 <= i < length prices ->
  no_gain_some_loss acc ->
  no_gain_some_loss (smooth_step (reverse prices) period acc i).
Proof.
  intros Hf Hp Hi (g & l & -> & Hg & Hl). rewrite smooth_step_eq.
  destruct (falling_change prices i Hf Hi) as (c & -> & Hc).
  destruct (ltb (Fin 0) (Fin c)) eqn:E.
  { apply ltb_fin_true in E. lra. }
  destruct (ltb (Fin c) (Fin 0)) eqn:E'.
  2:{ apply ltb_fin_false in E'. lra. }
  unfold of_nat, abs. rewrite !mul_fin, !add_fin.
  pose proof (of_nat_pos period Hp) as Hpos.
  pose proof (of_nat_nonneg (period - 1)) as Hp1.
  rewrite !div_fin by (by apply Qzero_pos).
  eexists. eexists. split; [reflexivity|].
  rewrite !Qred_correct. split.
  - rewrite Hg. field. lra.
  - apply Qlt_shift_div_l; [done|].
    assert (0 <= l * inject_Z (Z.of_nat (period - 1)))%Q
      by (apply Qmult_le_0_compat; lra).
    assert (0 < Qabs c)%Q by (rewrite Qabs_neg by lra; lra).
    lra.
Qed.

Lemma averages_of_falling (prices : list num) (period : nat) :
  1 <= period -> period + 1 <= length prices -> falling prices ->
  no_gain_some_loss (averages prices period).
Proof.
  intros Hp Hlen Hf. unfold averages.
  assert (Hdlen : length (reverse prices) = length prices)
    by apply length_reverse.
  destruct period as [|p]; [lia|].
  change (seq 1 (S p)) with (1 :: seq 2 p). cbn [fold_left].
  destruct (first_step_falling prices 0 0 1 Hf)
    as (g1 & l1 & E1 & Hg1 & Hl1); [lia | lra | lra |].
  rewrite E1.
  assert (H1 : no_gain_some_loss
                 (fold_left (first_step (reverse prices)) (seq 2 p)
                            (Fin g1, Fin l1))).
  { apply fold_left_invariant.
    - by exists g1, l1.
    - intros acc i Hi%elem_of_seq (g & l & -> & Hg & Hl).
      apply first_step_falling; [done | lia | done | lra]. }
  destruct H1 as (g & l & -> & Hg & Hl).
  pose proof (of_nat_pos (S p) Hp) as Hpos.
  apply fold_left_invariant.
  - unfold of_nat. rewrite !div_fin by (by apply Qzero_pos).
    eexists. eexists. split; [reflexivity|]. rewrite !Qred_correct.
    split.
    + rewrite Hg. field. lra.
    + apply Qlt_shift_div_l; [done|]. lra.
  - intros acc i Hi%elem_of_seq Hacc.
    apply smooth_step_falling; [done | done | lia | done].
Qed.

(** Without any gain and with some loss the strength is 0 and so is the
    index. *)
Lemma rsi_without_gain (g l : Q) :
  (g == 0)%Q -> (0 < l)%Q ->
  eqb (Fin l) (Fin 0) = false /\
  exists r,
    (Fin 100 - Fin 100 / (Fin 1 + Fin g / Fin l))%num = Fin r /\ (r == 0)%Q.
Proof.
  intros Hg Hl. split.
  - unfold eqb. destruct (Qeq_bool l 0) eqn:E; [|done].
    apply Qeq_bool_iff in E. lra.
  - rewrite div_fin by (by apply Qzero_pos). rewrite add_fin.
    assert (Hone : (1 + g / l == 1)%Q) by (rewrite Hg; field; lra).
    rewrite div_fin by (apply Qzero_pos; rewrite !Qred_correct; lra).
    rewrite sub_fin. eexists. split; [reflexivity|].
    rewrite !Qred_correct, Hone. reflexivity.
Qed.

(** X3. When every price is below the one before it
    in time, [calculateRSI] with a lookback of two bars or more answers 0:
    the average gain stays at zero and the average loss is positive. *)
Theorem calculateRSI_falling (prices : list num) (period : nat) :
  2 <= period -> period + 1 <= length prices -> falling prices ->
  exists r, calculateRSI prices period = Some (Fin r) /\ (r == 0)%Q.
Proof.
  intros Hp Hlen Hf. unfold calculateRSI.
  destruct (Nat.ltb_spec (length prices) (period + 1)); [lia|].
  destruct (averages_of_falling prices period ltac:(lia) Hlen Hf)
    as (g & l & -> & Hg & Hl).
  destruct (rsi_without_gain g l Hg Hl) as (-> & r & -> & Hr).
  by exists r.
Qed.

Lemma falling_sample : falling [Fin 1; Fin 2; Fin 4; Fin 7].
Proof.
  intros i Hi. simpl in Hi.
  destruct i as [|[|[|i]]]; [| | |lia];
    eexists; eexists; (split; [reflexivity|]); (split; [reflexivity|]);
    reflexivity.
Qed.

(** Four prices that fell from 7 to 1. *)
Lemma calculateRSI_falling_witness :
  exists r, calculateRSI [Fin 1; Fin 2; Fin 4; Fin 7] 2 = Some (Fin r) /\
            (r == 0)%Q.
Proof.
  apply (calculateRSI_falling [Fin 1; Fin 2; Fin 4; Fin 7] 2);
    [lia | simpl; lia | exact falling_sample].
Defined.

End RsiFalling.

Section VolatilityFacts.
Import Float Indicators Averages.

Variable Math_log : num -> num.
Variable Math_sqrt : num -> num.

Local Abbreviation calculateVolatility :=
  (calculateVolatility Math_log Math_sqrt).

Lemma at_take prices n i : i < n -> at_ (take n prices) i = at_ prices i.
Proof.
  intros Hi. unfold at_. rewrite !nth_lookup. by rewrite lookup_take_lt.
Qed.

Lemma log_returns_take prices period :
  period + 1 <= length prices ->
  log_returns Math_log (take (period + 1) prices) period
  = log_returns Math_log prices period.
Proof.
  intros Hlen. unfold log_returns.
  rewrite length_take, (Nat.min_l (period + 1)) by lia.
  replace (Nat.min (period + 1 - 1) period) with period by lia.
  replace (Nat.min (length prices - 1) period) with period by lia.
  apply map_ext_in. intros i Hi%in_seq.
  by rewrite !at_take by lia.
Qed.

Lemma length_log_returns prices period :
  period + 1 <= length prices ->
  length (log_returns Math_log prices period) = period.
Proof.
  intros Hlen. unfold log_returns. rewrite length_map, length_seq. lia.
Qed.

(** X4. [calculateVolatility] answers 0 when
    there are fewer than [period + 1] prices.  Otherwise it takes exactly
    [period] log returns, from the [period + 1] newest prices: older prices
    do not change the answer. *)
Theorem calculateVolatility_newest (prices : list num) (period : nat) :
  (length prices < period + 1 -> calculateVolatility prices period = Fin 0) /\
  (period + 1 <= length prices ->
   length (log_returns Math_log prices period) = period /\
   calculateVolatility prices period
   = calculateVolatility (take (period + 1) prices) period).
Proof.
  split.
  - intros Hlen. unfold Averages.calculateVolatility.
    by destruct (Nat.ltb_spec (length prices) (period + 1)); [|lia].
  - intros Hlen. split; [by apply length_log_returns|].
    unfold Averages.calculateVolatility.
    rewrite length_take, (Nat.min_l (period + 1)) by lia.
    destruct (Nat.ltb_spec (length prices) (period + 1)); [lia|].
    destruct (Nat.ltb_spec (period + 1) (period + 1)); [lia|].
    by rewrite log_returns_take.
Qed.

Hypothesis log_finite : forall q, (0 < q)%Q -> finite (Math_log (Fin q)).
Hypothesis sqrt_nonneg : forall q, (0 <= q)%Q -> nonneg (Math_sqrt (Fin q)).

Lemma log_returns_finite prices period :
  Forall positive prices -> period + 1 <= length prices ->
  Forall finite (log_returns Math_log prices period).
Proof.
  intros Hpos Hlen. unfold log_returns. apply Forall_forall.
  intros x Hx.
  apply list_elem_of_In, in_map_iff in Hx as (i & <- & Hi%in_seq).
  assert (Hat : forall j, j < length prices -> positive (at_ prices j)).
  { intros j Hj. rewrite Forall_forall in Hpos. apply Hpos.
    apply list_elem_of_In. by apply nth_In. }
  pose proof (Hat i ltac:(lia)) as Ha.
  pose proof (Hat (i + 1) ltac:(lia)) as Hb.
  destruct (at_ prices i) as [a| |]; try done.
  destruct (at_ prices (i + 1)) as [b| |]; try done.
  simpl in Ha, Hb. rewrite div_fin by (by apply Qzero_pos).
  apply log_finite. rewrite Qred_correct. by apply Qlt_shift_div_l; [|lra].
Qed.

Lemma Qsquare_nonneg (x : Q) : (0 <= x * x)%Q.
Proof. unfold Qle, Qmult. simpl. nia. Qed.

Lemma sum_finite xs a :
  Forall finite xs -> exists s, fold_left add xs (Fin a) = Fin s.
Proof.
  revert a. induction xs as [|x xs IH]; intros a Hxs; [by exists a|].
  apply Forall_cons in Hxs as [[q ->]%finite_inv Hxs].
  cbn [fold_left]. rewrite add_fin. by apply IH.
Qed.

Lemma squares_nonneg m xs a :
  Forall finite xs -> (0 <= a)%Q ->
  exists s,
    fold_left (fun a b => a + (b - Fin m) * (b - Fin m))%num xs (Fin a)
    = Fin s /\ (0 <= s)%Q.
Proof.
  revert a. induction xs as [|x xs IH]; intros a Hxs Ha; [by exists a|].
  apply Forall_cons in Hxs as [[q ->]%finite_inv Hxs].
  cbn [fold_left]. rewrite sub_fin, mul_fin, add_fin. apply IH; [done|].
  rewrite !Qred_correct.
  pose proof (Qsquare_nonneg (q + - m)). lra.
Qed.

(** X5. With a logarithm that is finite on
    positive numbers and a square root that is not negative,
    [calculateVolatility] answers at least [period + 1] positive prices of
    moderate size (between [2 ^ -500] and [2 ^ 500], so that every ratio of
    two of them is a positive double) with a finite number that is not
    negative: no NaN reaches the caller. *)
Theorem calculateVolatility_nonneg (prices : list num) (period : nat) :
  1 <= period -> period + 1 <= length prices -> array_sized prices ->
  Forall tradable prices ->
  nonneg (calculateVolatility prices period).
Proof.
  intros Hp Hlen _ Htr. unfold Averages.calculateVolatility.
  assert (Hpos : Forall positive prices).
  { eapply Forall_impl; [exact Htr|]. apply tradable_positive. }
  destruct (Nat.ltb_spec (length prices) (period + 1)); [lia|].
  rewrite length_log_returns by done.
  pose proof (log_returns_finite prices period Hpos Hlen) as Hfin.
  destruct (sum_finite _ 0 Hfin) as (s & ->).
  pose proof (of_nat_pos period Hp) as Hpp.
  unfold of_nat. rewrite div_fin by (by apply Qzero_pos).
  destruct (squares_nonneg (Qred (s / inject_Z (Z.of_nat period))) _ 0 Hfin)
    as (v & -> & Hv); [lra|].
  rewrite div_fin by (by apply Qzero_pos).
  assert (Hvar : (0 <= Qred (v / inject_Z (Z.of_nat period)))%Q).
  { rewrite Qred_correct. apply Qle_shift_div_l; [done | lra]. }
  pose proof (sqrt_nonneg _ Hvar) as H1.
  pose proof (sqrt_nonneg 252 ltac:(lra)) as H2.
  apply nonneg_inv in H1 as (a & -> & Ha).
  apply nonneg_inv in H2 as (b & -> & Hb).
  rewrite mul_fin. simpl. rewrite Qred_correct.
  by apply Qmult_le_0_compat.
Qed.

End VolatilityFacts.

Section VolatilityExamples.
Import Float Indicators Averages MathSamples.

Lemma log_first_term_finite q :
  (0 < q)%Q -> finite (log_first_term (Fin q)).
Proof.
  intros Hq. unfold log_first_term. rewrite sub_fin, add_fin.
  rewrite div_fin by (apply Qzero_pos; rewrite Qred_correct; lra).
  by rewrite mul_fin.
Qed.

Lemma sqrt_num_nonneg q : (0 <= q)%Q -> nonneg (sqrt_num (Fin q)).
Proof.
  intros Hq. unfold sqrt_num.
  assert (Hn : Qneg q = false).
  { unfold Qneg. apply Z.ltb_ge. unfold Qle in Hq. simpl in Hq. lia. }
  rewrite Hn. simpl.
  destruct (Qlt_le_dec 0 q) as [Hpos|Hle].
  - apply Qlt_le_weak. by apply sqrt_down_pos.
  - unfold Samples.sqrt_down.
    assert (E : Qle_bool q 0 = true) by (by apply Qle_bool_iff).
    rewrite E. apply Qle_refl.
Qed.

(** Three prices, two log returns. *)
Lemma calculateVolatility_newest_witness :
  calculateVolatility log_first_term sqrt_num [Fin 100; Fin 102; Fin 99; Fin 5]
    2
  = calculateVolatility log_first_term sqrt_num [Fin 100; Fin 102; Fin 99] 2.
Proof.
  destruct (calculateVolatility_newest log_first_term sqrt_num
              [Fin 100; Fin 102; Fin 99; Fin 5] 2) as (_ & H).
  destruct H as (_ & H); [simpl; lia|]. exact H.
Defined.

Lemma calculateVolatility_nonneg_witness :
  nonneg (calculateVolatility log_first_term sqrt_num
            [Fin 100; Fin 102; Fin 99] 2).
Proof.
  apply (calculateVolatility_nonneg log_first_term sqrt_num
           log_first_term_finite sqrt_num_nonneg);
    [lia | simpl; lia | by vm_compute |].
  repeat (apply List.Forall_cons || apply List.Forall_nil);
    split; by vm_compute.
Defined.

End VolatilityExamples.

(* ------------------------------------------------------------------ *)
(** *** cache.ts: keys and writes *)

Section KeyFacts.
Import Cache CacheKeys.

Lemma string_app_length (s t : string) :
  String.length (s ++ t) = String.length s + String.length t.
Proof. induction s as [|c s IH]; simpl; [done | by rewrite IH]. Qed.

Lemma string_app_inv_tail (s s' t : string) :
  (s ++ t = s' ++ t)%string -> s = s'.
Proof.
  revert s'. induction s as [|c s IH]; intros [|c' s'] H.
  - done.
  - apply (f_equal String.length) in H.
    rewrite !string_app_length in H. simpl in H. lia.
  - apply (f_equal String.length) in H.
    rewrite !string_app_length in H. simpl in H. lia.
  - change (String c (s ++ t) = String c' (s' ++ t))%string in H.
    injection H as -> H. f_equal. by apply IH.
Qed.

(** X6. No two entries of the cache share a key: the
    prediction keys of two symbols differ, so do their history keys, and no
    prediction key, history key, the dashboard key and the watchlist key
    ever coincide, whatever the symbols are. *)
Theorem cache_keys_distinct (symbol symbol' : string) :
  (prediction_key symbol = prediction_key symbol' -> symbol = symbol') /\
  (history symbol = history symbol' -> symbol = symbol') /\
  prediction_key symbol <> history symbol' /\
  prediction_key symbol <> DASHBOARD_LIST /\
  prediction_key symbol <> watchlist /\
  history symbol <> DASHBOARD_LIST /\
  history symbol <> watchlist /\
  DASHBOARD_LIST <> watchlist.
Proof.
  unfold prediction_key, history, DASHBOARD_LIST, watchlist.
  repeat split; try (simpl; discriminate).
  - intros H. simpl in H. simplify_eq. by apply string_app_inv_tail in H.
  - intros H. simpl in H. simplify_eq. by apply string_app_inv_tail in H.
Qed.

End KeyFacts.

Section SaveFacts.
Import Cache.

Variable value : Type.
Variable null : value.
Variable JSON_parse : string -> outcome value.
Variable JSON_stringify : value -> outcome string.

Local Abbreviation loadFromCache := (loadFromCache value null JSON_parse).
Local Abbreviation saveToCache := (saveToCache value JSON_stringify).

Lemma save_body_granted items quota key data :
  save_body value JSON_stringify (Granted items quota) key data =
  match JSON_stringify data with
  | Throws => Throws
  | Returns s =>
      if fits items quota key s
      then Returns (Granted (<[key := s]> items) quota)
      else Throws
  end.
Proof. reflexivity. Qed.

(** X7. [saveToCache] touches one key: whatever it
    is given, a read of any other key answers as before.  When
    [JSON.stringify] throws or the store refuses the write for its quota,
    the error is swallowed and nothing is changed at all, the entry under
    the key itself included. *)
Theorem saveToCache_other_keys (w : env) (key key' : string) (data : value) :
  (key <> key' ->
   loadFromCache (saveToCache w key data) key' = loadFromCache w key') /\
  (JSON_stringify data = Throws -> saveToCache w key data = w) /\
  (forall items quota s,
     w = Browser (Granted items quota) ->
     JSON_stringify data = Returns s ->
     fits items quota key s = false ->
     saveToCache w key data = w).
Proof.
  split; [|split].
  - intros Hne. destruct w as [|[|items quota]]; [done | |].
    + simpl. unfold save_body. by destruct (JSON_stringify data).
    + cbn [Cache.saveToCache]. rewrite save_body_granted.
      destruct (JSON_stringify data) as [s|]; [|done].
      destruct (fits items quota key s); [|done].
      simpl. unfold load_body. simpl. by rewrite lookup_insert_ne.
  - intros Hs. destruct w as [|ls]; [done|]. simpl. unfold save_body.
    by rewrite Hs.
  - intros items quota s -> Hs Hfit. cbn [Cache.saveToCache].
    by rewrite save_body_granted, Hs, Hfit.
Qed.

(** X8. Writes are idempotent: saving the same
    data under the same key twice leaves the environment as one save does,
    whether the store accepts the write or refuses it. *)
Theorem saveToCache_idempotent (w : env) (key : string) (data : value) :
  saveToCache (saveToCache w key data) key data = saveToCache w key data.
Proof.
  destruct w as [|[|items quota]]; [done | |].
  - cbn [Cache.saveToCache]. unfold save_body.
    by destruct (JSON_stringify data).
  - cbn [Cache.saveToCache]. rewrite save_body_granted.
    destruct (JSON_stringify data) as [s|] eqn:Hs.
    2:{ cbn [try_catch]. by rewrite save_body_granted, Hs. }
    destruct (fits items quota key s) eqn:Hfit; cbn [try_catch].
    + rewrite save_body_granted, Hs. unfold fits in *.
      by rewrite insert_insert_eq, Hfit.
    + by rewrite save_body_granted, Hs, Hfit.
Qed.

End SaveFacts.

Section SaveExamples.
Import Cache CacheKeys IntegerJSON.

(** A page that holds the watchlist; the dashboard list is saved next. *)
Lemma saveToCache_other_keys_witness :
  loadFromCache value Null parse
    (saveToCache value stringify
       (Browser (Granted {[watchlist := "7"%string]} 4096))
       DASHBOARD_LIST (Number 12))
    watchlist
  = loadFromCache value Null parse
      (Browser (Granted {[watchlist := "7"%string]} 4096)) watchlist.
Proof.
  destruct (saveToCache_other_keys value Null parse stringify
              (Browser (Granted {[watchlist := "7"%string]} 4096))
              DASHBOARD_LIST watchlist (Number 12)) as (H & _).
  apply H. discriminate.
Defined.

(** A store of 20 characters refuses the dashboard list and keeps the
    watchlist entry. *)
Example save_refused :
  saveToCache value stringify
    (Browser (Granted {[watchlist := "7"%string]} 20))
    DASHBOARD_LIST (Number 12)
  = Browser (Granted {[watchlist := "7"%string]} 20).
Proof. by vm_compute. Qed.

End SaveExamples.

(* ------------------------------------------------------------------ *)
(** *** sequence_generator.py: what the samples look like *)

Section PrepareShape.
Import Float Sequences.

Lemma length_transform_row sc r : length (transform_row sc r) = length r.
Proof. unfold transform_row. apply length_imap. Qed.

Lemma length_window L i (X : list (list num)) :
  L <= i < length X -> length (window L i X) = L.
Proof.
  intros Hi. unfold window. rewrite length_take, length_drop. lia.
Qed.

(** X10. [prepare_data] raises on a table without
    rows.  A table of [N] rows gives [N - L] samples, every window with
    [L] rows as wide as the table.  The target column is looked up inside
    the loop: when it is missing the call raises if there is at least one
    sample, and returns no samples without complaint when [N <= L]. *)
Theorem prepare_data_shape self df target_column :
  let L := sequence_length self in
  let N := length (rows df) in
  (rows df = [] -> prepare_data self df target_column = None) /\
  (clean df -> rows df <> [] -> N <= L ->
   prepare_data self df target_column
   = Some (Prepared [] [] (Generator L (Some (fitted (rows df)))))) /\
  (clean df -> L < N -> get_loc (columns df) target_column = None ->
   prepare_data self df target_column = None) /\
  (clean df -> rows df <> [] ->
   forall t, get_loc (columns df) target_column = Some t ->
   exists p, prepare_data self df target_column = Some p /\
     length (X_ p) = N - L /\ length (y_ p) = N - L /\
     Forall (fun w => length w = L /\
                      Forall (fun r => length r = length (columns df)) w)
            (X_ p)).
Proof.
  intros L N. split; [|split; [|split]].
  - intros Hrows. unfold prepare_data. by rewrite Hrows.
  - intros Hc Hne HN. unfold prepare_data.
    rewrite (fit_clean df Hc Hne). cbn [mbind option_bind]. cbv zeta.
    rewrite length_transform. fold N L.
    by replace (N - L) with 0 by lia.
  - intros Hc HN Ht. unfold prepare_data.
    assert (Hne : rows df <> []).
    { intros E. unfold N in HN. rewrite E in HN. simpl in HN. lia. }
    rewrite (fit_clean df Hc Hne). cbn [mbind option_bind]. cbv zeta.
    rewrite length_transform. fold N L.
    destruct (N - L) as [|k] eqn:E; [lia|].
    cbn [seq]. by rewrite Ht.
  - intros Hc Hne t Ht.
    rewrite (prepare_data_spec self df _ t Hc Hne Ht). cbv zeta.
    eexists. split; [reflexivity|]. cbn [X_ y_]. fold L N.
    rewrite !length_map, length_seq. split; [done|]. split; [done|].
    apply Forall_forall. intros w Hw.
    apply list_elem_of_In, in_map_iff in Hw as (i & <- & Hi%in_seq).
    split.
    + apply length_window. rewrite length_transform. fold N. lia.
    + unfold window. apply Forall_take, Forall_drop.
      unfold transform. apply Forall_fmap, Forall_forall. intros r Hr.
      simpl. rewrite length_transform_row.
      unfold clean in Hc. rewrite Forall_forall in Hc.
      by destruct (Hc r Hr).
Qed.

(** X11. Consecutive samples overlap: the
    window of sample [k + 1] is the window of sample [k] without its first
    row and with one more row at its end, and the target of sample [k] is
    the target cell of that row.  The label of a sample is an input of the
    next one. *)
Theorem prepare_data_windows_overlap self df target_column t p k :
  clean df -> rows df <> [] ->
  get_loc (columns df) target_column = Some t ->
  prepare_data self df target_column = Some p ->
  1 <= sequence_length self ->
  k + 1 < length (X_ p) ->
  exists w w' r,
    X_ p !! k = Some w /\ X_ p !! (k + 1) = Some w' /\
    w' = drop 1 w ++ [r] /\
    y_ p !! k = Some (cell r t).
Proof.
  intros Hc Hne Ht Hp HL Hk.
  rewrite (prepare_data_spec self df _ t Hc Hne Ht) in Hp. cbv zeta in Hp.
  injection Hp as <-. cbn [X_ y_] in *.
  set (L := sequence_length self) in *.
  set (scaled := transform _ _) in *.
  assert (Hlen : length scaled = length (rows df)) by apply length_transform.
  rewrite length_map, length_seq in Hk.
  exists (window L (L + k) scaled), (window L (L + (k + 1)) scaled),
         (nth (L + k) scaled []).
  split; [|split; [|split]].
  - rewrite list_lookup_fmap, lookup_seq_lt by lia. done.
  - rewrite list_lookup_fmap, lookup_seq_lt by lia. done.
  - unfold window.
    replace (L + k - L) with k by lia.
    replace (L + (k + 1) - L) with (k + 1) by lia.
    set (xs := drop k scaled).
    assert (Hxs : length xs = length scaled - k) by apply length_drop.
    destruct (lookup_lt_is_Some_2 xs L ltac:(lia)) as [x Hx].
    replace (drop (k + 1) scaled) with (drop 1 xs)
      by (unfold xs; by rewrite drop_drop).
    rewrite take_drop_commute. change (1 + L) with (S L).
    rewrite (take_S_r xs L x Hx).
    rewrite drop_app_le by (rewrite length_take; lia).
    f_equal. f_equal. unfold xs in Hx. rewrite lookup_drop in Hx.
    rewrite nth_lookup. replace (L + k) with (k + L) by lia.
    by rewrite Hx.
  - rewrite list_lookup_fmap, lookup_seq_lt by lia. done.
Qed.

(** Seven rows and no column named volume: windows of seven rows give no
    sample and no error, windows of two rows raise. *)
Lemma prepare_data_shape_witness :
  prepare_data (init 7) Samples.week "volume"
    = Some (Prepared [] [] (Generator 7 (Some (fitted (rows Samples.week)))))
  /\ prepare_data (init 2) Samples.week "volume" = None.
Proof.
  assert (Hc : clean Samples.week) by repeat constructor.
  destruct (prepare_data_shape (init 7) Samples.week "volume")
    as (_ & H7 & _).
  destruct (prepare_data_shape (init 2) Samples.week "volume")
    as (_ & _ & H2 & _).
  split.
  - apply H7; [exact Hc | discriminate | simpl; lia].
  - apply H2; [exact Hc | simpl; lia | reflexivity].
Defined.

Lemma prepare_data_windows_overlap_witness :
  exists p w w' r,
    prepare_data (init 2) Samples.week "close" = Some p /\
    X_ p !! 0 = Some w /\ X_ p !! 1 = Some w' /\
    w' = drop 1 w ++ [r] /\ y_ p !! 0 = Some (cell r 0).
Proof.
  assert (Hp : exists p,
             prepare_data (init 2) Samples.week "close" = Some p /\
             length (X_ p) = 5).
  { eexists. split; [vm_compute; reflexivity | reflexivity]. }
  destruct Hp as (p & Hprep & HX).
  destruct (prepare_data_windows_overlap (init 2) Samples.week "close" 0 p 0)
    as (w & w' & r & H);
    [repeat constructor | discriminate | reflexivity | exact Hprep
    | simpl; lia | rewrite HX; simpl; lia |].
  exists p, w, w', r. split; [exact Hprep | exact H].
Defined.

End PrepareShape.

Section MultiHorizon.
Import Float Sequences.

Variable df : DataFrame.
Variable j : nat.
Hypothesis Hclean : clean df.
Hypothesis Hclose : get_loc (columns df) "close" = Some j.
Hypothesis Htarget : get_loc (columns df) "target" = None.

Local Abbreviation N := (length (rows df)).
Local Abbreviation samples :=
  (gmap nat (list (list (list num)) * list num)).

Lemma horizon_step_some (results : samples) self h :
  h < N ->
  exists X y,
    horizon_step df (Some (results, self)) h
    = Some (<[h := (X, y)]> results,
            Generator (sequence_length self)
              (Some (fitted (labelled_rows h j (rows df))))) /\
    length X = N - h - sequence_length self /\
    length y = N - h - sequence_length self.
Proof.
  intros Hh. unfold horizon_step. cbn [mbind option_bind].
  rewrite (horizon_table_rows df h j Hclean Hclose Htarget).
  cbn [mbind option_bind].
  pose proof (get_loc_lt _ _ _ Hclose) as Hj.
  pose proof (labelled_rows_clean df h j Hclean Hj) as Hc'.
  set (dfs := DF _ _) in *.
  assert (Hne : rows dfs <> []).
  { intros E. apply (f_equal length) in E. unfold dfs in E. simpl in E.
    rewrite length_labelled_rows in E. lia. }
  rewrite (prepare_data_spec self dfs "target" (length (columns df)) Hc' Hne)
    by (by apply get_loc_new).
  cbv zeta. cbn [mbind option_bind X_ y_ self_].
  eexists. eexists. split; [reflexivity|].
  rewrite !length_map, !length_seq. unfold dfs. cbn [rows].
  rewrite length_labelled_rows. done.
Qed.

Lemma horizon_step_none (results : samples) self h :
  N <= h -> horizon_step df (Some (results, self)) h = None.
Proof.
  intros Hh. unfold horizon_step. cbn [mbind option_bind].
  rewrite (horizon_table_rows df h j Hclean Hclose Htarget).
  cbn [mbind option_bind]. unfold prepare_data. cbn [rows].
  assert (E : labelled_rows h j (rows df) = []).
  { apply length_zero_iff_nil. rewrite length_labelled_rows. lia. }
  by rewrite E.
Qed.

Lemma fold_none hs : fold_left (horizon_step df) hs None = None.
Proof. induction hs as [|h hs IH]; [done|]. exact IH. Qed.

Lemma fold_horizons hs (results : samples) self :
  Forall (fun h => h < N) hs ->
  exists results' self',
    fold_left (horizon_step df) hs (Some (results, self))
    = Some (results', self') /\
    sequence_length self' = sequence_length self /\
    (forall h, h ∉ hs -> results' !! h = results !! h) /\
    (forall h, h ∈ hs ->
       exists X y, results' !! h = Some (X, y) /\
         length X = N - h - sequence_length self /\
         length y = N - h - sequence_length self) /\
    scaler self' =
      match last hs with
      | Some h0 => Some (fitted (labelled_rows h0 j (rows df)))
      | None => scaler self
      end.
Proof.
  revert results self. induction hs as [|h hs IH]; intros results self Hall.
  - exists results, self. repeat split; try done.
    intros h Hh. by apply elem_of_nil in Hh.
  - apply Forall_cons in Hall as [Hh Hall]. cbn [fold_left].
    destruct (horizon_step_some results self h Hh) as (X & y & -> & HX & Hy).
    destruct (IH (<[h := (X, y)]> results)
                 (Generator (sequence_length self)
                    (Some (fitted (labelled_rows h j (rows df))))) Hall)
      as (results' & self' & -> & HL & Hout & Hin & Hsc).
    cbn [sequence_length] in *.
    exists results', self'. split; [done|]. split; [done|].
    split; [|split].
    + intros h' Hh'. apply not_elem_of_cons in Hh' as [Hne Hh'].
      rewrite (Hout h' Hh'). by rewrite lookup_insert_ne.
    + intros h' Hh'.
      destruct (decide (h' ∈ hs)) as [Hhs|Hhs]; [by apply Hin|].
      apply elem_of_cons in Hh' as [->|Hh']; [|done].
      exists X, y. rewrite (Hout h Hhs), lookup_insert_eq. done.
    + rewrite Hsc, last_cons. cbn [scaler]. by destruct (last hs).
Qed.

(** X12. On a table of [N] rows with
    horizons all below [N], [create_multi_horizon_targets] returns an entry
    for exactly the horizons asked for, the entry of horizon [h] holding
    [N - h - L] windows and as many targets.  The scaler is one object
    refitted at every pass: after the call it is the fit on the table of
    the last horizon, also for the entries of the earlier ones. *)
Theorem create_multi_horizon_targets_entries L hs :
  Forall (fun h => h < N) hs ->
  exists results self',
    create_multi_horizon_targets (init L) df hs = Some (results, self') /\
    (forall h, is_Some (results !! h) <-> h ∈ hs) /\
    (forall h X y, results !! h = Some (X, y) ->
       length X = N - h - L /\ length y = N - h - L) /\
    (forall h0, last hs = Some h0 ->
       scaler self' = Some (fitted (labelled_rows h0 j (rows df)))).
Proof.
  intros Hall. unfold create_multi_horizon_targets.
  destruct (fold_horizons hs ∅ (init L) Hall)
    as (results & self' & -> & _ & Hout & Hin & Hsc).
  cbn [sequence_length init] in *.
  exists results, self'. split; [done|]. split; [|split].
  - intros h. split.
    + intros Hsome. destruct (decide (h ∈ hs)) as [|Hn]; [done|].
      rewrite (Hout h Hn), lookup_empty in Hsome. by destruct Hsome.
    + intros Hh. destruct (Hin h Hh) as (X & y & -> & _). done.
  - intros h X y Hr.
    destruct (decide (h ∈ hs)) as [Hh|Hn].
    + destruct (Hin h Hh) as (X' & y' & Hr' & HX & Hy).
      rewrite Hr in Hr'. by injection Hr' as -> ->.
    + by rewrite (Hout h Hn), lookup_empty in Hr.
  - intros h0 Hlast. by rewrite Hsc, Hlast.
Qed.

(** X13. One horizon of at least [N]
    days leaves its table without rows and makes the whole call raise,
    whatever the other horizons are. *)
Theorem create_multi_horizon_targets_raises self hs h :
  h ∈ hs -> N <= h ->
  create_multi_horizon_targets self df hs = None.
Proof.
  intros Hin Hh. unfold create_multi_horizon_targets.
  apply list_elem_of_split in Hin as (l1 & l2 & ->).
  rewrite fold_left_app. cbn [fold_left].
  destruct (fold_left (horizon_step df) l1 (Some (∅, self))) as [[r s]|].
  - rewrite horizon_step_none by done. apply fold_none.
  - apply fold_none.
Qed.

End MultiHorizon.

Section MultiHorizonExamples.
Import Float Sequences.

(** Seven closes, horizons of one and two days: the scaler left behind is
    the fit on the table of horizon 2. *)
Lemma create_multi_horizon_targets_entries_witness :
  exists results self',
    create_multi_horizon_targets (init 1) Samples.week [1; 2]
      = Some (results, self') /\
    (forall h, is_Some (results !! h) <-> h ∈ [1; 2]) /\
    scaler self' = Some (fitted (labelled_rows 2 0 (rows Samples.week))).
Proof.
  destruct (create_multi_horizon_targets_entries Samples.week 0
              ltac:(repeat constructor) eq_refl eq_refl 1 [1; 2])
    as (results & self' & Hc & Hk & _ & Hs).
  - repeat constructor; simpl; lia.
  - exists results, self'. split; [exact Hc|]. split; [exact Hk|].
    by apply Hs.
Defined.

(** Seven closes and a horizon of seven days. *)
Lemma create_multi_horizon_targets_raises_witness :
  create_multi_horizon_targets (init 1) Samples.week [1; 7] = None.
Proof.
  apply (create_multi_horizon_targets_raises Samples.week 0
           ltac:(repeat constructor) eq_refl eq_refl (init 1) [1; 7] 7).
  - apply list_elem_of_In. simpl. tauto.
  - simpl. lia.
Defined.

End MultiHorizonExamples.

Section SplitParts.
Import Binary64 Sequences.

Lemma small_split_points n :
  1 <= n <= 6 ->
  (train_end n lit_0_7, val_end n lit_0_7 lit_0_15)
  = nth (n - 1) [(0, 0); (1, 1); (2, 2); (2, 3); (3, 4); (4, 5)] (0, 0).
Proof.
  intros Hn.
  assert (H : n = 1 \/ n = 2 \/ n = 3 \/ n = 4 \/ n = 5 \/ n = 6) by lia.
  destruct H as [->|[->|[->|[->|[->| ->]]]]]; by vm_compute.
Qed.

(** X14. With the default ratios the three parts of
    [split_data] are all non-empty as soon as there are four samples.  With
    one to three samples the validation part is empty while the test part
    is not, and a single sample leaves the training part empty. *)
Theorem split_parts_nonempty {A B} (X : list A) (y : list B) :
  (Z.of_nat (length X) < 2 ^ 48)%Z ->
  let s := split_default X y in
  (4 <= length X ->
   1 <= length (X_train s) /\ 1 <= length (X_val s) /\
   1 <= length (X_test s)) /\
  (1 <= length X <= 3 -> X_val s = [] /\ 1 <= length (X_test s)) /\
  (length X = 1 -> X_train s = []).
Proof.
  intros Hn s.
  pose proof (train_end_bounds _ Hn) as Hte.
  pose proof (val_end_bounds _ Hn) as Hve.
  pose proof (split_points_ordered _ Hn) as Hord.
  pose proof (small_split_points (length X)) as Hsmall.
  assert (Hs : s = Split (take (train_end (length X) lit_0_7) X)
                     (slice (train_end (length X) lit_0_7)
                            (val_end (length X) lit_0_7 lit_0_15) X)
                     (drop (val_end (length X) lit_0_7 lit_0_15) X)
                     (take (train_end (length X) lit_0_7) y)
                     (slice (train_end (length X) lit_0_7)
                            (val_end (length X) lit_0_7 lit_0_15) y)
                     (drop (val_end (length X) lit_0_7 lit_0_15) y))
    by reflexivity.
  rewrite Hs. cbn [X_train X_val X_test]. clear Hs s.
  generalize dependent (train_end (length X) lit_0_7).
  generalize dependent (val_end (length X) lit_0_7 lit_0_15).
  intros ve Hve te Hte Hord Hsmall.
  assert (Hlens : length (take te X) = te /\ length (slice te ve X) = ve - te
                  /\ length (drop ve X) = length X - ve).
  { rewrite length_take, length_drop, length_slice by lia. lia. }
  destruct Hlens as (L1 & L2 & L3).
  assert (Hnth : forall k, 1 <= k <= 6 -> length X = k ->
            (te, ve) = nth (k - 1)
              [(0, 0); (1, 1); (2, 2); (2, 3); (3, 4); (4, 5)] (0, 0)).
  { intros k Hk E. rewrite <- E. apply Hsmall. lia. }
  split; [|split].
  - intros H4. rewrite L1, L2, L3.
    destruct (decide (7 <= length X)) as [H7|H7]. { lia. }
    assert (Hcases : length X = 4 \/ length X = 5 \/ length X = 6) by lia.
    destruct Hcases as [E|[E|E]];
      [pose proof (Hnth 4 ltac:(lia) E) as Hp
      |pose proof (Hnth 5 ltac:(lia) E) as Hp
      |pose proof (Hnth 6 ltac:(lia) E) as Hp];
      simpl in Hp; injection Hp as -> ->; lia.
  - intros H13. rewrite L3.
    assert (Hcases : length X = 1 \/ length X = 2 \/ length X = 3) by lia.
    rewrite <- length_zero_iff_nil, L2.
    destruct Hcases as [E|[E|E]];
      [pose proof (Hnth 1 ltac:(lia) E) as Hp
      |pose proof (Hnth 2 ltac:(lia) E) as Hp
      |pose proof (Hnth 3 ltac:(lia) E) as Hp];
      simpl in Hp; injection Hp as -> ->; lia.
  - intros E. apply length_zero_iff_nil. rewrite L1.
    pose proof (Hnth 1 ltac:(lia) E) as Hp. simpl in Hp.
    by injection Hp as -> ->.
Qed.

Lemma split_parts_nonempty_witness :
  let s := split_default (seq 0 20) (seq 100 20) in
  1 <= length (X_train s) /\ 1 <= length (X_val s) /\
  1 <= length (X_test s).
Proof.
  destruct (split_parts_nonempty (seq 0 20) (seq 100 20)
              ltac:(vm_compute; reflexivity)) as (H & _).
  apply H. simpl. lia.
Defined.

End SplitParts.

(* ------------------------------------------------------------------ *)
(** *** feature_engineering.py: ranges of the indicator columns *)

Section WalkInvariants.
Import Float Features FeatureBounds.

Lemma scan_forall {A St} (Inv : St -> Prop) (step : St -> A -> St) s xs :
  Inv s -> (forall s a, Inv s -> Inv (step s a)) ->
  Forall Inv (scan step s xs).
Proof.
  intros Hs Hstep. revert s Hs.
  induction xs as [|x xs IH]; intros s Hs; simpl.
  - by apply Forall_singleton.
  - apply Forall_cons. split; [done|]. apply IH. by apply Hstep.
Qed.

Lemma seeded_forall {A St B} (Inv : St -> Prop) (P : B -> Prop) lb
    (init : list A -> St) step (out : St -> B) xs :
  Inv (init (take (S lb) xs)) ->
  (forall s a, Inv s -> Inv (step s a)) ->
  (forall s, Inv s -> P (out s)) ->
  Forall P (seeded lb init step out xs).
Proof.
  intros Hinit Hstep Hout. unfold seeded.
  destruct (length xs <=? lb); [by apply Forall_nil|].
  apply Forall_fmap. eapply Forall_impl; [by apply scan_forall|].
  intros s Hs. by apply Hout.
Qed.

Local Open Scope Q_scope.

Lemma Qdiv_nonneg a b : 0 <= a -> 0 <= b -> 0 <= a / b.
Proof.
  intros Ha Hb. destruct (Qeq_dec b 0) as [E|E].
  - unfold Qdiv. rewrite E. unfold Qinv. simpl. lra.
  - apply Qle_shift_div_l; lra.
Qed.

Lemma rsi_update_ok p st x wilder :
  rsi_state_ok st -> rsi_state_ok (rsi_update p st x wilder).
Proof.
  destruct st as [[prev gain] loss]. intros [Hg Hl]. simpl in Hg, Hl.
  unfold rsi_update, rsi_state_ok.
  pose proof (of_nat_nonneg (p - 1)) as Hn1.
  pose proof (of_nat_nonneg p) as Hn.
  assert (H1 : 0 <= gain * inject_Z (Z.of_nat (p - 1)))
    by (by apply Qmult_le_0_compat).
  assert (H2 : 0 <= loss * inject_Z (Z.of_nat (p - 1)))
    by (by apply Qmult_le_0_compat).
  destruct wilder; destruct (Qle_bool 0 (x - prev)) eqn:E; cbn [fst snd];
    rewrite ?Qred_correct;
    try (apply Qle_bool_iff in E);
    try (assert (E' : x - prev < 0)
           by (apply Qnot_le_lt; intros C; apply Qle_bool_iff in C;
               congruence));
    split; try (apply Qdiv_nonneg); lra.
Qed.

Lemma rsi_init_ok p w : rsi_state_ok (rsi_init p w).
Proof.
  unfold rsi_init.
  assert (H : rsi_state_ok
                (fold_left (fun st x => rsi_update p st x false) (tl w)
                           (hd 0 w, 0, 0))).
  { apply fold_left_invariant.
    - split; simpl; lra.
    - intros st x _ Hst. by apply rsi_update_ok. }
  destruct (fold_left _ _ _) as [[prev gain] loss].
  destruct H as [Hg Hl]. simpl in Hg, Hl.
  pose proof (of_nat_nonneg p) as Hn.
  split; cbn [fst snd]; rewrite Qred_correct; by apply Qdiv_nonneg.
Qed.

Lemma rsi_out_percent st : rsi_state_ok st -> percent (rsi_out st).
Proof.
  destruct st as [[prev gain] loss]. intros [Hg Hl]. simpl in Hg, Hl.
  unfold rsi_out, percent.
  destruct (ta_is_zero (gain + loss)) eqn:E; [lra|].
  rewrite Qred_correct.
  assert (Hpos : 0 < gain + loss).
  { unfold ta_is_zero in E. apply andb_false_iff in E as [E|E].
    - apply negb_false_iff, Qle_bool_iff in E.
      assert (0 < ta_eps) by reflexivity. lra.
    - apply negb_false_iff, Qle_bool_iff in E.
      assert (0 < ta_eps) by reflexivity. lra. }
  assert (H0 : 0 <= gain / (gain + loss))
    by (apply Qle_shift_div_l; lra).
  assert (H1 : gain / (gain + loss) <= 1)
    by (apply Qle_shift_div_r; lra).
  lra.
Qed.

Lemma RSI_percent p xs : Forall percent (RSI p xs).
Proof.
  unfold RSI. apply (seeded_forall rsi_state_ok).
  - apply rsi_init_ok.
  - intros st x Hst. by apply rsi_update_ok.
  - apply rsi_out_percent.
Qed.


Lemma talib_cell_forall {A} (P : Q -> Prop) lb (F : list A -> list Q) xs i :
  lagged lb F -> Forall P (F xs) -> (lb <= i < length xs)%nat ->
  exists q, nth i (talib lb (F xs) (length xs)) NaN = Fin q /\ P q.
Proof.
  intros Hlag HP Hi. rewrite (nth_talib lb F xs i Hlag Hi).
  eexists. split; [reflexivity|].
  rewrite Forall_forall in HP. apply HP.
  apply list_elem_of_In, nth_In. destruct Hlag as [Hlen _].
  rewrite Hlen. lia.
Qed.

End WalkInvariants.

Section FeatureRanges.
Import Float Features FeatureBounds.
Local Open Scope Q_scope.

Variable sqrt : Q -> Q.

Lemma row_of_table bars i r :
  In (i, r) (add_all_features sqrt bars) ->
  (199 <= i < length bars)%nat /\ r = row_at (all_columns sqrt bars) i.
Proof.
  rewrite add_all_features_after_warmup, filter_In, in_map_iff.
  intros [(k & Hk & Hin%in_seq) _]. injection Hk as -> <-.
  split; [lia | done].
Qed.

Lemma rsi_cell_of_row bars i :
  nth 21 (row_at (all_columns sqrt bars) i) NaN
  = nth i (talib_RSI 14 (map close bars)) NaN.
Proof. rewrite row_at_columns. reflexivity. Qed.

Lemma bb_cells_of_row bars i :
  nth 29 (row_at (all_columns sqrt bars) i) NaN
  = nth i (bb sqrt bars).1.1 NaN /\
  nth 30 (row_at (all_columns sqrt bars) i) NaN
  = nth i (bb sqrt bars).1.2 NaN /\
  nth 31 (row_at (all_columns sqrt bars) i) NaN
  = nth i (bb sqrt bars).2 NaN /\
  nth 13 (row_at (all_columns sqrt bars) i) NaN
  = nth i (talib_SMA 20 (map close bars)) NaN.
Proof. rewrite row_at_columns. repeat split; reflexivity. Qed.

(** X15. In every row of the feature table the
    [rsi_14] cell (column 21) is a number between 0 and 100. *)
Theorem feature_rsi_range bars i r :
  In (i, r) (add_all_features sqrt bars) ->
  exists q, nth 21 r NaN = Fin q /\ percent q.
Proof.
  intros [Hi ->]%row_of_table. rewrite rsi_cell_of_row.
  unfold talib_RSI.
  apply (talib_cell_forall percent 14 (RSI 14)).
  - apply lagged_RSI.
  - apply RSI_percent.
  - rewrite length_map. lia.
Qed.

Hypothesis sqrt_pos : forall x, 0 < x -> 0 < sqrt x.

Lemma stddev_nonneg w : 0 <= stddev sqrt w.
Proof.
  unfold stddev. destruct (ta_is_zero_or_neg (variance w)) eqn:E; [lra|].
  apply Qlt_le_weak, sqrt_pos.
  unfold ta_is_zero_or_neg in E. apply negb_false_iff, Qle_bool_iff in E.
  assert (0 < ta_eps) by reflexivity. lra.
Qed.

(** X17. In every row of the feature table the
    Bollinger bands are ordered, [bb_lower <= bb_middle <= bb_upper]
    (columns 31, 30, 29), and [bb_middle] repeats the [sma_20] cell
    (column 13). *)
Theorem feature_bollinger_order bars i r :
  In (i, r) (add_all_features sqrt bars) ->
  exists u m l,
    nth 29 r NaN = Fin u /\ nth 30 r NaN = Fin m /\ nth 31 r NaN = Fin l /\
    l <= m <= u /\ nth 13 r NaN = Fin m.
Proof.
  intros [Hi ->]%row_of_table.
  destruct (bb_cells_of_row bars i) as (-> & -> & -> & ->).
  destruct (bb_cells sqrt bars i ltac:(lia)) as (Hu & Hm & Hl).
  cbv zeta in Hu, Hm, Hl. rewrite Hu, Hm, Hl.
  set (w := take 20 (drop (i - 19) (map close bars))) in *.
  pose proof (stddev_nonneg w) as Hs.
  eexists. eexists. eexists.
  split; [reflexivity|]. split; [reflexivity|]. split; [reflexivity|].
  split; [rewrite !Qred_correct; lra|].
  unfold bb, talib_BBANDS in Hm. cbn [fst snd] in Hm. exact Hm.
Qed.

End FeatureRanges.

Section FeatureRangeExamples.
Import Float Features FeatureBounds.

Lemma wave_row_200 :
  In (200, row_at (all_columns Samples.sqrt_down (Samples.wave 203)) 200)
     (add_all_features Samples.sqrt_down (Samples.wave 203)).
Proof.
  apply (row_kept _ _ _ sqrt_down_pos); [by vm_compute | | by vm_compute].
  unfold Samples.wave. rewrite length_map, length_seq. lia.
Qed.

(** Row 200 of a series of 203 bars. *)
Lemma feature_rsi_range_witness :
  exists q,
    nth 21 (row_at (all_columns Samples.sqrt_down (Samples.wave 203)) 200)
        NaN = Fin q /\ percent q.
Proof.
  exact (feature_rsi_range Samples.sqrt_down (Samples.wave 203) 200 _
           wave_row_200).
Defined.

Lemma feature_bollinger_order_witness :
  exists u m l,
    nth 29 (row_at (all_columns Samples.sqrt_down (Samples.wave 203)) 200)
        NaN = Fin u /\
    nth 30 (row_at (all_columns Samples.sqrt_down (Samples.wave 203)) 200)
        NaN = Fin m /\
    nth 31 (row_at (all_columns Samples.sqrt_down (Samples.wave 203)) 200)
        NaN = Fin l /\
    (l <= m <= u)%Q /\
    nth 13 (row_at (all_columns Samples.sqrt_down (Samples.wave 203)) 200)
        NaN = Fin m.
Proof.
  exact (feature_bollinger_order Samples.sqrt_down sqrt_down_pos
           (Samples.wave 203) 200 _ wave_row_200).
Defined.

End FeatureRangeExamples.

(* ------------------------------------------------------------------ *)
(** *** data_preparation.py: cleaning the OHLCV table *)

Section ValidateFacts.
Import Float Cleaning.

Lemma no_invalid_row (df : Table) :
  length (List.filter id (map (fun tr => invalid tr.2) df)) = 0 ->
  List.filter (fun tr => negb (invalid tr.2)) df = df.
Proof.
  induction df as [|[t r] df IH]; [done|]. simpl.
  destruct (invalid r) eqn:E; simpl; [discriminate|].
  intros H. by rewrite IH.
Qed.

Lemma validate_ohlc_filter df :
  validate_ohlc df = List.filter (fun tr => negb (invalid tr.2)) df.
Proof.
  unfold validate_ohlc.
  destruct (Nat.ltb_spec 0
              (length (List.filter id (map (fun tr => invalid tr.2) df))))
    as [H|H]; [done|].
  symmetry. apply no_invalid_row. lia.
Qed.

Lemma filter_idem {A} (f : A -> bool) l :
  List.filter f (List.filter f l) = List.filter f l.
Proof.
  induction l as [|x l IH]; [done|]. simpl.
  destruct (f x) eqn:E; [|done]. simpl. by rewrite E, IH.
Qed.

(** X18. [validate_ohlc] keeps, in their order,
    exactly the rows in which no comparison finds the low above or the high
    below the open or the close; in a kept row of finite prices the open
    and the close lie between the low and the high.  A row whose low and
    high are missing passes, since a comparison with NaN is false.
    Validating twice changes nothing more. *)
Theorem validate_ohlc_keeps_valid (df : Table) :
  validate_ohlc df = List.filter (fun tr => negb (invalid tr.2)) df /\
  (forall t r, In (t, r) (validate_ohlc df) <->
               In (t, r) df /\ invalid r = false) /\
  (forall t r o h l c,
     In (t, r) (validate_ohlc df) ->
     open r = Fin o -> high r = Fin h -> low r = Fin l -> close r = Fin c ->
     (l <= o <= h)%Q /\ (l <= c <= h)%Q) /\
  (forall t r, In (t, r) df -> low r = NaN -> high r = NaN ->
               In (t, r) (validate_ohlc df)) /\
  validate_ohlc (validate_ohlc df) = validate_ohlc df.
Proof.
  assert (Hin : forall t r, In (t, r) (validate_ohlc df) <->
                            In (t, r) df /\ invalid r = false).
  { intros t r. rewrite validate_ohlc_filter, filter_In. cbn [snd].
    by rewrite negb_true_iff. }
  split; [apply validate_ohlc_filter|]. split; [exact Hin|].
  split; [|split].
  - intros t r o h l c [_ Hv]%Hin Ho Hh Hl Hc.
    unfold invalid in Hv. rewrite Ho, Hh, Hl, Hc in Hv.
    apply orb_false_iff in Hv as [Hv H4].
    apply orb_false_iff in Hv as [Hv H3].
    apply orb_false_iff in Hv as [H1 H2].
    apply ltb_fin_false in H1, H2, H3, H4. lra.
  - intros t r Hr Hl Hh. apply Hin. split; [done|].
    unfold invalid. rewrite Hl, Hh.
    by destruct (open r), (close r).
  - rewrite !validate_ohlc_filter. apply filter_idem.
Qed.

End ValidateFacts.

Section DateFacts.
Import Float Cleaning.
Local Open Scope Z_scope.

Lemma fold_min_spec ts t :
  let m := fold_left Z.min ts t in
  In m (t :: ts) /\ Forall (fun x => m <= x) (t :: ts).
Proof.
  revert t. induction ts as [|x ts IH]; intros t; simpl.
  - split; [by left | by repeat constructor; lia].
  - destruct (IH (Z.min t x)) as [Hin Hall]. simpl in Hin, Hall.
    apply Forall_cons in Hall as [H1 H2]. split.
    + destruct Hin as [Hin|Hin]; [|by right; right].
      rewrite <- Hin. destruct (Z.min_spec t x) as [[_ ->]|[_ ->]];
        [by left | by right; left].
    + repeat (apply Forall_cons; split); [lia | lia | done].
Qed.

Lemma fold_max_spec ts t :
  let m := fold_left Z.max ts t in
  In m (t :: ts) /\ Forall (fun x => x <= m) (t :: ts).
Proof.
  revert t. induction ts as [|x ts IH]; intros t; simpl.
  - split; [by left | by repeat constructor; lia].
  - destruct (IH (Z.max t x)) as [Hin Hall]. simpl in Hin, Hall.
    apply Forall_cons in Hall as [H1 H2]. split.
    + destruct Hin as [Hin|Hin]; [|by right; right].
      rewrite <- Hin. destruct (Z.max_spec t x) as [[_ ->]|[_ ->]];
        [by right; left | by left].
    + repeat (apply Forall_cons; split); [lia | lia | done].
Qed.

Lemma index_min_spec df lo :
  index_min df = Some lo ->
  In lo (index df) /\ Forall (fun t => lo <= t) (index df).
Proof.
  unfold index_min. destruct (index df) as [|t ts]; [done|].
  intros [= <-]. apply fold_min_spec.
Qed.

Lemma index_max_spec df hi :
  index_max df = Some hi ->
  In hi (index df) /\ Forall (fun t => t <= hi) (index df).
Proof.
  unfold index_max. destruct (index df) as [|t ts]; [done|].
  intros [= <-]. apply fold_max_spec.
Qed.

Lemma day_pos : 0 < day.
Proof. reflexivity. Qed.

Lemma in_date_range lo hi t :
  lo <= hi ->
  In t (date_range lo hi) <-> lo <= t <= hi /\ on_grid lo t.
Proof.
  intros Hle. unfold date_range, on_grid.
  destruct (Z.ltb_spec hi lo); [lia|].
  pose proof day_pos as Hd.
  rewrite in_map_iff. split.
  - intros (k & <- & Hk%in_seq).
    assert (HK : 0 <= (hi - lo) / day) by (apply Z.div_pos; lia).
    assert (Hk' : Z.of_nat k <= (hi - lo) / day) by lia.
    assert (Hm : day * ((hi - lo) / day) <= hi - lo)
      by (apply Z.mul_div_le; lia).
    split; [nia|].
    replace (lo + Z.of_nat k * day - lo) with (Z.of_nat k * day) by lia.
    apply Z.mod_mul. lia.
  - intros [[H1 H2] Hg].
    exists (Z.to_nat ((t - lo) / day)). split.
    + rewrite Z2Nat.id by (apply Z.div_pos; lia).
      pose proof (Z.div_mod (t - lo) day ltac:(lia)). lia.
    + apply in_seq. split; [lia|]. simpl.
      assert ((t - lo) / day <= (hi - lo) / day)
        by (apply Z.div_le_mono; lia).
      assert (0 <= (t - lo) / day) by (apply Z.div_pos; lia).
      lia.
Qed.

Lemma date_range_sorted_from lo s n :
  StronglySorted Z.lt (map (fun k => lo + Z.of_nat k * day) (seq s n)).
Proof.
  revert s. induction n as [|n IH]; intros s; simpl; constructor.
  - apply IH.
  - apply List.Forall_forall. intros t (k & <- & Hk%in_seq)%in_map_iff.
    pose proof day_pos. nia.
Qed.

Lemma date_range_sorted lo hi : StronglySorted Z.lt (date_range lo hi).
Proof.
  unfold date_range. destruct (hi <? lo); [constructor|].
  apply date_range_sorted_from.
Qed.

End DateFacts.

Section FillFacts.
Import Float Cleaning.
Local Open Scope Z_scope.

Lemma fill_row_whole prev r : whole r = true -> fill_row prev r = r.
Proof.
  destruct r as [o h l c v]. unfold whole, fill_row, fill. simpl.
  intros H. repeat (apply andb_true_iff in H as [H ?]).
  repeat match goal with
         | E : negb (is_nan ?x) = true |- _ =>
             apply negb_true_iff in E; rewrite E
         end.
  reflexivity.
Qed.

Lemma fill_row_nan prev : fill_row prev nan_row = prev.
Proof. by destruct prev. Qed.

Lemma index_ffill_from prev tbl : index (ffill_from prev tbl) = index tbl.
Proof.
  revert prev. induction tbl as [|[t r] tbl IH]; intros prev; [done|].
  simpl. f_equal. apply IH.
Qed.

Lemma loc_in df t r : loc df t = Some r -> In (t, r) df.
Proof.
  unfold loc. destruct (List.find _ df) as [[t' r']|] eqn:E; [|done].
  intros [= <-]. apply find_some in E as [Hin Heq]. simpl in Heq.
  apply Z.eqb_eq in Heq. by subst.
Qed.

Lemma loc_none df t : loc df t = None -> ~ In t (index df).
Proof.
  unfold loc. destruct (List.find _ df) as [[t' r']|] eqn:E; [done|].
  intros _ (tr & Ht & Hin)%in_map_iff.
  pose proof (find_none _ _ E tr Hin) as H. simpl in H.
  apply Z.eqb_neq in H. done.
Qed.

Lemma in_loc df t r : NoDup (index df) -> In (t, r) df -> loc df t = Some r.
Proof.
  intros Hnd Hin. destruct (loc df t) as [r'|] eqn:E.
  - apply loc_in in E. f_equal.
    unfold index in Hnd.
    apply list_elem_of_In in E, Hin.
    apply list_elem_of_lookup in E as [i Hi], Hin as [j Hj].
    assert (i = j).
    { eapply NoDup_lookup; [exact Hnd| |].
      - rewrite list_lookup_fmap, Hi. reflexivity.
      - rewrite list_lookup_fmap, Hj. reflexivity. }
    subst. rewrite Hi in Hj. by injection Hj.
  - apply loc_none in E. destruct E. apply in_map_iff. by exists (t, r).
Qed.

Variable df : Table.
Hypothesis Hwhole : Forall (fun tr => whole tr.2 = true) df.

Lemma loc_whole t r : loc df t = Some r -> whole r = true.
Proof.
  intros Hin%loc_in. rewrite List.Forall_forall in Hwhole.
  apply (Hwhole (t, r) Hin).
Qed.

Lemma fill_row_loc prev t :
  fill_row prev (default nan_row (loc df t)) = default prev (loc df t).
Proof.
  destruct (loc df t) as [r|] eqn:E; simpl.
  - apply fill_row_whole. by eapply loc_whole.
  - apply fill_row_nan.
Qed.

(** The row written under a label is the row of the last label before it
    that the table has, or the row carried in when there is none. *)
Lemma ffill_from_carries labels prev t r :
  StronglySorted Z.lt labels ->
  In (t, r)
     (ffill_from prev
        (map (fun t => (t, default nan_row (loc df t))) labels)) ->
  (r = prev /\ forall t1, In t1 labels -> t1 <= t -> loc df t1 = None) \/
  (exists t0, In t0 labels /\ t0 <= t /\ loc df t0 = Some r /\
     forall t1, In t1 labels -> t0 < t1 <= t -> loc df t1 = None).
Proof.
  revert prev. induction labels as [|a ls IH]; intros prev Hs Hin; [done|].
  apply StronglySorted_inv in Hs as [Hs Hall].
  rewrite List.Forall_forall in Hall.
  cbn [map ffill_from] in Hin. rewrite fill_row_loc in Hin.
  destruct Hin as [Heq|Hin].
  - injection Heq as <- <-.
    destruct (loc df a) as [r0|] eqn:E; simpl.
    + right. exists a. split; [by left|]. split; [lia|]. split; [done|].
      intros t1 _ Ht1. lia.
    + left. split; [done|]. intros t1 [<-|Ht1] Hle; [done|].
      specialize (Hall t1 Ht1). lia.
  - assert (Ht : In t ls).
    { assert (H : In t (index (ffill_from (default prev (loc df a))
                 (map (fun t => (t, default nan_row (loc df t))) ls)))).
      { apply in_map_iff. by exists (t, r). }
      rewrite index_ffill_from in H. unfold index in H.
      rewrite map_map in H. simpl in H. by rewrite map_id in H. }
    pose proof (Hall t Ht) as Hat.
    destruct (IH _ Hs Hin) as [[-> Hnone]|(t0 & Ht0 & Hle & Hloc & Hnone)].
    + destruct (loc df a) as [r0|] eqn:E; simpl.
      * right. exists a. split; [by left|]. split; [lia|]. split; [done|].
        intros t1 [<-|Ht1] Hb; [lia|]. apply Hnone; [done | lia].
      * left. split; [done|]. intros t1 [<-|Ht1] Hb; [done|].
        by apply Hnone.
    + right. exists t0. split; [by right|]. split; [done|]. split; [done|].
      intros t1 [<-|Ht1] Hb.
      * specialize (Hall t0 Ht0). lia.
      * by apply Hnone.
Qed.

End FillFacts.

Section CheckMissingDates.
Import Float Cleaning.
Local Open Scope Z_scope.

Lemma index_min_max_ordered df lo hi :
  index_min df = Some lo -> index_max df = Some hi -> lo <= hi.
Proof.
  intros [Hlo _]%index_min_spec [_ Hhi]%index_max_spec.
  rewrite List.Forall_forall in Hhi. by apply Hhi.
Qed.

Lemma check_missing_dates_unfold df lo hi :
  NoDup (index df) -> index_min df = Some lo -> index_max df = Some hi ->
  check_missing_dates df
  = Some (ffill (map (fun t => (t, default nan_row (loc df t)))
                     (date_range lo hi))).
Proof.
  intros Hnd Hlo Hhi. unfold check_missing_dates, reindex.
  rewrite Hlo, Hhi. cbn [mbind option_bind].
  by rewrite bool_decide_eq_true_2.
Qed.

Lemma index_reindexed df labels :
  index (ffill (map (fun t => (t, default nan_row (loc df t))) labels))
  = labels.
Proof.
  unfold ffill. rewrite index_ffill_from. unfold index.
  rewrite map_map. simpl. apply map_id.
Qed.

(** X19. [check_missing_dates] raises on an empty
    table and on a table that holds a timestamp twice.  Otherwise its
    result has one row for every whole day from the first timestamp up to
    the last, and no other row: a row whose timestamp is not a whole
    number of days after the first one is not in the result. *)
Theorem check_missing_dates_daily (df : Table) :
  (df = [] -> check_missing_dates df = None) /\
  (~ NoDup (index df) -> check_missing_dates df = None) /\
  (forall lo hi,
     NoDup (index df) ->
     index_min df = Some lo -> index_max df = Some hi ->
     exists out,
       check_missing_dates df = Some out /\
       index out = date_range lo hi /\
       length out = S (Z.to_nat ((hi - lo) / day)) /\
       (forall t, In t (index out) <-> lo <= t <= hi /\ on_grid lo t)).
Proof.
  split; [|split].
  - by intros ->.
  - intros Hd. unfold check_missing_dates, reindex.
    destruct (index_min df); [|done]. destruct (index_max df); [|done].
    cbn [mbind option_bind]. by rewrite bool_decide_eq_false_2.
  - intros lo hi Hnd Hlo Hhi.
    pose proof (index_min_max_ordered df lo hi Hlo Hhi) as Hle.
    rewrite (check_missing_dates_unfold df lo hi Hnd Hlo Hhi).
    eexists. split; [reflexivity|].
    split; [apply index_reindexed|]. split.
    + rewrite <- (length_map fst). fold (index
        (ffill (map (fun t => (t, default nan_row (loc df t)))
                    (date_range lo hi)))).
      rewrite index_reindexed. unfold date_range.
      destruct (Z.ltb_spec hi lo); [lia|].
      by rewrite length_map, length_seq.
    + intros t. rewrite index_reindexed. by apply in_date_range.
Qed.

(** X20. On a table without missing cells
    every row of the result is a row of the input: the one of the latest
    input day not after it.  No cell of the result is missing, and every
    input row that lies on the daily grid is in the result unchanged. *)
Theorem check_missing_dates_forward_fill (df : Table) (lo hi : Z) :
  NoDup (index df) ->
  index_min df = Some lo -> index_max df = Some hi ->
  Forall (fun tr => whole tr.2 = true) df ->
  exists out,
    check_missing_dates df = Some out /\
    (forall t r, In (t, r) out ->
       whole r = true /\
       exists t0, In (t0, r) df /\ on_grid lo t0 /\ t0 <= t /\
         forall t1, In t1 (index df) -> on_grid lo t1 -> t1 <= t ->
                    t1 <= t0) /\
    (forall t r, In (t, r) df -> on_grid lo t -> In (t, r) out).
Proof.
  intros Hnd Hlo Hhi Hwhole.
  pose proof (index_min_max_ordered df lo hi Hlo Hhi) as Hle.
  destruct (index_min_spec df lo Hlo) as [Hlo_in Hlo_le].
  destruct (index_max_spec df hi Hhi) as [Hhi_in Hhi_le].
  rewrite List.Forall_forall in Hlo_le, Hhi_le.
  rewrite (check_missing_dates_unfold df lo hi Hnd Hlo Hhi).
  eexists. split; [reflexivity|].
  assert (Hpresent : forall t, In t (index df) -> exists r, loc df t = Some r).
  { intros t ((t' & r) & Ht & Hin)%in_map_iff. simpl in Ht. subst t'.
    exists r. by apply in_loc. }
  assert (Hlo_grid : In lo (date_range lo hi)).
  { apply in_date_range; [done|]. split; [lia|].
    unfold on_grid. by rewrite Z.sub_diag. }
  assert (Hchar : forall t r,
    In (t, r) (ffill (map (fun t => (t, default nan_row (loc df t)))
                          (date_range lo hi))) ->
    whole r = true /\
    exists t0, In (t0, r) df /\ on_grid lo t0 /\ t0 <= t /\
      forall t1, In t1 (index df) -> on_grid lo t1 -> t1 <= t -> t1 <= t0).
  { intros t r Hin.
    assert (Ht : In t (date_range lo hi)).
    { rewrite <- (index_reindexed df (date_range lo hi)).
      apply in_map_iff. by exists (t, r). }
    apply in_date_range in Ht as [Htb Htg]; [|done].
    destruct (ffill_from_carries df Hwhole _ _ t r
                (date_range_sorted lo hi) Hin)
      as [[_ Hnone]|(t0 & Ht0 & Hle0 & Hloc & Hnone)].
    { destruct (Hpresent lo Hlo_in) as [r0 Hr0].
      rewrite (Hnone lo Hlo_grid) in Hr0 by lia. done. }
    split; [by eapply loc_whole|].
    apply in_date_range in Ht0 as [Ht0b Ht0g]; [|done].
    exists t0. split; [by apply loc_in|]. split; [done|]. split; [done|].
    intros t1 Ht1 Hg1 Hle1.
    destruct (Z_le_gt_dec t1 t0) as [|Hgt]; [done|].
    destruct (Hpresent t1 Ht1) as [r1 Hr1].
    rewrite Hnone in Hr1; [done| |lia].
    apply in_date_range; [done|]. split; [|done].
    split; [by apply Hlo_le | by apply Hhi_le]. }
  split; [exact Hchar|].
  intros t r Hin Hg.
  assert (Hti : In t (index df)) by (apply in_map_iff; by exists (t, r)).
  assert (Ht : In t (date_range lo hi)).
  { apply in_date_range; [done|]. split; [|done].
    split; [by apply Hlo_le | by apply Hhi_le]. }
  rewrite <- (index_reindexed df (date_range lo hi)) in Ht.
  apply in_map_iff in Ht as ((t' & r') & Heq & Hout). simpl in Heq. subst t'.
  destruct (Hchar t r' Hout) as (_ & t0 & Hin0 & _ & Hle0 & Hmax).
  assert (t0 = t) by (specialize (Hmax t Hti Hg ltac:(lia)); lia). subst t0.
  assert (r' = r).
  { apply (in_loc df t r' Hnd) in Hin0. apply (in_loc df t r Hnd) in Hin.
    congruence. }
  by subst.
Qed.

End CheckMissingDates.

Section CleaningPipeline.
Import Float Cleaning.
Local Open Scope Z_scope.

Lemma filter_all {A} (f : A -> bool) l :
  (forall x, In x l -> f x = true) -> List.filter f l = l.
Proof.
  induction l as [|x l IH]; intros H; [done|]. simpl.
  rewrite (H x) by (by left). f_equal. apply IH. intros y Hy. apply H.
  by right.
Qed.

(** X21. Filling cannot spoil a valid table: when no
    cell is missing and every row passes the OHLC check, [validate_ohlc]
    removes nothing from the result of [check_missing_dates], the order in
    which the main script calls them. *)
Theorem filled_rows_stay_valid (df out : Table) :
  Forall (fun tr => whole tr.2 = true) df ->
  Forall (fun tr => invalid tr.2 = false) df ->
  check_missing_dates df = Some out ->
  validate_ohlc out = out.
Proof.
  intros Hwhole Hvalid Hout.
  destruct (index_min df) as [lo|] eqn:Hlo.
  2:{ unfold check_missing_dates in Hout. by rewrite Hlo in Hout. }
  destruct (index_max df) as [hi|] eqn:Hhi.
  2:{ unfold check_missing_dates in Hout. by rewrite Hlo, Hhi in Hout. }
  destruct (decide (NoDup (index df))) as [Hnd|Hnd].
  2:{ unfold check_missing_dates, reindex in Hout.
      rewrite Hlo, Hhi in Hout. cbn [mbind option_bind] in Hout.
      by rewrite bool_decide_eq_false_2 in Hout. }
  rewrite (check_missing_dates_unfold df lo hi Hnd Hlo Hhi) in Hout.
  injection Hout as <-.
  rewrite validate_ohlc_filter. apply filter_all. intros [t r] Hin.
  cbn [snd]. apply negb_true_iff.
  assert (Hdf : exists t0, In (t0, r) df).
  { pose proof (index_min_max_ordered df lo hi Hlo Hhi) as Hle.
    destruct (index_min_spec df lo Hlo) as [Hlo_in _].
    destruct (ffill_from_carries df Hwhole _ _ t r
                (date_range_sorted lo hi) Hin)
      as [[_ Hnone]|(t0 & _ & _ & Hloc & _)].
    - assert (Hlo_grid : In lo (date_range lo hi)).
      { apply in_date_range; [done|]. split; [lia|].
        unfold on_grid. by rewrite Z.sub_diag. }
      assert (Ht : In t (date_range lo hi)).
      { rewrite <- (index_reindexed df (date_range lo hi)).
        apply in_map_iff. by exists (t, r). }
      apply in_date_range in Ht as [Htb _]; [|done].
      apply in_map_iff in Hlo_in as ((t' & r0) & Ht' & Hin0).
      simpl in Ht'. subst t'.
      specialize (Hnone lo Hlo_grid ltac:(lia)).
      by rewrite (in_loc df lo r0 Hnd Hin0) in Hnone.
    - exists t0. by apply loc_in. }
  destruct Hdf as [t0 Hin0].
  rewrite List.Forall_forall in Hvalid. apply (Hvalid (t0, r) Hin0).
Qed.

End CleaningPipeline.

Section CleaningExamples.
Import Float Cleaning CleaningSamples.
Local Open Scope Z_scope.

Example tuesday_is_filled :
  check_missing_dates two_days
  = Some [(0, monday); (day, monday); (2 * day, wednesday)].
Proof. by vm_compute. Qed.

(** A row whose low is above its open goes; the others stay. *)
Example validate_drops_one :
  validate_ohlc
    [(0, monday); (day, mkRow (Fin 10) (Fin 12) (Fin 11) (Fin 11) (Fin 1));
     (2 * day, wednesday)]
  = two_days.
Proof. by vm_compute. Qed.

Lemma two_days_nodup : NoDup (index two_days).
Proof. apply (bool_decide_unpack _). by vm_compute. Qed.

Lemma two_days_whole : Forall (fun tr => whole tr.2 = true) two_days.
Proof. repeat constructor. Qed.

Lemma check_missing_dates_daily_witness :
  exists out,
    check_missing_dates two_days = Some out /\
    index out = date_range 0 (2 * day) /\
    length out = 3%nat.
Proof.
  destruct (check_missing_dates_daily two_days) as (_ & _ & H).
  destruct (H 0 (2 * day) two_days_nodup eq_refl eq_refl)
    as (out & Hc & Hi & Hl & _).
  exists out. split; [exact Hc|]. split; [exact Hi | exact Hl].
Defined.

Lemma check_missing_dates_forward_fill_witness :
  exists out,
    check_missing_dates two_days = Some out /\
    (forall t r, In (t, r) out -> whole r = true) /\
    In (0, monday) out /\ In (2 * day, wednesday) out.
Proof.
  destruct (check_missing_dates_forward_fill two_days 0 (2 * day)
              two_days_nodup eq_refl eq_refl two_days_whole)
    as (out & Hc & Hchar & Hkeep).
  exists out. split; [exact Hc|]. split; [|split].
  - intros t r Hin. by destruct (Hchar t r Hin).
  - apply Hkeep; [by left | reflexivity].
  - apply Hkeep; [by right; left | by vm_compute].
Defined.

Lemma filled_rows_stay_valid_witness :
  validate_ohlc [(0, monday); (day, monday); (2 * day, wednesday)]
  = [(0, monday); (day, monday); (2 * day, wednesday)].
Proof.
  apply (filled_rows_stay_valid two_days _ two_days_whole).
  - repeat constructor.
  - by vm_compute.
Defined.

End CleaningExamples.

Section SumFacts.
Import Float Features.
Local Open Scope Q_scope.

Lemma qsum_acc w a : fold_left (fun a x => Qred (a + x)) w a == a + qsum w.
Proof.
  unfold qsum. revert a. induction w as [|x w IH]; intros a; simpl.
  - lra.
  - rewrite (IH (Qred (a + x))), (IH (Qred (0 + x))), !Qred_correct. lra.
Qed.

Lemma qsum_cons x w : qsum (x :: w) == x + qsum w.
Proof.
  unfold qsum at 1. simpl. rewrite qsum_acc, Qred_correct. lra.
Qed.

Lemma qsum_app w1 w2 : qsum (w1 ++ w2) == qsum w1 + qsum w2.
Proof.
  induction w1 as [|x w1 IH]; simpl.
  - unfold qsum at 2. simpl. lra.
  - rewrite !qsum_cons, IH. lra.
Qed.

Lemma of_len_cons {A} (x : A) w : of_len (x :: w) == 1 + of_len w.
Proof.
  unfold of_len. cbn [length].
  rewrite Nat2Z.inj_succ, <- Z.add_1_r, inject_Z_plus.
  change (inject_Z 1) with 1. lra.
Qed.

Lemma of_len_nonneg {A} (w : list A) : 0 <= of_len w.
Proof. apply of_nat_nonneg. Qed.

(** The square of a sum is at most the count times the sum of the
    squares. *)
Lemma square_of_sum w :
  qsum w * qsum w <= of_len w * qsum (map (fun d => d * d) w).
Proof.
  induction w as [|x w IH].
  - unfold qsum, of_len. simpl. lra.
  - cbn [map]. rewrite !qsum_cons, of_len_cons.
    set (s := qsum w) in *. set (k := of_len w) in *.
    set (q := qsum (map (fun d => d * d) w)) in *.
    assert (Hk : 0 <= k) by apply of_len_nonneg.
    assert (Hq : 0 <= q).
    { unfold q. clear. induction w as [|y w IH].
      - unfold qsum. simpl. lra.
      - cbn [map]. rewrite qsum_cons.
        pose proof (Qsquare_nonneg y). lra. }
    pose proof (Qsquare_nonneg (s - k * x)) as H1.
    pose proof (Qsquare_nonneg x) as H2.
    (* k * (2 s x) <= s^2 + k^2 x^2 <= k q + k^2 x^2 *)
    destruct (Qeq_dec k 0) as [E|E].
    + assert (Hs : s * s <= 0) by (rewrite E in IH; lra).
      pose proof (Qsquare_nonneg s) as Hs'.
      assert (Hs0 : s == 0).
      { destruct (Qeq_dec s 0) as [|N]; [done|].
        assert (0 < s * s); [|lra].
        destruct (Qlt_le_dec 0 s).
        - by apply Qmult_lt_0_compat.
        - setoid_replace (s * s) with ((- s) * (- s))
            using relation Qeq by ring.
          apply Qmult_lt_0_compat; lra. }
      rewrite Hs0, E. lra.
    + assert (Hkp : 0 < k) by lra.
      assert (H3 : k * (2 * s * x) <= k * (q + k * (x * x))).
      { setoid_replace (k * (q + k * (x * x)))
          with (k * q + k * k * (x * x)) using relation Qeq by ring.
        setoid_replace ((s - k * x) * (s - k * x))
          with (s * s - k * (2 * s * x) + k * k * (x * x))
          using relation Qeq in H1 by ring.
        lra. }
      assert (H4 : 2 * s * x <= q + k * (x * x)).
      { apply Qmult_le_l with (z := k); done. }
      setoid_replace ((x + s) * (x + s)) with (s * s + 2 * s * x + x * x)
        using relation Qeq by ring.
      setoid_replace ((1 + k) * (x * x + q))
        with (k * q + (q + k * (x * x)) + x * x) using relation Qeq by ring.
      lra.
Qed.


Lemma qsum_squares_nonneg w : 0 <= qsum (map (fun d => d * d) w).
Proof.
  induction w as [|y w IH].
  - unfold qsum. simpl. lra.
  - cbn [map]. rewrite qsum_cons. pose proof (Qsquare_nonneg y). lra.
Qed.

Lemma qsum_map_sub m w :
  qsum (map (fun x => x - m) w) == qsum w - of_len w * m.
Proof.
  induction w as [|x w IH].
  - unfold qsum, of_len. simpl. change (inject_Z 0) with 0. ring.
  - cbn [map]. rewrite !qsum_cons, of_len_cons, IH. ring.
Qed.

(** The distances to the mean add up to nothing. *)
Lemma deviations_sum w :
  w <> [] -> qsum (map (fun x => x - mean w) w) == 0.
Proof.
  intros Hw. rewrite qsum_map_sub. unfold mean. rewrite Qred_correct.
  pose proof (of_len_pos w Hw) as Hn.
  rewrite Qmult_div_r by lra. lra.
Qed.

End SumFacts.

Section OutlierFacts.
Import Float Features Cleaning Outliers.
Local Open Scope Q_scope.

Lemma of_len_map {A B} (f : A -> B) w : of_len (map f w) = of_len w.
Proof. unfold of_len. by rewrite length_map. Qed.

Lemma pop_variance_eq w :
  pop_variance w ==
  qsum (map (fun d => d * d) (map (fun y => y - mean w) w)) / of_len w.
Proof.
  unfold pop_variance. unfold mean at 1. rewrite Qred_correct.
  by rewrite map_map, of_len_map.
Qed.

(** No number is further from the mean than the root of [n - 1] times the
    deviation. *)
Lemma deviation_bound l1 x l2 :
  let w := l1 ++ x :: l2 in
  (x - mean w) * (x - mean w) <= (of_len w - 1) * pop_variance w.
Proof.
  intros w.
  assert (Hw : w <> []) by (unfold w; by destruct l1).
  pose proof (of_len_pos w Hw) as Hn.
  pose proof (deviations_sum w Hw) as H0.
  pose proof (pop_variance_eq w) as Hv.
  set (m := mean w) in *. set (v := pop_variance w) in *.
  set (f := fun y => y - m) in *. set (g := fun d : Q => d * d) in *.
  set (others := map f l1 ++ map f l2).
  assert (Hlen : of_len w == 1 + of_len others).
  { unfold w, others, of_len. rewrite !length_app, !length_map. cbn [length].
    rewrite <- inject_Z_plus with (x := 1%Z). apply inject_Z_injective. lia. }
  assert (Hsum : qsum others == - (x - m)).
  { unfold others. rewrite qsum_app. unfold w in H0.
    rewrite map_app in H0. cbn [map] in H0.
    rewrite qsum_app, qsum_cons in H0. change (f x) with (x - m) in H0. lra. }
  assert (Hsq : qsum (map g (map f w))
                == qsum (map g others) + (x - m) * (x - m)).
  { unfold others, w. rewrite !map_app. cbn [map].
    rewrite !qsum_app, qsum_cons.
    change (g (f x)) with ((x - m) * (x - m)). lra. }
  pose proof (square_of_sum others) as Hcs. fold g in Hcs.
  rewrite Hsum in Hcs.
  set (d := x - m) in *. set (k := of_len others) in *.
  set (q := qsum (map g others)) in *. set (n := of_len w) in *.
  assert (Hnv : n * v == q + d * d).
  { rewrite Hv, Hsq. rewrite Qmult_div_r by lra. reflexivity. }
  apply Qmult_le_l with (z := n); [done|].
  setoid_replace (n * ((n - 1) * v)) with ((n - 1) * (n * v))
    using relation Qeq by ring.
  rewrite Hnv, Hlen.
  setoid_replace (- d * - d) with (d * d) using relation Qeq in Hcs by ring.
  setoid_replace ((1 + k) * (d * d)) with (k * (d * d) + d * d)
    using relation Qeq by ring.
  setoid_replace ((1 + k - 1) * (q + d * d)) with (k * q + k * (d * d))
    using relation Qeq by ring.
  lra.
Qed.

Lemma pop_variance_nonneg w : 0 <= pop_variance w.
Proof.
  rewrite pop_variance_eq.
  pose proof (qsum_squares_nonneg (map (fun y => y - mean w) w)) as Hq.
  destruct w as [|x w].
  - unfold qsum, of_len. simpl. unfold Qle. simpl. lia.
  - apply Qle_shift_div_l; [by apply of_len_pos|]. lra.
Qed.

Lemma finite_values_length a qs :
  finite_values a = Some qs -> length qs = length a.
Proof. intros H. unfold finite_values in H. by apply length_mapM in H. Qed.

Lemma finite_values_finite a qs :
  finite_values a = Some qs -> Forall finite a.
Proof.
  unfold finite_values. rewrite mapM_Some.
  induction 1 as [|x q a qs Hx _ IH]; constructor; [|done].
  by destruct x.
Qed.

Section OutlierScores.

Variable sqrt : Q -> Q.

(** A score above three takes a distance above the root of eight
    deviations. *)
Lemma flagged_far d v t :
  root_within v (sqrt v) -> 0 <= v -> 3 <= t ->
  ltb (Fin t) (abs (Fin d / Fin (sqrt v))) = true ->
  (81 # 10) * v < d * d.
Proof.
  intros [Hs Hr] Hv Ht. set (s := sqrt v) in *.
  unfold div. destruct (Qzero s) eqn:Es.
  - apply Qzero_spec in Es.
    assert (Hv0 : v == 0) by (rewrite Es in Hr; lra).
    destruct (Qzero d) eqn:Ed; [done|]. intros _.
    assert (Hd : ~ d == 0).
    { intros E. apply Qzero_spec in E. congruence. }
    assert (0 < d * d); [|lra].
    destruct (Qlt_le_dec 0 d).
    + by apply Qmult_lt_0_compat.
    + setoid_replace (d * d) with ((- d) * (- d)) using relation Qeq by ring.
      apply Qmult_lt_0_compat; lra.
  - assert (Hsp : 0 < s).
    { destruct (Qeq_dec s 0) as [E|N]; [|lra].
      apply Qzero_spec in E. congruence. }
    unfold abs. intros El.
    apply ltb_fin_true in El. rewrite Qred_correct in El.
    set (z := d / s) in *.
    assert (Hz : d == z * s) by (unfold z; field; lra).
    assert (Hzz : 9 < z * z).
    { pose proof (Qabs_nonneg z) as Hn.
      assert (H9 : 3 * 3 < Qabs z * Qabs z).
      { apply Qle_lt_trans with (y := 3 * Qabs z).
        - apply Qmult_le_l; lra.
        - apply Qmult_lt_r; lra. }
      rewrite <- Qabs_Qmult in H9.
      rewrite Qabs_pos in H9 by apply Qsquare_nonneg. lra. }
    assert (Hss : 0 < s * s) by (by apply Qmult_lt_0_compat).
    assert (Hbig : 9 * (s * s) < d * d).
    { rewrite Hz.
      setoid_replace (z * s * (z * s)) with (z * z * (s * s))
        using relation Qeq by ring.
      apply Qmult_lt_r; lra. }
    lra.
Qed.

(** Without a flag the table comes back as it went in. *)
Lemma no_flag_unchanged df col threshold :
  Forall (fun b => b = false)
    (outliers sqrt threshold (map (fun tr => column col tr.2) df)) ->
  remove_outliers sqrt df col threshold = df.
Proof.
  intros H. unfold remove_outliers.
  assert (E : List.filter id
    (outliers sqrt threshold (map (fun tr => column col tr.2) df)) = []).
  { induction H as [|b bs -> _ IH]; [done|]. simpl. exact IH. }
  by rewrite E.
Qed.

Lemma outliers_length threshold a :
  length (outliers sqrt threshold a) = length a.
Proof.
  unfold outliers, zscore. destruct (finite_values a) as [qs|] eqn:E.
  - rewrite !length_map. by apply finite_values_length.
  - by rewrite !length_map.
Qed.

Lemma outliers_finite threshold a qs :
  finite_values a = Some qs ->
  outliers sqrt threshold a =
  map (fun x => ltb threshold
         (abs (Fin (x - mean qs) / Fin (sqrt (pop_variance qs))))) qs.
Proof.
  intros E. unfold outliers, zscore. rewrite E. by rewrite map_map.
Qed.

Lemma outliers_not_finite threshold a :
  finite_values a = None ->
  outliers sqrt threshold a = map (fun _ => false) a.
Proof.
  intros E. unfold outliers, zscore. rewrite E, map_map.
  apply map_ext. intros _. by destruct threshold as [t|[]|].
Qed.

(** X22. With a threshold of three or more,
    the default, [remove_outliers] takes no row out of a table of nine rows
    or fewer, whatever the prices are: no number of so few is more than
    the root of eight deviations from their mean. *)
Theorem remove_outliers_small_table (df : Table) (col : Column) (t : Q) :
  (length df <= 9)%nat -> 3 <= t ->
  (forall qs, finite_values (map (fun tr => column col tr.2) df) = Some qs ->
     root_within (pop_variance qs) (sqrt (pop_variance qs))) ->
  remove_outliers sqrt df col (Fin t) = df.
Proof.
  intros Hlen Ht Hroot. apply no_flag_unchanged.
  set (a := map (fun tr => column col tr.2) df) in *.
  destruct (finite_values a) as [qs|] eqn:E.
  - rewrite (outliers_finite _ _ _ E).
    apply Forall_forall. intros b Hb.
    apply list_elem_of_In, in_map_iff in Hb as (x & <- & Hx).
    apply in_split in Hx as (l1 & l2 & ->).
    destruct (ltb _ _) eqn:El; [exfalso|done].
    apply flagged_far in El;
      [| by apply Hroot | apply pop_variance_nonneg | done].
    pose proof (deviation_bound l1 x l2) as Hb. cbv zeta in Hb.
    set (w := l1 ++ x :: l2) in *.
    pose proof (pop_variance_nonneg w) as Hv.
    assert (Hn : of_len w - 1 <= 8).
    { apply finite_values_length in E. unfold a in E.
      rewrite length_map in E. unfold of_len.
      assert (H9 : inject_Z (Z.of_nat (length w)) <= inject_Z 9).
      { rewrite <- Zle_Qle. lia. }
      change (inject_Z 9) with 9 in H9. lra. }
    assert (Hm : (of_len w - 1) * pop_variance w <= 8 * pop_variance w).
    { apply Qmult_le_compat_r; done. }
    lra.
  - rewrite (outliers_not_finite _ _ E).
    apply Forall_forall. intros b Hb.
    by apply list_elem_of_In, in_map_iff in Hb as (x & <- & _).
Qed.

(** X23. One cell of the column that is not a
    finite number, a missing close for one, makes every score NaN: no row
    is flagged and the table comes back unchanged, whatever the other
    prices and the threshold are. *)
Theorem remove_outliers_blind (df : Table) (col : Column) (threshold : num)
  (tr : Z * Row) :
  In tr df -> ~ finite (column col tr.2) ->
  remove_outliers sqrt df col threshold = df.
Proof.
  intros Hin Hnf. apply no_flag_unchanged.
  set (a := map (fun tr => column col tr.2) df).
  destruct (finite_values a) as [qs|] eqn:E.
  - exfalso. apply finite_values_finite in E.
    rewrite Forall_forall in E. apply Hnf, E, list_elem_of_In.
    unfold a. apply in_map_iff. by exists tr.
  - rewrite (outliers_not_finite _ _ E).
    apply Forall_forall. intros b Hb.
    by apply list_elem_of_In, in_map_iff in Hb as (x & <- & _).
Qed.

Lemma squares_above c ds :
  Forall (fun d => c < d * d) ds ->
  of_len ds * c <= qsum (map (fun d => d * d) ds) /\
  (ds <> [] -> of_len ds * c < qsum (map (fun d => d * d) ds)).
Proof.
  induction 1 as [|d ds Hd _ [IH _]].
  - split; [|done]. unfold qsum, of_len. simpl.
    change (inject_Z 0) with 0. rewrite Qmult_0_l. lra.
  - cbn [map]. rewrite qsum_cons, of_len_cons.
    setoid_replace ((1 + of_len ds) * c) with (c + of_len ds * c)
      using relation Qeq by ring.
    split; [|intros _]; lra.
Qed.

(** The flags never cover a whole column. *)
Lemma some_unflagged a t :
  a <> [] -> 3 <= t ->
  (forall qs, finite_values a = Some qs ->
     root_within (pop_variance qs) (sqrt (pop_variance qs))) ->
  Exists (fun b => b = false) (outliers sqrt (Fin t) a).
Proof.
  intros Ha Ht Hroot.
  destruct (finite_values a) as [qs|] eqn:E.
  - rewrite (outliers_finite _ _ _ E).
    set (flag := fun x => ltb (Fin t) _).
    destruct (decide (Forall (fun b => b = true) (map flag qs)))
      as [Hall|Hnot].
    + exfalso.
      assert (Hq : qs <> []).
      { apply finite_values_length in E. by destruct qs, a. }
      pose proof (pop_variance_nonneg qs) as Hv.
      pose proof (pop_variance_eq qs) as Hveq.
      pose proof (of_len_pos qs Hq) as Hn.
      destruct (squares_above (pop_variance qs)
                  (map (fun y => y - mean qs) qs)) as [_ Hlt].
      { apply Forall_forall. intros d Hd.
        apply list_elem_of_In, in_map_iff in Hd as (x & <- & Hx).
        rewrite Forall_forall in Hall.
        assert (Hf : flag x = true).
        { apply Hall, list_elem_of_In, in_map_iff. by exists x. }
        apply flagged_far in Hf; [| by apply Hroot | done | done]. lra. }
      specialize (Hlt ltac:(by destruct qs)).
      rewrite of_len_map in Hlt.
      assert (Hnv : of_len qs * pop_variance qs ==
                    qsum (map (fun d => d * d)
                            (map (fun y => y - mean qs) qs))).
      { rewrite Hveq at 1. rewrite Qmult_div_r by lra. reflexivity. }
      lra.
    + apply not_Forall_Exists in Hnot; [|apply _].
      eapply Exists_impl; [exact Hnot|].
      intros b Hb. simpl in Hb. destruct b; [by destruct Hb | done].
  - rewrite (outliers_not_finite _ _ E).
    destruct a as [|x a]; [done|]. by apply Exists_cons_hd.
Qed.

Lemma unflagged_row_stays (df : Table) (bs : list bool) :
  length bs = length df -> Exists (fun b => b = false) bs ->
  map fst (List.filter (fun ro : (Z * Row) * bool => negb ro.2) (zip df bs))
  <> [].
Proof.
  intros Hlen Hex. revert df Hlen.
  induction Hex as [b bs ->|b bs _ IH]; intros [|tr df] Hlen;
    try discriminate.
  simpl. destruct b; simpl; [|done]. apply IH. simpl in Hlen. lia.
Qed.

(** X24. With a threshold of three or more
    [remove_outliers] never empties a table: of a table with a row at least
    one row is left. *)
Theorem remove_outliers_keeps_a_row (df : Table) (col : Column) (t : Q) :
  df <> [] -> 3 <= t ->
  (forall qs, finite_values (map (fun tr => column col tr.2) df) = Some qs ->
     root_within (pop_variance qs) (sqrt (pop_variance qs))) ->
  remove_outliers sqrt df col (Fin t) <> [].
Proof.
  intros Hdf Ht Hroot. unfold remove_outliers.
  destruct (0 <? _)%nat; [|done].
  apply unflagged_row_stays.
  - by rewrite outliers_length, length_map.
  - apply some_unflagged; [by destruct df | done | done].
Qed.

End OutlierScores.

End OutlierFacts.

Section OutlierExamples.
Import Float Features Cleaning CleaningSamples Outliers OutlierSamples.
Local Open Scope Z_scope.

(** The twelfth day is more than three deviations away and goes. *)
Example spike_is_removed :
  remove_outliers Samples.sqrt_down spike Close (Fin 3) = eleven_days.
Proof. by vm_compute. Qed.

Lemma sample_root (a : list num) (qs : list Q) :
  finite_values a = Some qs ->
  Qle_bool 0 (Samples.sqrt_down (pop_variance qs)) = true ->
  Qle_bool ((9 # 10) * pop_variance qs)
    (Samples.sqrt_down (pop_variance qs)
     * Samples.sqrt_down (pop_variance qs))%Q = true ->
  forall qs', finite_values a = Some qs' ->
    root_within (pop_variance qs') (Samples.sqrt_down (pop_variance qs')).
Proof.
  intros E H1 H2 qs' E'. rewrite E in E'. injection E' as <-.
  split; by apply Qle_bool_iff.
Qed.

Lemma remove_outliers_small_table_witness :
  remove_outliers Samples.sqrt_down two_days Close (Fin 3) = two_days.
Proof.
  apply (remove_outliers_small_table Samples.sqrt_down two_days Close 3).
  - simpl. lia.
  - apply Qle_refl.
  - by apply (sample_root _ [11; 14]%Q); vm_compute.
Defined.

Lemma remove_outliers_blind_witness :
  remove_outliers Samples.sqrt_down (spike ++ [(12 * day, nan_row)])
    Close (Fin 3)
  = spike ++ [(12 * day, nan_row)].
Proof.
  apply (remove_outliers_blind Samples.sqrt_down _ Close (Fin 3)
           (12 * day, nan_row)).
  - apply in_or_app. right. by left.
  - unfold finite. simpl. discriminate.
Defined.

Lemma remove_outliers_keeps_a_row_witness :
  remove_outliers Samples.sqrt_down spike Close (Fin 3) <> [].
Proof.
  apply (remove_outliers_keeps_a_row Samples.sqrt_down spike Close 3).
  - discriminate.
  - apply Qle_refl.
  - by apply (sample_root _
      (replicate 11 11%Q ++ [1000%Q])); vm_compute.
Defined.

End OutlierExamples.

(* ------------------------------------------------------------------ *)
(** *** The trading signal card *)

Section SignalFacts.
Import Float Indicators Averages Signals.

Variable Math_sqrt : num -> num.
Local Abbreviation activeSignal := (activeSignal Math_sqrt).

Lemma ltb_weaken a b x :
  (a <= b)%Q -> ltb (Fin b) x = true -> ltb (Fin a) x = true.
Proof.
  intros Hab. destruct x as [q|s|]; try done.
  intros H%ltb_fin_true. unfold ltb.
  destruct (Qcompare a q) eqn:E; [|done|].
  - apply Qeq_alt in E. lra.
  - apply Qgt_alt in E. lra.
Qed.

Lemma ltb_strengthen a b x :
  (a <= b)%Q -> ltb x (Fin a) = true -> ltb x (Fin b) = true.
Proof.
  intros Hab. destruct x as [q|s|]; try done.
  intros H%ltb_fin_true. unfold ltb.
  destruct (Qcompare q b) eqn:E; [|done|].
  - apply Qeq_alt in E. lra.
  - apply Qgt_alt in E. lra.
Qed.

Lemma strength_high b : strength b = High -> b = true.
Proof. by destruct b. Qed.

Lemma confident_explicit (c : option num) :
  gtb (or_else c (Fin (1 # 2))) (Fin (7 # 10)) = true ->
  exists x, c = Some x /\ ltb (Fin (7 # 10)) x = true.
Proof.
  unfold or_else, gtb. destruct c as [x|]; [|done].
  destruct (truthy x); [|done]. intros H. by exists x.
Qed.

Lemma rules_of pred b k sl tp tg change rr :
  (k = Low <-> b = Neutral) ->
  (k = High ->
   exists p c, pred = Some p /\ confidence p = Some c /\
               ltb (Fin (7 # 10)) c = true) ->
  (b = Bullish -> ltb (Fin 1) change = true) ->
  (b = Bearish -> ltb change (Fin (-1)) = true) ->
  let s := mkSignal b k sl tp tg change rr in
  (signalLabel s = "HOLD"%string <-> bias s = Neutral) /\
  (conviction s = Low <-> bias s = Neutral) /\
  (conviction s = High ->
   exists p c, pred = Some p /\ confidence p = Some c /\
               ltb (Fin (7 # 10)) c = true) /\
  (bias s = Bullish -> ltb (Fin 1) (expectedReturn s) = true) /\
  (bias s = Bearish -> ltb (expectedReturn s) (Fin (-1)) = true).
Proof.
  intros H1 H2 H3 H4 s. subst s.
  cbn [bias conviction expectedReturn]. unfold signalLabel.
  cbn [bias conviction].
  split; [|done].
  destruct b, k; split; intros H; try discriminate H; reflexivity.
Qed.

Lemma strength_low b : strength b = Low <-> Bullish = Neutral.
Proof. destruct b; split; discriminate. Qed.

Lemma strength_low' b : strength b = Low <-> Bearish = Neutral.
Proof. destruct b; split; discriminate. Qed.

(** X25. Whatever the inputs, the card shows HOLD
    exactly when the bias is neutral, and a neutral bias is the only one
    with low conviction.  A strong label needs a confidence given with the
    prediction and above 0.7; a missing confidence counts as 0.5.  A
    bullish bias comes with an expected return above 1 percent, a bearish
    one with an expected return below -1 percent. *)
Theorem signal_label_rules horizon pred currentPrice rsi volatility trend :
  let s := activeSignal horizon pred currentPrice rsi volatility trend in
  (signalLabel s = "HOLD"%string <-> bias s = Neutral) /\
  (conviction s = Low <-> bias s = Neutral) /\
  (conviction s = High ->
   exists p c, pred = Some p /\ confidence p = Some c /\
               ltb (Fin (7 # 10)) c = true) /\
  (bias s = Bullish -> ltb (Fin 1) (expectedReturn s) = true) /\
  (bias s = Bearish -> ltb (expectedReturn s) (Fin (-1)) = true).
Proof.
  unfold Signals.activeSignal.
  destruct pred as [p|]; cbn zeta.
  2:{ by apply rules_of. }
  set (change := or_else (change_percent p) _).
  set (conf := or_else (confidence p) _).
  set (volMult := Math_max _ _).
  assert (Hconf : forall b,
            strength (b && gtb conf (Fin (7 # 10))) = High ->
            exists p0 c, Some p = Some p0 /\ confidence p0 = Some c /\
                         ltb (Fin (7 # 10)) c = true).
  { intros b [_ (x & Hx & Hlt)%confident_explicit]%strength_high%andb_true_iff.
    by exists p, x. }
  destruct horizon.
  - destruct (gtb change (Fin 1) && _ && _) eqn:E1.
    + apply andb_true_iff in E1 as [E1 _].
      apply andb_true_iff in E1 as [E1 _].
      apply rules_of;
        [apply strength_low | apply Hconf | by intros _ | discriminate].
    + destruct (ltb change (Fin (-1)) && _ && _) eqn:E2.
      * apply andb_true_iff in E2 as [E2 _].
        apply andb_true_iff in E2 as [E2 _].
        apply rules_of;
          [apply strength_low' | apply Hconf | discriminate | by intros _].
      * by apply rules_of.
  - destruct (gtb change _) eqn:E1.
    + apply rules_of;
        [apply strength_low | apply Hconf | | discriminate].
      intros _. unfold gtb in E1.
      destruct (ltb trend (Fin (-3)));
        (eapply ltb_weaken; [|exact E1]); lra.
    + destruct (ltb change (Fin (- (3 # 2)))) eqn:E2.
      * apply rules_of;
          [apply strength_low' | apply Hconf | discriminate |].
        intros _. eapply ltb_strengthen; [|exact E2]. lra.
      * by apply rules_of.
  - destruct (gtb change (Fin 3)) eqn:E1.
    + apply rules_of;
        [apply strength_low | apply Hconf | | discriminate].
      intros _. eapply ltb_weaken; [|exact E1]. lra.
    + destruct (ltb change (Fin (-3))) eqn:E2.
      * apply rules_of;
          [apply strength_low' | apply Hconf | discriminate |].
        intros _. eapply ltb_strengthen; [|exact E2]. lra.
      * by apply rules_of.
Qed.


Lemma bias_day p cp rsi v t :
  bias (activeSignal Day (Some p) cp rsi v t) =
  let change :=
    or_else (change_percent p) ((price p - cp) / cp * Fin 100)%num in
  let trendAligned :=
    (gtb change (Fin 0) && gtb t (Fin (-1)))
    || (ltb change (Fin 0) && ltb t (Fin 1)) in
  if gtb change (Fin 1) && trendAligned && ltb (or_else rsi (Fin 50)) (Fin 70)
  then Bullish
  else if ltb change (Fin (-1)) && trendAligned
          && gtb (or_else rsi (Fin 50)) (Fin 30)
  then Bearish else Neutral.
Proof.
  unfold Signals.activeSignal. cbv zeta.
  destruct (gtb _ (Fin 1) && _ && _); [done|].
  by destruct (ltb _ (Fin (-1)) && _ && _).
Qed.

Lemma or_else_nonzero r y :
  ~ (r == 0)%Q -> or_else (Some (Fin r)) y = Fin r.
Proof.
  intros Hr. unfold or_else, truthy, eqb. cbn [is_nan].
  destruct (Qeq_bool r 0) eqn:E; [|done].
  apply Qeq_bool_iff in E. done.
Qed.

Lemma or_else_zero r y : (r == 0)%Q -> or_else (Some (Fin r)) y = y.
Proof.
  intros Hr. unfold or_else, truthy, eqb. cbn [is_nan].
  apply Qeq_bool_iff in Hr. by rewrite Hr.
Qed.

(** X26. For the day horizon an RSI of 70 or more rules out a
    bullish bias and an RSI of at most 30, other than 0, rules out a
    bearish one.  An RSI of exactly 0 is falsy and is read as 50, like a
    missing RSI.  The swing and long horizons do not look at the RSI. *)
Theorem day_rsi_gate (pred : option Pred) currentPrice volatility trend
    (r : Q) :
  let day rsi := activeSignal Day pred currentPrice rsi volatility trend in
  ((70 <= r)%Q -> bias (day (Some (Fin r))) <> Bullish) /\
  (~ (r == 0)%Q -> (r <= 30)%Q -> bias (day (Some (Fin r))) <> Bearish) /\
  ((r == 0)%Q -> day (Some (Fin r)) = day None) /\
  (forall horizon rsi rsi',
     horizon <> Day ->
     activeSignal horizon pred currentPrice rsi volatility trend
     = activeSignal horizon pred currentPrice rsi' volatility trend).
Proof.
  intros day. subst day. cbv beta.
  destruct pred as [p|].
  2:{ repeat split; try done. }
  split; [|split; [|split]].
  - intros Hr. rewrite bias_day. cbv zeta.
    rewrite or_else_nonzero by lra.
    assert (E : ltb (Fin r) (Fin 70) = false).
    { unfold ltb. destruct (Qcompare r 70) eqn:E; try done.
      apply Qlt_alt in E. lra. }
    rewrite E, andb_false_r.
    by destruct (ltb _ (Fin (-1)) && _ && _).
  - intros Hnz Hr. rewrite bias_day. cbv zeta.
    rewrite or_else_nonzero by done.
    assert (E : gtb (Fin r) (Fin 30) = false).
    { unfold gtb, ltb. destruct (Qcompare 30 r) eqn:E; try done.
      apply Qlt_alt in E. lra. }
    rewrite E, andb_false_r.
    by destruct (gtb _ (Fin 1) && _ && _).
  - intros Hr. unfold Signals.activeSignal.
    by rewrite (or_else_zero r _ Hr).
  - intros horizon rsi rsi' Hh. by destruct horizon.
Qed.

Local Open Scope Q_scope.

Lemma volMult_floor v s :
  0 < s ->
  exists m, Math_max (Fin v / Fin s) (Fin (1 # 100)) = Fin m /\ 1 # 100 <= m.
Proof.
  intros Hs. rewrite div_fin by (by apply Qzero_pos).
  unfold Math_max. cbn [is_nan orb].
  destruct (ltb _ _) eqn:E.
  - exists (1 # 100). split; [done | lra].
  - apply ltb_fin_false in E. eexists. split; [reflexivity | exact E].
Qed.

Lemma stop_below cp m k :
  0 < cp -> 1 # 100 <= m -> 0 < k ->
  exists sl, (Fin cp * (Fin 1 - Fin m * Fin k))%num = Fin sl /\
             sl == cp - cp * m * k.
Proof.
  intros. rewrite mul_fin, sub_fin, mul_fin. eexists.
  split; [reflexivity|]. rewrite !Qred_correct. ring.
Qed.

Lemma stop_above cp m k :
  0 < cp -> 1 # 100 <= m -> 0 < k ->
  exists sl, (Fin cp * (Fin 1 + Fin m * Fin k))%num = Fin sl /\
             sl == cp + cp * m * k.
Proof.
  intros. rewrite mul_fin, add_fin, mul_fin. eexists.
  split; [reflexivity|]. rewrite !Qred_correct. ring.
Qed.

Lemma stop_below1 cp m :
  exists sl, (Fin cp * (Fin 1 - Fin m))%num = Fin sl /\ sl == cp - cp * m * 1.
Proof.
  rewrite sub_fin, mul_fin. eexists.
  split; [reflexivity|]. rewrite !Qred_correct. ring.
Qed.

Lemma stop_above1 cp m :
  exists sl, (Fin cp * (Fin 1 + Fin m))%num = Fin sl /\ sl == cp + cp * m * 1.
Proof.
  rewrite add_fin, mul_fin. eexists.
  split; [reflexivity|]. rewrite !Qred_correct. ring.
Qed.

Lemma spread_pos cp m k : 0 < cp -> 1 # 100 <= m -> 0 < k -> 0 < cp * m * k.
Proof.
  intros. apply Qmult_lt_0_compat; [|done].
  apply Qmult_lt_0_compat; lra.
Qed.


Lemma assemble_stops (b : Bias) (k : Conviction) (cp sl d : Q)
    (tp tg change rr : num) (p : Pred) :
  0 < d ->
  (b = Bullish -> sl == cp - d /\ tp = price p) ->
  (b = Bearish -> sl == cp + d /\ tp = price p) ->
  (b = Neutral -> sl == cp - d /\ exists t', tp = Fin t' /\ t' == cp + d) ->
  let s := mkSignal b k (Fin sl) tp tg change rr in
  exists sl', stopLoss s = Fin sl' /\
    (bias s = Bullish -> sl' < cp /\ takeProfit s = price p) /\
    (bias s = Bearish -> cp < sl' /\ takeProfit s = price p) /\
    (bias s = Neutral ->
     sl' < cp /\ exists tp', takeProfit s = Fin tp' /\ cp < tp').
Proof.
  intros Hd Hb Hr Hn s. subst s.
  cbn [stopLoss bias takeProfit].
  exists sl. split; [done|]. split; [|split].
  - intros E. destruct (Hb E) as [Hsl ->]. split; [lra | done].
  - intros E. destruct (Hr E) as [Hsl ->]. split; [lra | done].
  - intros E. destruct (Hn E) as (Hsl & t' & -> & Ht').
    split; [lra|]. exists t'. split; [done | lra].
Qed.

(** X27. For a current price and a volatility of moderate
    size the stop loss lies on the losing side: below the price for a
    bullish or neutral bias, above it for a bearish one.  The take profit
    of a bullish or bearish signal is the predicted price; for a neutral
    one it lies above the current price.  The distance of the stop is at
    least one percent of the price, which rounding cannot close. *)
Theorem signal_stops horizon (p : Pred) (cp v s252 : Q) rsi trend :
  tradable (Fin cp) -> moderate (Fin v) ->
  Math_sqrt (Fin 252) = Fin s252 -> 0 < s252 ->
  let s := activeSignal horizon (Some p) (Fin cp) rsi (Fin v) trend in
  exists sl, stopLoss s = Fin sl /\
    (bias s = Bullish -> sl < cp /\ takeProfit s = price p) /\
    (bias s = Bearish -> cp < sl /\ takeProfit s = price p) /\
    (bias s = Neutral ->
     sl < cp /\ exists tp, takeProfit s = Fin tp /\ cp < tp).
Proof.
  intros Htr _ Hsqrt Hs.
  assert (Hcp : 0 < cp).
  { destruct Htr as [Hlo _]. eapply Qlt_le_trans; [|exact Hlo].
    reflexivity. }
  unfold Signals.activeSignal. rewrite Hsqrt.
  destruct (volMult_floor v s252 Hs) as (m & -> & Hm).
  cbv zeta.
  set (change := or_else (change_percent p) _).
  set (conf := or_else (confidence p) _).
  destruct horizon.
  - destruct (gtb change (Fin 1) && _ && _).
    + cbv beta iota zeta.
      destruct (stop_below cp m (3 # 2)) as (sl & -> & Hsl); [done..|].
      apply (assemble_stops Bullish _ cp sl (cp * m * (3 # 2)));
        [by apply spread_pos | done | done | done].
    + destruct (ltb change (Fin (-1)) && _ && _).
      * cbv beta iota zeta.
        destruct (stop_above cp m (3 # 2)) as (sl & -> & Hsl); [done..|].
        apply (assemble_stops Bearish _ cp sl (cp * m * (3 # 2)));
          [by apply spread_pos | done | done | done].
      * cbv beta iota zeta.
        destruct (stop_below1 cp m) as (sl & -> & Hsl).
        destruct (stop_above1 cp m) as (tp & -> & Htp).
        apply (assemble_stops Neutral _ cp sl (cp * m * 1));
          [by apply spread_pos | done | done |].
        intros _. split; [done|]. by exists tp.
  - destruct (gtb change _).
    + cbv beta iota zeta.
      destruct (stop_below cp m 5) as (sl & -> & Hsl); [done..|].
      apply (assemble_stops Bullish _ cp sl (cp * m * 5));
        [by apply spread_pos | done | done | done].
    + destruct (ltb change (Fin (- (3 # 2)))).
      * cbv beta iota zeta.
        destruct (stop_above cp m 5) as (sl & -> & Hsl); [done..|].
        apply (assemble_stops Bearish _ cp sl (cp * m * 5));
          [by apply spread_pos | done | done | done].
      * cbv beta iota zeta.
        destruct (stop_below cp m 3) as (sl & -> & Hsl); [done..|].
        destruct (stop_above cp m 3) as (tp & -> & Htp); [done..|].
        apply (assemble_stops Neutral _ cp sl (cp * m * 3));
          [by apply spread_pos | done | done |].
        intros _. split; [done|]. by exists tp.
  - destruct (gtb change (Fin 3)).
    + cbv beta iota zeta.
      destruct (stop_below cp m 10) as (sl & -> & Hsl); [done..|].
      apply (assemble_stops Bullish _ cp sl (cp * m * 10));
        [by apply spread_pos | done | done | done].
    + destruct (ltb change (Fin (-3))).
      * cbv beta iota zeta.
        destruct (stop_above cp m 10) as (sl & -> & Hsl); [done..|].
        apply (assemble_stops Bearish _ cp sl (cp * m * 10));
          [by apply spread_pos | done | done | done].
      * cbv beta iota zeta.
        destruct (stop_below cp m 7) as (sl & -> & Hsl); [done..|].
        destruct (stop_above cp m 7) as (tp & -> & Htp); [done..|].
        apply (assemble_stops Neutral _ cp sl (cp * m * 7));
          [by apply spread_pos | done | done |].
        intros _. split; [done|]. by exists tp.
Qed.

End SignalFacts.

Section SignalHistory.
Import Float Indicators Averages Signals.

Variable Math_log : num -> num.
Variable Math_sqrt : num -> num.

(** X28. On a history of at least fifteen closes
    that fell every day [calculateRSI] answers 0, which the card reads as
    a missing RSI: its day signal is the one computed without RSI, and the
    oversold filter does not apply. *)
Theorem falling_history_gate_off (prediction : Prediction)
    (prices : list num) :
  15 <= length prices -> falling (reverse prices) ->
  card Math_log Math_sqrt Day prediction prices
  = activeSignal Math_sqrt Day (predictions prediction !! "1d"%string)
      (current_price prediction) None
      (volatility Math_log Math_sqrt prices) (recentTrend prices).
Proof.
  intros Hlen Hf. unfold card, rsi, calculateRSI. cbn [horizonMap].
  rewrite length_reverse.
  destruct (Nat.ltb_spec (length prices) (14 + 1)); [lia|].
  destruct (averages_of_falling (reverse prices) 14)
    as (g & l & -> & Hg & Hl);
    [lia | rewrite length_reverse; lia | done |].
  destruct (rsi_without_gain g l Hg Hl) as (-> & r & -> & Hr).
  unfold activeSignal. by rewrite (or_else_zero r _ Hr).
Qed.

End SignalHistory.

Section SignalExamples.
Import Float Indicators Averages Signals SignalSamples MathSamples.

Lemma slide_falls : falling (reverse slide).
Proof.
  intros i Hi.
  do 14 (destruct i as [|i];
         [eexists; eexists; repeat split; reflexivity|]).
  simpl in Hi. lia.
Qed.

(** The oversold history still gives a strong sell for the day. *)
Lemma falling_history_gate_off_witness :
  card log_first_term sqrt_num Day
    (mkPrediction (Fin 16) {["1d"%string := gloomy]}) slide
  = activeSignal sqrt_num Day (Some gloomy) (Fin 16) None
      (volatility log_first_term sqrt_num slide) (recentTrend slide).
Proof.
  rewrite (falling_history_gate_off log_first_term sqrt_num
             (mkPrediction (Fin 16) {["1d"%string := gloomy]}) slide
             ltac:(simpl; lia) slide_falls).
  reflexivity.
Defined.

Example slide_signal :
  signalLabel
    (card log_first_term sqrt_num Day
       (mkPrediction (Fin 16) {["1d"%string := gloomy]}) slide)
  = "STRONG SELL"%string.
Proof. by vm_compute. Qed.

Lemma signal_stops_witness :
  let s := activeSignal sqrt_num Swing (Some rosy) (Fin 100) None
             (Fin (2 # 10)) (Fin 0) in
  exists sl, stopLoss s = Fin sl /\ (sl < 100)%Q /\
             takeProfit s = Fin 110.
Proof.
  destruct (signal_stops sqrt_num Swing rosy 100 (2 # 10)
              (Samples.sqrt_down 252) None (Fin 0))
    as (sl & Hsl & Hb & _).
  - split; by vm_compute.
  - by vm_compute.
  - reflexivity.
  - by vm_compute.
  - exists sl. split; [exact Hsl|]. apply Hb. by vm_compute.
Defined.

End SignalExamples.

(* ------------------------------------------------------------------ *)
(** *** lstm_model.py: the direction accuracy *)

Section EvaluationFacts.
Import Float Sequences Evaluation.




End EvaluationFacts.

Section EvaluationExamples.
Import Float Sequences Evaluation.

(** Up, down, up against up, up, up: two of three directions agree. *)
Example two_of_three :
  direction_accuracy [Fin 1; Fin 2; Fin 1; Fin 3] [Fin 1; Fin 2; Fin 3; Fin 4]
  = Fin (200 # 3).
Proof. reflexivity. Qed.


End EvaluationExamples.
